(** * Jam rules.c: rules, targets, chains and settings

    A shallow embedding of [jam_src/rules.c]: the registry of RULEs per
    module with their reference-counted bodies and actions, the TARGET
    table with the TARGETS and ACTIONS chains, and the SETTINGS lists that
    are swapped into the variable environment around an action.

    Pointers are addresses into finite maps; the null pointer is [None].
    A function that dereferences a null or dangling pointer, or writes
    past the end of a buffer, has no defined result in C: it returns
    [None] here.  [malloc] is taken to succeed. *)

From stdpp Require Import gmap strings list fin_maps.
From Stdlib Require Import ZArith Lia Ascii.

Open Scope Z_scope.

(** ** Addresses *)

Abbreviation addr := positive (only parsing).

(** A [module *].  The module structures themselves (modules.c) are never
    written by rules.c; their names are a parameter below. *)
Abbreviation modptr := positive (only parsing).

(** A [LIST *]: an ordered sequence of strings ([L0], the null list, is
    the empty one). *)
Abbreviation LIST := (list string) (only parsing).

(** ** C strings in a fixed buffer *)

(** The first [n] characters of a string. *)
Fixpoint take_chars (n : nat) (s : string) : string :=
  match n, s with
  | O, _ => EmptyString
  | S _, EmptyString => EmptyString
  | S k, String c t => String c (take_chars k t)
  end.

Definition strlen (s : string) : Z := Z.of_nat (String.length s).

(** [strncat(dest, src, n)] on a buffer of [cap] bytes holding [dest]:
    at most [n] characters of [src] are appended, then a terminating NUL.
    The call knows nothing of [cap]; a result that does not fit (with
    its NUL) overruns the buffer. *)
Definition strncat (cap : Z) (dest src : string) (n : Z) : option string :=
  let r := (dest +:+ take_chars (Z.to_nat n) src)%string in
  if decide (strlen r + 1 ≤ cap) then Some r else None.

(** ** Reference-counted objects *)

(** [argument_list]: the formal parameters of a rule, a list of lists. *)
Record argument_list := Build_argument_list {
  args_reference_count : Z;
  data : list LIST
}.

(** [rule_actions]: the shell-action template of a rule. *)
Record rule_actions := Build_rule_actions {
  command : string;
  bindlist : LIST;
  flags : Z;
  actions_reference_count : Z
}.

(** Modelled from the spec: parse.h and parse.c are not part of the
    sources.  A procedure is an opaque parse tree that is "reference-tracked
    here" under the same contract as the two objects above (refer
    increments; free decrements and releases at zero or below), and that
    carries the [rulename] stamp written by [new_rule_body]. *)
Record PARSE := Build_PARSE {
  refs : Z;
  rulename : option string
}.

(** What the three kinds of object share: a counter that can be read and
    written. *)
Class Counted (T : Type) := {
  count : T → Z;
  with_count : Z → T → T;
  count_with_count : ∀ c o, count (with_count c o) = c;
  with_count_count : ∀ o, with_count (count o) o = o;
  with_count_twice : ∀ c c' o, with_count c (with_count c' o) = with_count c o
}.

#[export] Program Instance argument_list_counted : Counted argument_list := {
  count := args_reference_count;
  with_count c o := Build_argument_list c (data o)
}.
Next Obligation. done. Qed.
Next Obligation. by intros []. Qed.
Next Obligation. done. Qed.

#[export] Program Instance rule_actions_counted : Counted rule_actions := {
  count := actions_reference_count;
  with_count c o := Build_rule_actions (command o) (bindlist o) (flags o) c
}.
Next Obligation. done. Qed.
Next Obligation. by intros []. Qed.
Next Obligation. done. Qed.

#[export] Program Instance PARSE_counted : Counted PARSE := {
  count := refs;
  with_count c o := Build_PARSE c (rulename o)
}.
Next Obligation. done. Qed.
Next Obligation. by intros []. Qed.
Next Obligation. done. Qed.

(** The counts are C [int]s, 32 bits wide; a step past [INT_MAX] or below
    [INT_MIN] has no defined result. *)
Definition INT_MAX : Z := 2147483647.
Definition INT_MIN : Z := -2147483648.

(** [++a->reference_count] *)
Definition obj_refer `{Counted T} (a : addr) (h : gmap positive T)
  : option (gmap positive T) :=
  o ← h !! a;
  if decide (count o < INT_MAX) then
    Some (<[a := with_count (count o + 1) o]> h)
  else None.

(** [if (--a->reference_count <= 0) { ...; free(a); }] *)
Definition obj_free `{Counted T} (a : addr) (h : gmap positive T)
  : option (gmap positive T) :=
  o ← h !! a;
  if decide (INT_MIN < count o) then
    let c := count o - 1 in
    if decide (c ≤ 0) then Some (delete a h)
    else Some (<[a := with_count c o]> h)
  else None.

(** ** Rules *)

(** [RULE]: one slot of a module's rule table.  The field [name] is the
    key under which the table holds the slot, and is kept there. *)
Record RULE := Build_RULE {
  procedure : option positive;   (* PARSE * *)
  arguments : option positive;   (* argument_list * *)
  actions : option positive;     (* rule_actions * *)
  module : positive;             (* module * *)
  exported : Z                   (* int *)
}.

(** A [RULE *] points into the hash table [m->rules] of a module [m]; the
    table keeps one item per name and never moves it, so the pointer is
    the pair of the module and the key, and [r->name] is its second
    component. *)
Abbreviation RULE_p := (positive * string)%type (only parsing).

(** The memory rules.c works on: the tables [m->rules] of all modules (as
    one map), and the three kinds of shared objects. *)
Record rules_state := Build_rules_state {
  rule_tables : gmap (positive * string) RULE;
  arglists : gmap positive argument_list;
  parses : gmap positive PARSE;
  actionss : gmap positive rule_actions
}.

Definition set_rule_tables (t : gmap (positive * string) RULE) (st : rules_state) :=
  Build_rules_state t (arglists st) (parses st) (actionss st).
Definition set_arglists (h : gmap positive argument_list) (st : rules_state) :=
  Build_rules_state (rule_tables st) h (parses st) (actionss st).
Definition set_parses (h : gmap positive PARSE) (st : rules_state) :=
  Build_rules_state (rule_tables st) (arglists st) h (actionss st).
Definition set_actionss (h : gmap positive rule_actions) (st : rules_state) :=
  Build_rules_state (rule_tables st) (arglists st) (parses st) h.

(** Field writes [r->f = v]. *)
Definition with_procedure (p : option positive) (r : RULE) : RULE :=
  Build_RULE p (arguments r) (actions r) (module r) (exported r).
Definition with_arguments (a : option positive) (r : RULE) : RULE :=
  Build_RULE (procedure r) a (actions r) (module r) (exported r).
Definition with_actions (a : option positive) (r : RULE) : RULE :=
  Build_RULE (procedure r) (arguments r) a (module r) (exported r).
Definition with_module (m : positive) (r : RULE) : RULE :=
  Build_RULE (procedure r) (arguments r) (actions r) m (exported r).
Definition with_exported (e : Z) (r : RULE) : RULE :=
  Build_RULE (procedure r) (arguments r) (actions r) (module r) e.

(** [*r], and [*r = v] for a slot that exists. *)
Definition rule_at (r : RULE_p) (st : rules_state) : option RULE :=
  rule_tables st !! r.
Definition write_rule (r : RULE_p) (v : RULE) (st : rules_state) : rules_state :=
  set_rule_tables (<[r := v]> (rule_tables st)) st.

(** [enter_rule()]: the slot of [rulename] in [target_module], created
    empty and owned by [target_module] when the name is new
    ([hashenter] returns non-zero exactly then). *)
Definition enter_rule (rulename : string) (target_module : modptr)
    (st : rules_state) : RULE_p * rules_state :=
  let r := (target_module, rulename) in
  match rule_tables st !! r with
  | Some _ => (r, st)
  | None =>
      (r, write_rule r (Build_RULE None None None target_module 0) st)
  end.

(** The record [enter_rule] returns a pointer to. *)
Definition entered (rulename : string) (target_module : modptr)
    (st : rules_state) : RULE :=
  default (Build_RULE None None None target_module 0)
    (rule_tables st !! (target_module, rulename)).

(** [args_new()]: a new argument list, not yet referred to by anyone. *)
Definition args_new (st : rules_state) : positive * rules_state :=
  let r := fresh (dom (arglists st)) in
  (r, set_arglists (<[r := Build_argument_list 0 []]> (arglists st)) st).

Definition args_refer (a : addr) (st : rules_state) : option rules_state :=
  h ← obj_refer a (arglists st); Some (set_arglists h st).

Definition args_free (a : addr) (st : rules_state) : option rules_state :=
  h ← obj_free a (arglists st); Some (set_arglists h st).

Definition actions_refer (a : addr) (st : rules_state) : option rules_state :=
  h ← obj_refer a (actionss st); Some (set_actionss h st).

Definition actions_free (a : addr) (st : rules_state) : option rules_state :=
  h ← obj_free a (actionss st); Some (set_actionss h st).

(** Modelled from the spec: [parse_refer] and [parse_free] live in parse.c,
    which is not part of the sources; they follow the contract of
    [args_refer] and [args_free]. *)
Definition parse_refer (p : addr) (st : rules_state) : option rules_state :=
  h ← obj_refer p (parses st); Some (set_parses h st).

Definition parse_free (p : addr) (st : rules_state) : option rules_state :=
  h ← obj_free p (parses st); Some (set_parses h st).

(** [if ( p ) f( p );] *)
Definition when_set (f : positive → rules_state → option rules_state)
    (p : option positive) (st : rules_state) : option rules_state :=
  match p with
  | Some a => f a st
  | None => Some st
  end.

(** [set_rule_body()]: refer to the new objects first, then give up the
    old ones. *)
Definition set_rule_body (rule : RULE_p) (args : option positive)
    (proc : option positive) (st : rules_state) : option rules_state :=
  st ← when_set args_refer args st;
  r ← rule_at rule st;
  st ← when_set args_free (arguments r) st;
  let st := write_rule rule (with_arguments args r) st in
  st ← when_set parse_refer proc st;
  r ← rule_at rule st;
  st ← when_set parse_free (procedure r) st;
  r ← rule_at rule st;
  Some (write_rule rule (with_procedure proc r) st).

(** [set_rule_actions()] *)
Definition set_rule_actions (rule : RULE_p) (acts : option positive)
    (st : rules_state) : option rules_state :=
  st ← when_set actions_refer acts st;
  r ← rule_at rule st;
  st ← when_set actions_free (actions r) st;
  r ← rule_at rule st;
  Some (write_rule rule (with_actions acts r) st).

(** [actions_new()] *)
Definition actions_new (cmd : string) (bl : LIST) (fl : Z)
    (st : rules_state) : positive * rules_state :=
  let result := fresh (dom (actionss st)) in
  (result,
   set_actionss (<[result := Build_rule_actions cmd bl fl 0]> (actionss st)) st).

(** [define_rule()]: the slot of [rulename] in [target_module], cleared
    when it was owned by another module than [src_module]. *)
Definition define_rule (src_module : modptr) (rulename : string)
    (target_module : modptr) (st : rules_state)
    : option (RULE_p * rules_state) :=
  let '(r, st) := enter_rule rulename target_module st in
  v ← rule_at r st;
  if decide (module v ≠ src_module) then
    st ← set_rule_body r None None st;
    st ← set_rule_actions r None st;
    v ← rule_at r st;
    Some (r, write_rule r (with_module src_module v) st)
  else Some (r, st).

(** [sizeof(name)] in [global_rule_name]. *)
Definition NAME_SIZE : Z := 4096.

(** [import_rule()] *)
Definition import_rule (source : RULE_p) (m : modptr) (nm : string)
    (st : rules_state) : option (RULE_p * rules_state) :=
  src ← rule_at source st;
  '(dest, st) ← define_rule (module src) nm m st;
  src ← rule_at source st;
  st ← set_rule_body dest (arguments src) (procedure src) st;
  src ← rule_at source st;
  st ← set_rule_actions dest (actions src) st;
  Some (dest, st).

(** ** Targets and chains *)

(** [TARGET]: the fields rules.c writes; the rest of the structure is
    zeroed by [bindtarget] and belongs to other files. *)
Record TARGET := Build_TARGET {
  target_name : string;
  boundname : string;
  target_flags : Z
}.

(** A [TARGET *] points into [targethash], keyed by the name. *)
Abbreviation TARGET_p := string (only parsing).

(** An [ACTION *]: the structure is built elsewhere. *)
Abbreviation ACTION_p := positive (only parsing).

(** [TARGETS] and [ACTIONS] are the same node up to the type of what it
    wraps: the item, the next node, and (meaningful on the head of a chain
    only) the last node. *)
Record CHAIN (T : Type) := Build_CHAIN {
  item : T;
  chain_next : option positive;
  chain_tail : option positive
}.
Arguments Build_CHAIN {T} _ _ _.
Arguments item {T} _.
Arguments chain_next {T} _.
Arguments chain_tail {T} _.

Abbreviation TARGETS := (CHAIN string) (only parsing).
Abbreviation ACTIONS := (CHAIN positive) (only parsing).

Definition with_chain_next {T} (n : option positive) (c : CHAIN T) : CHAIN T :=
  Build_CHAIN (item c) n (chain_tail c).
Definition with_chain_tail {T} (t : option positive) (c : CHAIN T) : CHAIN T :=
  Build_CHAIN (item c) (chain_next c) t.

(** The body shared by [targetentry()] and [actionlist()]: a new node [c]
    for [x]; it becomes the chain when there is none, else the node after
    [chain->tail]; then [chain->tail = c] and [c->next = 0].  The fields
    [malloc] leaves undetermined are [None] until they are written. *)
Definition chain_append {T} (chain : option positive) (x : T)
    (h : gmap positive (CHAIN T)) : option (positive * gmap positive (CHAIN T)) :=
  let c := fresh (dom h) in
  let h := <[c := Build_CHAIN x None None]> h in
  '(chain, h) ← match chain with
                | None => Some (c, h)
                | Some hd =>
                    hv ← h !! hd;
                    tl ← chain_tail hv;
                    tv ← h !! tl;
                    Some (hd, <[tl := with_chain_next (Some c) tv]> h)
                end;
  hv ← h !! chain;
  let h := <[chain := with_chain_tail (Some c) hv]> h in
  cv ← h !! c;
  Some (chain, <[c := with_chain_next None cv]> h).

(** [targetentry()] *)
Definition targetentry (chain : option positive) (target : TARGET_p)
    (h : gmap positive (CHAIN string)) :=
  chain_append chain target h.

(** [actionlist()] *)
Definition actionlist (chain : option positive) (action : ACTION_p)
    (h : gmap positive (CHAIN positive)) :=
  chain_append chain action h.

(** [actionlist()] once for each action of a sequence, in order. *)
Fixpoint actionlist_each (chain : option positive) (acts : list positive)
    (h : gmap positive (CHAIN positive))
    : option (option positive * gmap positive (CHAIN positive)) :=
  match acts with
  | [] => Some (chain, h)
  | a :: rest =>
      '(c, h) ← actionlist chain a h;
      actionlist_each (Some c) rest h
  end.

(** The items of a chain, read from its head along [next]. *)
Fixpoint chain_items {T} (fuel : nat) (h : gmap positive (CHAIN T))
    (p : option positive) : option (list T) :=
  match p with
  | None => Some []
  | Some q =>
      match fuel with
      | O => None
      | S k => v ← h !! q; xs ← chain_items k h (chain_next v); Some (item v :: xs)
      end
  end.

(** The nodes [ps] starting at [p] carry the items [xs], in order, and
    end in a null [next]. *)
Fixpoint chain_seg {T} (h : gmap positive (CHAIN T)) (p : option positive)
    (ps : list positive) (xs : list T) : Prop :=
  match ps, xs with
  | [], [] => p = None
  | q :: ps', x :: xs' =>
      p = Some q ∧
      ∃ v, h !! q = Some v ∧ item v = x ∧ chain_seg h (chain_next v) ps' xs'
  | _, _ => False
  end.

(** A well-formed chain: distinct nodes, and the head's [tail] is the
    last of them. *)
Definition is_chain {T} (h : gmap positive (CHAIN T)) (p : option positive)
    (xs : list T) : Prop :=
  ∃ ps, NoDup ps ∧ chain_seg h p ps xs ∧
        ∀ hd v, p = Some hd → h !! hd = Some v → chain_tail v = last ps.

(** The target table and the TARGETS nodes. [targethash] is null until
    the first [bindtarget]. *)
Record targets_state := Build_targets_state {
  targethash : option (gmap string TARGET);
  targets_nodes : gmap positive (CHAIN string)
}.

(** [bindtarget()] *)
Definition bindtarget (targetname : string) (st : targets_state)
    : TARGET_p * targets_state :=
  let tbl := default ∅ (targethash st) in
  match tbl !! targetname with
  | Some _ => (targetname, Build_targets_state (Some tbl) (targets_nodes st))
  | None =>
      (targetname,
       Build_targets_state
         (Some (<[targetname := Build_TARGET targetname targetname 0]> tbl))
         (targets_nodes st))
  end.

(** [touchtarget()]; [touched] is [T_FLAG_TOUCHED] of rules.h. *)
Definition touchtarget (touched : Z) (t : string) (st : targets_state)
    : option targets_state :=
  let '(p, st) := bindtarget t st in
  tbl ← targethash st;
  v ← tbl !! p;
  Some (Build_targets_state
          (Some (<[p := Build_TARGET (target_name v) (boundname v)
                          (Z.lor (target_flags v) touched)]> tbl))
          (targets_nodes st)).

(** [targetlist()] *)
Fixpoint targetlist (chain : option positive) (targets : LIST)
    (st : targets_state) : option (option positive * targets_state) :=
  match targets with
  | [] => Some (chain, st)
  | s :: rest =>
      let '(t, st) := bindtarget s st in
      '(c, h) ← targetentry chain t (targets_nodes st);
      targetlist (Some c) rest (Build_targets_state (targethash st) h)
  end.

(** ** Settings *)

Record SETTINGS := Build_SETTINGS {
  symbol : string;
  value : LIST;
  next : option positive
}.

Definition with_value (v : LIST) (n : SETTINGS) : SETTINGS :=
  Build_SETTINGS (symbol n) v (next n).
Definition with_next (p : option positive) (n : SETTINGS) : SETTINGS :=
  Build_SETTINGS (symbol n) (value n) p.

(** The SETTINGS nodes, the pool [settings_freelist], the variable
    environment the settings are swapped with, and the values handed to
    [list_free], oldest first. *)
Record settings_state := Build_settings_state {
  settings_nodes : gmap positive SETTINGS;
  settings_freelist : option positive;
  variables : gmap string LIST;
  freed_lists : list LIST
}.

Definition set_settings_nodes (h : gmap positive SETTINGS) (st : settings_state) :=
  Build_settings_state h (settings_freelist st) (variables st) (freed_lists st).
Definition set_settings_freelist (f : option positive) (st : settings_state) :=
  Build_settings_state (settings_nodes st) f (variables st) (freed_lists st).
Definition set_variables (e : gmap string LIST) (st : settings_state) :=
  Build_settings_state (settings_nodes st) (settings_freelist st) e (freed_lists st).

(** [list_free( l )] *)
Definition list_free (l : LIST) (st : settings_state) : settings_state :=
  Build_settings_state (settings_nodes st) (settings_freelist st) (variables st)
    (freed_lists st ++ [l]).

(** [list_append( l, nl )] of lists.c: [nl] after [l]. *)
Definition list_append (l nl : LIST) : LIST := l ++ nl.

(** Modelled from the spec: variable.c is not part of the sources.  The
    environment gives every variable a value, the empty list when it was
    never set, and "swap(symbol, value) -> previous_value". *)
Definition var_get (sym : string) (e : gmap string LIST) : LIST :=
  default [] (e !! sym).

Definition var_swap (sym : string) (v : LIST) (e : gmap string LIST)
    : LIST * gmap string LIST :=
  (var_get sym e, <[sym := v]> e).

(** The scan [for( v = head; v; v = v->next ) if( !strcmp( v->symbol,
    symbol ) ) break;].  It gives up ([None]) when the fuel is out. *)
Fixpoint find_setting (fuel : nat) (h : gmap positive SETTINGS)
    (v : option positive) (sym : string) : option (option positive) :=
  match v with
  | None => Some None
  | Some p =>
      match fuel with
      | O => None
      | S k =>
          n ← h !! p;
          if decide (symbol n = sym) then Some (Some p)
          else find_setting k h (next n) sym
      end
  end.

(** [addsettings()].  A chain of distinct nodes is no longer than the
    number of nodes there are, which is the fuel of the scan. *)
Definition addsettings (head : option positive) (append : Z) (sym : string)
    (val : LIST) (st : settings_state) : option (option positive * settings_state) :=
  let h := settings_nodes st in
  v ← find_setting (size h) h head sym;
  match v with
  | None =>
      '(v, st) ← match settings_freelist st with
                 | Some f => n ← h !! f; Some (f, set_settings_freelist (next n) st)
                 | None => Some (fresh (dom h), st)
                 end;
      Some (Some v,
            set_settings_nodes (<[v := Build_SETTINGS sym val head]> (settings_nodes st)) st)
  | Some p =>
      n ← h !! p;
      if decide (append ≠ 0) then
        Some (head,
              set_settings_nodes (<[p := with_value (list_append (value n) val) n]> h) st)
      else
        let st := list_free (value n) st in
        Some (head, set_settings_nodes (<[p := with_value val n]> h) st)
  end.

(** [pushsettings()]: every node trades its value with the variable of
    its symbol. *)
Fixpoint pushsettings_from (fuel : nat) (v : option positive)
    (st : settings_state) : option settings_state :=
  match v with
  | None => Some st
  | Some p =>
      match fuel with
      | O => None
      | S k =>
          n ← settings_nodes st !! p;
          let '(old, e) := var_swap (symbol n) (value n) (variables st) in
          pushsettings_from k (next n)
            (set_variables e
               (set_settings_nodes (<[p := with_value old n]> (settings_nodes st)) st))
      end
  end.

Definition pushsettings (v : option positive) (st : settings_state)
    : option settings_state :=
  pushsettings_from (size (settings_nodes st)) v st.

(** [popsettings()]: just swap again. *)
Definition popsettings (v : option positive) (st : settings_state)
    : option settings_state :=
  pushsettings v st.

(** [freesettings()]: the values are freed and the nodes go to the pool.
    ([freestr] on the symbol concerns the string table of newstr.c.) *)
Fixpoint freesettings_from (fuel : nat) (v : option positive)
    (st : settings_state) : option settings_state :=
  match v with
  | None => Some st
  | Some p =>
      match fuel with
      | O => None
      | S k =>
          n ← settings_nodes st !! p;
          let st := list_free (value n) st in
          let st := set_settings_nodes
                      (<[p := with_next (settings_freelist st) n]> (settings_nodes st)) st in
          freesettings_from k (next n) (set_settings_freelist (Some p) st)
      end
  end.

Definition freesettings (v : option positive) (st : settings_state)
    : option settings_state :=
  freesettings_from (size (settings_nodes st)) v st.

(** The settings of a chain, read from its head. *)
Fixpoint settings_items (fuel : nat) (h : gmap positive SETTINGS)
    (p : option positive) : option (list (string * LIST)) :=
  match p with
  | None => Some []
  | Some q =>
      match fuel with
      | O => None
      | S k =>
          n ← h !! q;
          l ← settings_items k h (next n);
          Some ((symbol n, value n) :: l)
      end
  end.

(** The nodes [ps] starting at [p] hold the settings [l], in order. *)
Fixpoint settings_seg (h : gmap positive SETTINGS) (p : option positive)
    (ps : list positive) (l : list (string * LIST)) : Prop :=
  match ps, l with
  | [], [] => p = None
  | q :: ps', (s, v) :: l' =>
      p = Some q ∧
      ∃ n, h !! q = Some n ∧ symbol n = s ∧ value n = v ∧ settings_seg h (next n) ps' l'
  | _, _ => False
  end.

(** A well-formed settings list: distinct nodes. *)
Definition is_settings (h : gmap positive SETTINGS) (p : option positive)
    (ps : list positive) (l : list (string * LIST)) : Prop :=
  NoDup ps ∧ settings_seg h p ps l.

(** The nodes [fs] of the pool starting at [p], linked by [next]; what
    else they hold is left over from their last use. *)
Fixpoint pool_seg (h : gmap positive SETTINGS) (p : option positive)
    (fs : list positive) : Prop :=
  match fs with
  | [] => p = None
  | f :: fs' => p = Some f ∧ ∃ n, h !! f = Some n ∧ pool_seg h (next n) fs'
  end.

(** The loop of [donerules()]: [while ( settings_freelist )] the first node
    of the pool is given back to the allocator. *)
Fixpoint drain_freelist (fuel : nat) (st : settings_state)
    : option settings_state :=
  match settings_freelist st with
  | None => Some st
  | Some f =>
      match fuel with
      | O => None
      | S k =>
          n ← settings_nodes st !! f;
          drain_freelist k
            (set_settings_freelist (next n)
               (set_settings_nodes (delete f (settings_nodes st)) st))
      end
  end.

(** [donerules()].  [hashdone( targethash )] (hash.c) frees the target
    table and leaves [targethash] pointing at it: the table is taken and
    not given back, for nothing may use it afterwards.  The TARGETS nodes
    and the settings in use are not freed here. *)
Definition donerules (ts : targets_state) (st : settings_state)
    : option settings_state :=
  drain_freelist (size (settings_nodes st)) st.

(** ** The reference-count discipline *)

(** How many slots of the tables hold [a] in their field [f]. *)
Definition holders (f : RULE → option positive)
    (t : gmap (positive * string) RULE) (a : positive) : nat :=
  size (filter (λ kr, f kr.2 = Some a) t).

(** Every object that exists is counted at least as often as slots hold
    it, and no slot holds an object that does not exist. *)
Definition counted `{Counted T} (f : RULE → option positive)
    (t : gmap (positive * string) RULE) (h : gmap positive T) : Prop :=
  ∀ a, match h !! a with
       | Some o => Z.of_nat (holders f t a) ≤ count o
       | None => holders f t a = 0%nat
       end.

Definition refs_ok (st : rules_state) : Prop :=
  counted arguments (rule_tables st) (arglists st) ∧
  counted procedure (rule_tables st) (parses st) ∧
  counted actions (rule_tables st) (actionss st).

(** The discipline, as a check that computes: every object is counted
    at least as often as it is held, and what the slots hold exists. *)
Definition counted_check `{Counted T} (f : RULE → option positive)
    (t : gmap (positive * string) RULE) (h : gmap positive T) : bool :=
  bool_decide (map_Forall (λ a o, Z.of_nat (holders f t a) ≤ count o) h) &&
  bool_decide (map_Forall (λ _ v, f v = None ∨ is_Some (f v ≫= (h !!.))) t).

Definition refs_check (st : rules_state) : bool :=
  counted_check arguments (rule_tables st) (arglists st) &&
  counted_check procedure (rule_tables st) (parses st) &&
  counted_check actions (rule_tables st) (actionss st).

(** The object a caller passes in exists, and the caller has a reference
    of its own to it or no slot holds it yet (as for a new object, whose
    count is 0). *)
Definition callers `{Counted T} (f : RULE → option positive)
    (t : gmap (positive * string) RULE) (h : gmap positive T)
    (p : option positive) : Prop :=
  ∀ a, p = Some a →
       ∃ o, h !! a = Some o ∧
            (holders f t a = 0%nat ∨ Z.of_nat (holders f t a) < count o).

(** The object exists and its count can take [k] more references. *)
Definition room `{Counted T} (k : Z) (h : gmap positive T)
    (p : option positive) : Prop :=
  ∀ a, p = Some a → ∃ o, h !! a = Some o ∧ count o + k ≤ INT_MAX.

(** No object of [h'] is new or counted higher than in [h]. *)
Definition no_more `{Counted T} (h h' : gmap positive T) : Prop :=
  ∀ a o', h' !! a = Some o' → ∃ o, h !! a = Some o ∧ count o' ≤ count o.

(** [1] when the pointer is [b]. *)
Definition hit (p : option positive) (b : positive) : Z :=
  if decide (p = Some b) then 1 else 0.

(** What installing [new] over [old] does to the objects: refer, then
    free. *)
Definition install `{Counted T} (new old : option positive)
    (h : gmap positive T) : option (gmap positive T) :=
  h ← match new with Some a => obj_refer a h | None => Some h end;
  match old with Some b => obj_free b h | None => Some h end.

(** One reference to [old] is given up between [h] and [h']: its count
    is one less, or it is gone when that leaves zero or below; every other
    object is as it was. *)
Definition released `{Counted T} (old : option positive)
    (h h' : gmap positive T) : Prop :=
  ∀ b, h' !! b =
       o ← h !! b;
       if decide (old = Some b) then
         if decide (count o - 1 ≤ 0) then None
         else Some (with_count (count o - 1) o)
       else Some o.

(** The count of an object, when it exists. *)
Definition count_at `{Counted T} (h : gmap positive T) (a : positive) : option Z :=
  count <$> h !! a.

(** The settings [l] with the values their variables have in [e]. *)
Definition current (e : gmap string LIST) (l : list (string * LIST))
    : list (string * LIST) :=
  (λ sv, (sv.1, var_get sv.1 e)) <$> l.

(** The slot as [define_rule] leaves it. *)
Definition prepared (src : positive) (v : RULE) : RULE :=
  if decide (module v ≠ src) then Build_RULE None None None src (exported v)
  else v.

(** What [define_rule] gives up of a slot. *)
Definition given_up (src : positive) (f : RULE → option positive) (v : RULE)
    : option positive :=
  if decide (module v ≠ src) then f v else None.

(** The target table, an empty one when there is none yet. *)
Definition targets_of (st : targets_state) : gmap string TARGET :=
  default ∅ (targethash st).

(** ** Example data *)

Fixpoint replicate_char (n : nat) (c : ascii) : string :=
  match n with
  | O => EmptyString
  | S k => String c (replicate_char k c)
  end.

(** The root module is 1; module 2 is [M], 3 is [ab], 4 is [a], and 5 has
    a name of 4095 characters. *)
Definition ex_root : positive := 1%positive.
Definition ex_names (m : positive) : string :=
  match m with
  | 2 => "M"
  | 3 => "ab"
  | 4 => "a"
  | 5 => replicate_char (Z.to_nat 4095) "m"%char
  | _ => ""
  end%positive.

Definition empty_rules : rules_state := Build_rules_state ∅ ∅ ∅ ∅.

(** No rules yet; a new argument list and a procedure the parser owns. *)
Definition ex_fresh : rules_state :=
  Build_rules_state ∅
    {[1%positive := Build_argument_list 0 [["x"]]]}
    {[1%positive := Build_PARSE 1 None]}
    ∅.

(** The rule [R] of module [M] holds an argument list, a procedure and
    actions, each counted once for the slot (the procedure once more for
    the parser). *)
Definition ex_held : rules_state :=
  Build_rules_state
    {[(2%positive, "R") := Build_RULE (Some 1%positive) (Some 1%positive) (Some 1%positive) 2 0]}
    {[1%positive := Build_argument_list 1 [["x"]]]}
    {[1%positive := Build_PARSE 2 (Some "MR")]}
    {[1%positive := Build_rule_actions "cc" [] 0 1]}.

(** The rule [R] of module [M] and its mirror [MR] in the root module
    share one body. *)
Definition ex_exported : rules_state :=
  Build_rules_state
    (<[(1%positive, "MR") := Build_RULE (Some 1%positive) (Some 1%positive) None 2 0]>
       {[(2%positive, "R") := Build_RULE (Some 1%positive) (Some 1%positive) None 2 1]})
    {[1%positive := Build_argument_list 2 [["x"]]]}
    {[1%positive := Build_PARSE 3 (Some "MR")]}
    ∅.

(** The root module has a rule [R] with a procedure; module [M] has no
    rule. *)
Definition ex_root_rule : rules_state :=
  Build_rules_state
    {[(1%positive, "R") := Build_RULE (Some 1%positive) None None 1 0]}
    ∅
    {[1%positive := Build_PARSE 2 (Some "R")]}
    ∅.

(** The rule [r] of the module with the long name. *)
Definition ex_long : rules_state :=
  Build_rules_state
    {[(5%positive, "r") := Build_RULE None None None 5 0]} ∅ ∅ ∅.

(** Two settings, [X = 1] and [Y = 2], while [X] is [old] and [Y] is not
    set. *)
Definition ex_settings : settings_state :=
  Build_settings_state
    (<[1%positive := Build_SETTINGS "X" ["1"] (Some 2%positive)]>
       {[2%positive := Build_SETTINGS "Y" ["2"] None]})
    None
    {["X" := ["old"]]}
    [].
Definition empty_targets : targets_state := Build_targets_state None ∅.
Definition empty_settings : settings_state := Build_settings_state ∅ None ∅ [].

(** A pool of two nodes, 3 then 4, left over from settings that were
    freed, beside the list of [ex_settings]. *)
Definition ex_pooled : settings_state :=
  Build_settings_state
    (<[3%positive := Build_SETTINGS "Z" [] (Some 4%positive)]>
       (<[4%positive := Build_SETTINGS "W" [] None]> (settings_nodes ex_settings)))
    (Some 3%positive)
    (variables ex_settings)
    [].

(** Two chains of one node each, [a] at 1 and [b] at 2. *)
Definition ex_chains : gmap positive (CHAIN string) :=
  <[1%positive := Build_CHAIN "a" None (Some 1%positive)]>
    {[2%positive := Build_CHAIN "b" None (Some 2%positive)]}.

(** ** The operations that know the root module *)

Section Modules.

Set Default Proof Using "Type".

(** [root_module()] and [m->name], both from modules.c. *)
Variable root_module : positive.
Variable module_name : positive → string.

(** [global_rule_name()]: the name of the rule's mirror in the root
    module, built in a buffer of [NAME_SIZE] bytes. *)
Definition global_rule_name (r : RULE_p) (st : rules_state) : option string :=
  v ← rule_at r st;
  if decide (module v = root_module) then Some r.2
  else
    buf ← strncat NAME_SIZE "" (module_name (module v)) (NAME_SIZE - 1);
    buf ← strncat NAME_SIZE buf r.2 (NAME_SIZE - 1);
    Some buf.

(** [global_rule()] *)
Definition global_rule (r : RULE_p) (st : rules_state)
    : option (RULE_p * rules_state) :=
  v ← rule_at r st;
  if decide (module v = root_module) then Some (r, st)
  else
    gname ← global_rule_name r st;
    define_rule (module v) gname root_module st.

(** [new_rule_body()] *)
Definition new_rule_body (m : modptr) (rname : string)
    (args : option positive) (proc : option positive) (exp : Z)
    (st : rules_state) : option (RULE_p * rules_state) :=
  '(local, st) ← define_rule m rname m st;
  v ← rule_at local st;
  let st := write_rule local (with_exported exp v) st in
  st ← set_rule_body local args proc st;
  p ← proc;
  pv ← parses st !! p;
  st ← match rulename pv with
       | None =>
           gname ← global_rule_name local st;
           Some (set_parses (<[p := Build_PARSE (refs pv) (Some gname)]> (parses st)) st)
       | Some _ => Some st
       end;
  if decide (exp ≠ 0) then
    '(global, st) ← global_rule local st;
    st ← set_rule_body global args proc st;
    Some (local, st)
  else Some (local, st).

(** [new_rule_actions()] *)
Definition new_rule_actions (m : modptr) (rname : string) (cmd : string)
    (bl : LIST) (fl : Z) (st : rules_state)
    : option (RULE_p * rules_state) :=
  '(local, st) ← define_rule m rname m st;
  '(global, st) ← global_rule local st;
  let '(a, st) := actions_new cmd bl fl st in
  st ← set_rule_actions local (Some a) st;
  v ← rule_at local st;
  st ← set_rule_actions global (actions v) st;
  Some (local, st).

(** [bindrule()]: [hashcheck] looks the name up in [m->rules] without
    entering it. *)
Definition bindrule (rname : string) (m : modptr) (st : rules_state)
    : RULE_p * rules_state :=
  match rule_tables st !! (m, rname) with
  | Some _ => ((m, rname), st)
  | None => enter_rule rname root_module st
  end.

(** The slot the mirror of a rule is kept in: the rule's own in the root
    module. *)
Definition mirror_of (r : positive * string) (v : RULE) : positive * string :=
  if decide (module v = root_module) then r
  else (root_module, (module_name (module v) +:+ r.2)%string).

(** The name a procedure is stamped with. *)
Definition qualified (m : positive) (rname : string) : string :=
  if decide (m = root_module) then rname else (module_name m +:+ rname)%string.

(** * Properties *)

(** ** Strings *)

Lemma length_take_chars n s :
  String.length (take_chars n s) = (n `min` String.length s)%nat.
Proof.
  revert s. induction n as [|n IH]; intros [|c s]; simpl; try done.
  by rewrite IH.
Qed.

Lemma take_chars_all n s : (String.length s ≤ n)%nat → take_chars n s = s.
Proof.
  revert s. induction n as [|n IH]; intros [|c s]; simpl; try done; try lia.
  intros Hle. f_equal. apply IH. lia.
Qed.

Lemma length_string_app (a b : string) :
  String.length (a +:+ b) = (String.length a + String.length b)%nat.
Proof. induction a as [|c a IH]; simpl; [done|]. by rewrite IH. Qed.

Lemma strlen_app a b : strlen (a +:+ b) = strlen a + strlen b.
Proof. unfold strlen. rewrite length_string_app. lia. Qed.

Lemma strlen_take_chars n s : 0 ≤ n → strlen (take_chars (Z.to_nat n) s) = n `min` strlen s.
Proof. intros Hn. unfold strlen. rewrite length_take_chars. lia. Qed.

Lemma strlen_nonneg s : 0 ≤ strlen s.
Proof. unfold strlen. lia. Qed.

Lemma length_replicate_char n c : String.length (replicate_char n c) = n.
Proof. induction n as [|n IH]; simpl; [done|]. by rewrite IH. Qed.

(** [strncat] is defined exactly when what it appends fits. *)
Lemma strncat_Some cap dest src n :
  0 ≤ n → strlen dest + n `min` strlen src + 1 ≤ cap →
  strncat cap dest src n = Some (dest +:+ take_chars (Z.to_nat n) src).
Proof.
  intros Hn Hfit. unfold strncat.
  rewrite decide_True; [done|].
  rewrite strlen_app, strlen_take_chars by done. lia.
Qed.

Lemma strncat_None cap dest src n :
  0 ≤ n → cap < strlen dest + n `min` strlen src + 1 →
  strncat cap dest src n = None.
Proof.
  intros Hn Hfit. unfold strncat.
  rewrite decide_False; [done|].
  rewrite strlen_app, strlen_take_chars by done. lia.
Qed.

Lemma global_rule_name_root r v st :
  rule_at r st = Some v → module v = root_module →
  global_rule_name r st = Some r.2.
Proof.
  intros Hr Hm. unfold global_rule_name. rewrite Hr.
  cbn [mbind option_bind]. by rewrite decide_True.
Qed.

(** Both names together fit the buffer: the qualified name is the module's
    name followed by the rule's name. *)
Lemma global_rule_name_fits r v st :
  rule_at r st = Some v → module v ≠ root_module →
  strlen (module_name (module v)) + strlen r.2 < NAME_SIZE →
  global_rule_name r st = Some (module_name (module v) +:+ r.2).
Proof.
  intros Hr Hm Hfit. unfold global_rule_name. rewrite Hr.
  cbn [mbind option_bind]. rewrite decide_False by done.
  pose proof (strlen_nonneg (module_name (module v))).
  pose proof (strlen_nonneg r.2).
  assert (HN : NAME_SIZE = 4096) by done.
  rewrite strncat_Some by (change (strlen "") with 0; lia).
  cbn [mbind option_bind]. change ("" +:+ ?x)%string with x.
  rewrite take_chars_all by (unfold strlen in *; lia).
  rewrite strncat_Some by lia. cbn [mbind option_bind].
  by rewrite take_chars_all by (unfold strlen in *; lia).
Qed.

(** Two names that are both non-empty and do not fit together: the second
    [strncat] runs over the end of the buffer. *)
Lemma global_rule_name_overrun r v st :
  rule_at r st = Some v → module v ≠ root_module →
  0 < strlen (module_name (module v)) → 0 < strlen r.2 →
  NAME_SIZE ≤ strlen (module_name (module v)) + strlen r.2 →
  global_rule_name r st = None.
Proof.
  intros Hr Hm Hm0 Hn0 Hbig. unfold global_rule_name. rewrite Hr.
  cbn [mbind option_bind]. rewrite decide_False by done.
  assert (HN : NAME_SIZE = 4096) by done.
  rewrite strncat_Some by (change (strlen "") with 0; lia).
  cbn [mbind option_bind]. change ("" +:+ ?x)%string with x.
  rewrite strncat_None; [done|lia|].
  rewrite strlen_take_chars by lia. lia.
Qed.

(** ** Counting the holders of an object *)

Section Holders.
Variable f : RULE → option positive.
Implicit Types (t : gmap (positive * string) RULE) (r : positive * string).

Lemma holders_empty a : holders f ∅ a = 0%nat.
Proof. unfold holders. by rewrite map_filter_empty, map_size_empty. Qed.

Lemma holders_delete t r v a :
  t !! r = Some v →
  Z.of_nat (holders f t a) = Z.of_nat (holders f (delete r t) a) + hit (f v) a.
Proof.
  intros Hr. unfold holders, hit.
  rewrite map_filter_delete.
  destruct (decide (f v = Some a)) as [Hv|Hv].
  - rewrite map_size_delete_Some.
    + assert (size (filter (λ kr, f kr.2 = Some a) t) ≠ 0%nat); [|lia].
      intros H0. apply map_size_empty_inv in H0.
      assert (Hin : filter (λ kr, f kr.2 = Some a) t !! r = Some v)
        by by apply map_lookup_filter_Some.
      by rewrite H0, lookup_empty in Hin.
    + exists v. by apply map_lookup_filter_Some.
  - rewrite map_size_delete_None; [lia|].
    apply map_lookup_filter_None. right. intros v' Hv'. simpl. congruence.
Qed.

Lemma holders_insert_new t r v a :
  t !! r = None →
  Z.of_nat (holders f (<[r := v]> t) a) = Z.of_nat (holders f t a) + hit (f v) a.
Proof.
  intros Hr. unfold holders, hit.
  destruct (decide (f v = Some a)) as [Hv|Hv].
  - rewrite map_filter_insert_True by done.
    rewrite map_size_insert_None; [lia|].
    apply map_lookup_filter_None. by left.
  - rewrite map_filter_insert_False by done.
    rewrite delete_id by done. lia.
Qed.

Lemma holders_insert t r v v' a :
  t !! r = Some v →
  Z.of_nat (holders f (<[r := v']> t) a)
  = Z.of_nat (holders f t a) - hit (f v) a + hit (f v') a.
Proof.
  intros Hr. rewrite <-insert_delete_eq.
  rewrite holders_insert_new by apply lookup_delete_eq.
  rewrite (holders_delete t r v a Hr). lia.
Qed.

Lemma holders_same t r v v' a :
  t !! r = Some v → f v' = f v →
  holders f (<[r := v']> t) a = holders f t a.
Proof.
  intros Hr Hf. apply Nat2Z.inj. rewrite (holders_insert t r v v' a Hr), Hf. lia.
Qed.

Lemma holders_held t r v a :
  t !! r = Some v → f v = Some a → (1 ≤ holders f t a)%nat.
Proof.
  intros Hr Hv. pose proof (holders_delete t r v a Hr) as H.
  unfold hit in H. rewrite decide_True in H by done. lia.
Qed.

Lemma holders_held_twice t r1 r2 v1 v2 a :
  r1 ≠ r2 → t !! r1 = Some v1 → t !! r2 = Some v2 →
  f v1 = Some a → f v2 = Some a → (2 ≤ holders f t a)%nat.
Proof.
  intros Hne H1 H2 Hv1 Hv2.
  pose proof (holders_delete t r1 v1 a H1) as Ha.
  assert (H2' : delete r1 t !! r2 = Some v2) by by rewrite lookup_delete_ne.
  pose proof (holders_delete _ r2 v2 a H2') as Hb.
  unfold hit in *. rewrite decide_True in Ha by done.
  rewrite decide_True in Hb by done. lia.
Qed.

End Holders.

(** ** Refer, free, install *)

Section Install.
Context `{Counted T}.
Implicit Types (h : gmap positive T) (a b : positive).

Lemma hit_Some a b : hit (Some a) b = if decide (a = b) then 1 else 0.
Proof. unfold hit. repeat case_decide; congruence. Qed.

Lemma hit_None b : hit None b = 0.
Proof. done. Qed.

Lemma hit_range p b : 0 ≤ hit p b ≤ 1.
Proof. unfold hit. case_decide; lia. Qed.

Lemma obj_refer_lookup a h h' b :
  obj_refer a h = Some h' →
  h' !! b = (λ o, with_count (count o + hit (Some a) b) o) <$> h !! b.
Proof.
  unfold obj_refer. destruct (h !! a) as [o|] eqn:Ha; [|done].
  cbn [mbind option_bind]. case_decide; [|done].
  intros [= <-]. rewrite hit_Some.
  destruct (decide (a = b)) as [->|Hne].
  - by rewrite lookup_insert_eq, Ha.
  - rewrite lookup_insert_ne by done.
    destruct (h !! b) as [o'|]; [|done]. simpl.
    by rewrite Z.add_0_r, with_count_count.
Qed.

Lemma obj_free_lookup a h h' b :
  obj_free a h = Some h' →
  h' !! b = o ← h !! b;
            if decide (a = b ∧ count o - 1 ≤ 0) then None
            else Some (with_count (count o - hit (Some a) b) o).
Proof.
  unfold obj_free. destruct (h !! a) as [o|] eqn:Ha; [|done].
  cbn [mbind option_bind]. rewrite hit_Some. case_decide; [|done]. cbv zeta.
  destruct (decide (count o - 1 ≤ 0)) as [Hc|Hc]; intros [= <-].
  - destruct (decide (a = b)) as [->|Hne].
    + rewrite lookup_delete_eq, Ha. simpl. by rewrite decide_True.
    + rewrite lookup_delete_ne by done.
      destruct (h !! b) as [o'|]; [|done]. simpl.
      rewrite decide_False by (intros [? ?]; congruence || lia).
      by rewrite Z.sub_0_r, with_count_count.
  - destruct (decide (a = b)) as [->|Hne].
    + rewrite lookup_insert_eq, Ha. simpl. rewrite decide_False by (intros [? ?]; congruence || lia). done.
    + rewrite lookup_insert_ne by done.
      destruct (h !! b) as [o'|]; [|done]. simpl.
      rewrite decide_False by (intros [? ?]; congruence || lia).
      by rewrite Z.sub_0_r, with_count_count.
Qed.

Lemma obj_refer_Some a h o :
  h !! a = Some o → count o < INT_MAX → is_Some (obj_refer a h).
Proof.
  intros Ho Hc. unfold obj_refer. rewrite Ho. cbn [mbind option_bind].
  rewrite decide_True by done. eauto.
Qed.

Lemma obj_free_Some a h o :
  h !! a = Some o → INT_MIN < count o → is_Some (obj_free a h).
Proof.
  intros Ho Hc. unfold obj_free. rewrite Ho. cbn [mbind option_bind].
  rewrite decide_True by done. cbv zeta. case_decide; eauto.
Qed.

Lemma room_weaken k k' h p : k' ≤ k → room k h p → room k' h p.
Proof.
  intros Hk Hp a Ha. destruct (Hp a Ha) as (o & Ho & Hc).
  exists o. split; [done|lia].
Qed.

Lemma room_None k h : room k h None.
Proof. by intros a. Qed.

(** Installing succeeds when the new object exists with room for one
    more reference and the old one exists and is counted. *)
Lemma install_Some new old h :
  room 1 h new →
  (∀ b, old = Some b → ∃ o, h !! b = Some o ∧ 1 ≤ count o) →
  is_Some (install new old h).
Proof.
  intros Hnew Hold. unfold install.
  destruct new as [a|].
  - destruct (Hnew a eq_refl) as (oa & Hoa & Hca).
    destruct (obj_refer_Some a h oa Hoa) as [h1 Hh1]; [lia|].
    rewrite Hh1. cbn [mbind option_bind]. destruct old as [b|]; [|eauto].
    destruct (Hold b eq_refl) as (o & Ho & Hc).
    eapply obj_free_Some.
    + rewrite (obj_refer_lookup _ _ _ _ Hh1), Ho. done.
    + rewrite count_with_count. pose proof (hit_range (Some a) b).
      unfold INT_MIN. lia.
  - cbn [mbind option_bind]. destruct old as [b|]; [|eauto].
    destruct (Hold b eq_refl) as (o & Ho & Hc).
    eapply obj_free_Some; [done|]. unfold INT_MIN. lia.
Qed.

(** What installing does to each object: its count moves by the
    difference of new and old, and the old object goes when this leaves
    it at zero or below. *)
Lemma install_lookup new old h h' b :
  install new old h = Some h' →
  h' !! b = o ← h !! b;
            let c := count o + hit new b - hit old b in
            if decide (old = Some b ∧ c ≤ 0) then None
            else Some (with_count c o).
Proof.
  unfold install. intros Hi.
  destruct (match new with Some a => obj_refer a h | None => Some h end)
    as [h1|] eqn:Hh1; [|done].
  cbn [mbind option_bind] in Hi.
  assert (H1 : h1 !! b = (λ o, with_count (count o + hit new b) o) <$> h !! b).
  { destruct new as [a|].
    - by apply obj_refer_lookup.
    - injection Hh1 as <-. destruct (h !! b) as [o|]; [|done]. simpl.
      by rewrite hit_None, Z.add_0_r, with_count_count. }
  destruct old as [a|].
  - rewrite (obj_free_lookup _ _ _ _ Hi), H1.
    destruct (h !! b) as [o|]; [|done]. simpl.
    rewrite count_with_count, with_count_twice, hit_Some.
    destruct (decide (a = b)) as [->|Hne].
    + destruct (decide (count o + hit new b - 1 ≤ 0)).
      * rewrite !decide_True; [done|split; congruence || lia ..].
      * rewrite !decide_False; [done|intros [? ?]; congruence || lia ..].
    + rewrite !decide_False; [|intros [? ?]; congruence || lia ..].
      by rewrite Z.sub_0_r.
  - injection Hi as <-. rewrite H1.
    destruct (h !! b) as [o|]; [|done]. simpl.
    by rewrite hit_None, Z.sub_0_r.
Qed.

(** An installation adds at most the new reference to a count. *)
Lemma install_at_most new old h h' a o' :
  install new old h = Some h' → h' !! a = Some o' →
  ∃ o, h !! a = Some o ∧ count o' ≤ count o + hit new a.
Proof.
  intros Hi Ha. rewrite (install_lookup _ _ _ _ a Hi) in Ha.
  destruct (h !! a) as [o|]; [|done]. cbn [mbind option_bind] in Ha.
  cbv zeta in Ha. case_decide; [done|]. injection Ha as <-.
  exists o. split; [done|]. rewrite count_with_count.
  pose proof (hit_range old a). lia.
Qed.

(** After an installation an object has room for one reference less. *)
Lemma room_install new old h h' k p :
  install new old h = Some h' → room (k + 1) h p →
  (∀ a, p = Some a → is_Some (h' !! a)) →
  room k h' p.
Proof.
  intros Hi Hp Hlive a Ha. destruct (Hlive a Ha) as [o' Ho'].
  destruct (install_at_most _ _ _ _ _ _ Hi Ho') as (o & Ho & Hc).
  destruct (Hp a Ha) as (o0 & Ho0 & Hc0).
  exists o'. split; [done|]. assert (o0 = o) as -> by congruence.
  pose proof (hit_range new a). lia.
Qed.

Lemma install_None_no_more old h h' :
  install None old h = Some h' → no_more h h'.
Proof.
  intros Hi a o' Ha. destruct (install_at_most _ _ _ _ _ _ Hi Ha) as (o & Ho & Hc).
  exists o. split; [done|]. by rewrite hit_None, Z.add_0_r in Hc.
Qed.

Lemma no_more_refl h : no_more h h.
Proof. intros a o Ho. exists o. split; [done|lia]. Qed.

Lemma room_no_more k h h' p :
  no_more h h' → room k h p → (∀ a, p = Some a → is_Some (h' !! a)) →
  room k h' p.
Proof.
  intros Hle Hp Hlive a Ha. destruct (Hlive a Ha) as [o' Ho'].
  destruct (Hle a o' Ho') as (o & Ho & Hc).
  destruct (Hp a Ha) as (o0 & Ho0 & Hc0).
  exists o'. split; [done|]. assert (o0 = o) as -> by congruence. lia.
Qed.

(** The discipline survives an installation into a slot, whatever else
    the new record differs in. *)
Lemma install_counted (f : RULE → option positive) (t : gmap (positive * string) RULE) r v v' h h' :
  counted f t h → t !! r = Some v →
  install (f v') (f v) h = Some h' →
  counted f (<[r := v']> t) h'.
Proof.
  intros Hc Hr Hi a. specialize (Hc a).
  rewrite (install_lookup _ _ _ _ a Hi).
  pose proof (holders_insert f t r v v' a Hr) as Hh.
  pose proof (hit_range (f v) a). pose proof (hit_range (f v') a).
  destruct (h !! a) as [o|] eqn:Ha; simpl.
  - case_decide as Hd.
    + lia.
    + rewrite count_with_count. lia.
  - assert (hit (f v) a = 0).
    { unfold hit. case_decide as Hv; [|done].
      pose proof (holders_held f t r v a Hr Hv). lia. }
    assert (hit (f v') a = 0).
    { unfold hit. case_decide as Hv; [|done]. exfalso.
      unfold install in Hi. rewrite Hv in Hi. unfold obj_refer in Hi.
      by rewrite Ha in Hi. }
    lia.
Qed.

(** An unrelated field of a record may change freely. *)
Lemma counted_same (f : RULE → option positive) (t : gmap (positive * string) RULE) r v v' h :
  counted f t h → t !! r = Some v → f v' = f v → counted f (<[r := v']> t) h.
Proof.
  intros Hc Hr Hf a. specialize (Hc a).
  by rewrite (holders_same f t r v v' a Hr Hf).
Qed.

Lemma counted_new_rule (f : RULE → option positive) (t : gmap (positive * string) RULE) r v h :
  counted f t h → t !! r = None → f v = None → counted f (<[r := v]> t) h.
Proof.
  intros Hc Hr Hf a. specialize (Hc a).
  pose proof (holders_insert_new f t r v a Hr) as Hh.
  rewrite Hf, hit_None in Hh.
  assert (holders f (<[r:=v]> t) a = holders f t a) as -> by lia. done.
Qed.

End Install.

(** ** Rule bodies and actions *)

(** Unfold the writes to the state and project. *)
Ltac st_simpl :=
  unfold write_rule, set_rule_tables, set_arglists, set_parses, set_actionss,
    rule_at in *;
  cbn [rule_tables arglists parses actionss mbind option_bind when_set
       procedure arguments actions module exported
       with_procedure with_arguments with_actions with_module with_exported] in *.

Ltac case_refer :=
  match goal with |- context [obj_refer ?a ?h] => destruct (obj_refer a h) end.
Ltac case_free :=
  match goal with |- context [obj_free ?a ?h] => destruct (obj_free a h) end.

(** [set_rule_body] is two installations and a write of both fields. *)
Lemma set_rule_body_eq r v args proc st :
  rule_at r st = Some v →
  set_rule_body r args proc st =
    ha ← install args (arguments v) (arglists st);
    hp ← install proc (procedure v) (parses st);
    Some (Build_rules_state
            (<[r := with_procedure proc (with_arguments args v)]> (rule_tables st))
            ha hp (actionss st)).
Proof.
  intros Hr. unfold set_rule_body, install.
  unfold args_refer, args_free, parse_refer, parse_free.
  destruct st as [t ha hp hx]. st_simpl.
  destruct args as [a|]; st_simpl.
  all: try case_refer; st_simpl; [|done..].
  all: rewrite Hr; st_simpl.
  all: destruct (arguments v) as [b|]; st_simpl.
  all: try case_free; st_simpl; [|done..].
  all: destruct proc as [p|]; st_simpl.
  all: try case_refer; st_simpl; [|done..].
  all: rewrite ?lookup_insert_eq; st_simpl.
  all: destruct (procedure v) as [q|]; st_simpl.
  all: try case_free; st_simpl; [|done..].
  all: rewrite ?lookup_insert_eq; st_simpl; by rewrite insert_insert_eq.
Qed.

(** [set_rule_actions] is one installation and a write of the field. *)
Lemma set_rule_actions_eq r v acts st :
  rule_at r st = Some v →
  set_rule_actions r acts st =
    hx ← install acts (actions v) (actionss st);
    Some (Build_rules_state (<[r := with_actions acts v]> (rule_tables st))
            (arglists st) (parses st) hx).
Proof.
  intros Hr. unfold set_rule_actions, install.
  unfold actions_refer, actions_free.
  destruct st as [t ha hp hx]. st_simpl.
  destruct acts as [a|]; st_simpl.
  all: try case_refer; st_simpl; [|done..].
  all: rewrite Hr; st_simpl.
  all: destruct (actions v) as [b|]; st_simpl.
  all: try case_free; st_simpl; [|done..].
  all: by rewrite ?Hr.
Qed.

Section Discipline.
Context `{Counted T}.
Implicit Types (h : gmap positive T) (t : gmap (positive * string) RULE).
Implicit Types (f : RULE → option positive).

(** An object a slot holds exists and is counted. *)
Lemma counted_held f t h r v a :
  counted f t h → t !! r = Some v → f v = Some a →
  ∃ o, h !! a = Some o ∧ 1 ≤ count o.
Proof.
  intros Hc Hr Hv. specialize (Hc a).
  pose proof (holders_held f t r v a Hr Hv).
  destruct (h !! a) as [o|]; [|lia]. exists o. split; [done|lia].
Qed.

Lemma counted_update f t h a o o' :
  counted f t h → h !! a = Some o → count o' = count o →
  counted f t (<[a := o']> h).
Proof.
  intros Hc Ha Ho b. specialize (Hc b).
  destruct (decide (a = b)) as [->|Hne].
  - rewrite lookup_insert_eq. rewrite Ha in Hc. by rewrite Ho.
  - by rewrite lookup_insert_ne.
Qed.

Lemma counted_alloc f t h a o :
  counted f t h → h !! a = None → 0 ≤ count o → counted f t (<[a := o]> h).
Proof.
  intros Hc Ha Ho b. specialize (Hc b).
  destruct (decide (a = b)) as [->|Hne].
  - rewrite lookup_insert_eq. rewrite Ha in Hc. lia.
  - by rewrite lookup_insert_ne.
Qed.

Lemma callers_live f t h p a :
  callers f t h p → p = Some a → is_Some (h !! a).
Proof. intros Hp ->. destruct (Hp a eq_refl) as (o & -> & _). eauto. Qed.

(** Clearing a slot leaves the caller's object in place. *)
Lemma callers_clear f t h h' r v v' p :
  callers f t h p → t !! r = Some v → f v' = None →
  install None (f v) h = Some h' →
  callers f (<[r := v']> t) h' p.
Proof.
  intros Hp Hr Hv' Hi a ->. destruct (Hp a eq_refl) as (o & Ho & Hown).
  pose proof (holders_insert f t r v v' a Hr) as Hh.
  rewrite Hv', hit_None in Hh.
  rewrite (install_lookup _ _ _ _ a Hi), Ho. cbn [mbind option_bind].
  rewrite hit_None.
  unfold hit in *. destruct (decide (f v = Some a)) as [Hv|Hv].
  - pose proof (holders_held f t r v a Hr Hv).
    rewrite decide_False by (intros [? ?]; lia).
    eexists. split; [done|]. rewrite count_with_count. lia.
  - rewrite decide_False by (by intros [? ?]).
    eexists. split; [done|]. rewrite count_with_count. lia.
Qed.

Lemma callers_same f t h r v v' p :
  callers f t h p → t !! r = Some v → f v' = f v →
  callers f (<[r := v']> t) h p.
Proof.
  intros Hp Hr Hf a Ha. destruct (Hp a Ha) as (o & Ho & Hown).
  exists o. by rewrite (holders_same f t r v v' a Hr Hf).
Qed.

Lemma callers_new_rule f t h r v p :
  callers f t h p → t !! r = None → f v = None →
  callers f (<[r := v]> t) h p.
Proof.
  intros Hp Hr Hf a Ha. destruct (Hp a Ha) as (o & Ho & Hown).
  exists o. pose proof (holders_insert_new f t r v a Hr) as Hh.
  rewrite Hf, hit_None in Hh.
  assert (holders f (<[r:=v]> t) a = holders f t a) as -> by lia. done.
Qed.

(** An object no slot holds is the caller's. *)
Lemma callers_None f t h : callers f t h None.
Proof. by intros a. Qed.

End Discipline.

(** ** The operations keep the discipline *)

Lemma set_rule_body_ok r v args proc st :
  refs_ok st → rule_at r st = Some v →
  room 1 (arglists st) args → room 1 (parses st) proc →
  ∃ st', set_rule_body r args proc st = Some st' ∧ refs_ok st' ∧
    rule_tables st' = <[r := with_procedure proc (with_arguments args v)]> (rule_tables st) ∧
    install args (arguments v) (arglists st) = Some (arglists st') ∧
    install proc (procedure v) (parses st) = Some (parses st') ∧
    actionss st' = actionss st.
Proof.
  intros (Ha & Hp & Hx) Hr Hargs Hproc.
  rewrite (set_rule_body_eq r v) by done.
  destruct (install_Some args (arguments v) (arglists st)) as [ha Hha]; [done| |].
  { intros b Hb. by apply (counted_held _ _ _ r v b Ha Hr). }
  destruct (install_Some proc (procedure v) (parses st)) as [hp Hhp]; [done| |].
  { intros b Hb. by apply (counted_held _ _ _ r v b Hp Hr). }
  rewrite Hha, Hhp. cbn [mbind option_bind]. eexists. split; [done|].
  split; [|done]. repeat split; cbn [rule_tables arglists parses actionss].
  - by eapply (install_counted arguments).
  - by eapply (install_counted procedure).
  - by eapply (counted_same actions).
Qed.

Lemma set_rule_actions_ok r v acts st :
  refs_ok st → rule_at r st = Some v →
  room 1 (actionss st) acts →
  ∃ st', set_rule_actions r acts st = Some st' ∧ refs_ok st' ∧
    rule_tables st' = <[r := with_actions acts v]> (rule_tables st) ∧
    arglists st' = arglists st ∧ parses st' = parses st ∧
    install acts (actions v) (actionss st) = Some (actionss st').
Proof.
  intros (Ha & Hp & Hx) Hr Hacts.
  rewrite (set_rule_actions_eq r v) by done.
  destruct (install_Some acts (actions v) (actionss st)) as [hx Hhx]; [done| |].
  { intros b Hb. by apply (counted_held _ _ _ r v b Hx Hr). }
  rewrite Hhx. cbn [mbind option_bind]. eexists. split; [done|].
  split; [|done]. repeat split; cbn [rule_tables arglists parses actionss].
  - by eapply (counted_same arguments).
  - by eapply (counted_same procedure).
  - by eapply (install_counted actions).
Qed.

(** [enter_rule] returns the slot of the name, which exists afterwards. *)
Lemma enter_rule_eq n tgt st :
  enter_rule n tgt st =
    ((tgt, n),
     Build_rules_state (<[(tgt, n) := entered n tgt st]> (rule_tables st))
       (arglists st) (parses st) (actionss st)).
Proof.
  unfold enter_rule, entered.
  destruct (rule_tables st !! (tgt, n)) as [v|] eqn:Hv; cbn [default].
  - rewrite insert_id by done. by destruct st.
  - done.
Qed.

Lemma enter_rule_ok n tgt st :
  refs_ok st → refs_ok (enter_rule n tgt st).2.
Proof.
  intros (Ha & Hp & Hx). unfold enter_rule.
  destruct (rule_tables st !! (tgt, n)) as [v|] eqn:Hv; [done|].
  repeat split; cbn; by apply counted_new_rule.
Qed.

(** [define_rule] in one piece. *)
Lemma define_rule_eq src n tgt st :
  define_rule src n tgt st =
    let st1 := (enter_rule n tgt st).2 in
    let v := entered n tgt st in
    if decide (module v ≠ src) then
      ha ← install None (arguments v) (arglists st1);
      hp ← install None (procedure v) (parses st1);
      hx ← install None (actions v) (actionss st1);
      Some ((tgt, n),
            Build_rules_state
              (<[(tgt, n) := Build_RULE None None None src (exported v)]> (rule_tables st1))
              ha hp hx)
    else Some ((tgt, n), st1).
Proof.
  unfold define_rule. rewrite enter_rule_eq. cbn zeta. cbn [snd].
  set (st1 := Build_rules_state _ _ _ _).
  assert (Hr : rule_at (tgt, n) st1 = Some (entered n tgt st))
    by apply lookup_insert_eq.
  rewrite Hr. cbn [mbind option_bind].
  case_decide as Hm; [|done].
  rewrite (set_rule_body_eq _ _ _ _ _ Hr).
  destruct (install None (arguments _) (arglists st1)) as [ha|]; [|done].
  cbn [mbind option_bind].
  destruct (install None (procedure _) (parses st1)) as [hp|]; [|done].
  cbn [mbind option_bind].
  erewrite set_rule_actions_eq; [|apply lookup_insert_eq].
  cbn [actionss actions with_procedure with_arguments].
  destruct (install None (actions _) (actionss st1)) as [hx|]; [|done].
  cbn [mbind option_bind]. unfold rule_at, write_rule, set_rule_tables.
  cbn [rule_tables arglists parses actionss].
  rewrite lookup_insert_eq. cbn [mbind option_bind].
  by rewrite !insert_insert_eq.
Qed.

Lemma entered_lookup n tgt st :
  rule_tables (enter_rule n tgt st).2 !! (tgt, n) = Some (entered n tgt st).
Proof. rewrite enter_rule_eq. apply lookup_insert_eq. Qed.

Lemma enter_rule_other n tgt st r :
  r ≠ (tgt, n) → rule_tables (enter_rule n tgt st).2 !! r = rule_tables st !! r.
Proof. intros Hne. rewrite enter_rule_eq. cbn. by rewrite lookup_insert_ne. Qed.

Lemma enter_rule_callers `{Counted T} (f : RULE → option positive)
    (h : gmap positive T) n tgt st p :
  f (Build_RULE None None None tgt 0) = None →
  callers f (rule_tables st) h p →
  callers f (rule_tables (enter_rule n tgt st).2) h p.
Proof.
  intros Hf Hp. unfold enter_rule.
  destruct (rule_tables st !! (tgt, n)) as [v|] eqn:Hv; [done|].
  cbn. by apply callers_new_rule.
Qed.

(** [define_rule] never fails on a state that keeps the discipline, keeps
    it, leaves the other slots alone, and does not take away an object of
    the caller. *)
Lemma define_rule_ok src n tgt st :
  refs_ok st →
  ∃ st' v',
    define_rule src n tgt st = Some ((tgt, n), st') ∧ refs_ok st' ∧
    rule_at (tgt, n) st' = Some v' ∧ module v' = src ∧
    (∀ r, r ≠ (tgt, n) → rule_at r st' = rule_at r st) ∧
    (∀ p, callers arguments (rule_tables st) (arglists st) p →
          callers arguments (rule_tables st') (arglists st') p) ∧
    (∀ p, callers procedure (rule_tables st) (parses st) p →
          callers procedure (rule_tables st') (parses st') p) ∧
    (∀ p, callers actions (rule_tables st) (actionss st) p →
          callers actions (rule_tables st') (actionss st') p) ∧
    no_more (arglists st) (arglists st') ∧
    no_more (parses st) (parses st') ∧
    no_more (actionss st) (actionss st').
Proof.
  intros Hok. rewrite define_rule_eq. cbn zeta.
  pose proof (enter_rule_ok n tgt st Hok) as (Ha & Hp & Hx).
  pose proof (entered_lookup n tgt st) as Hr.
  pose proof (enter_rule_other n tgt st) as Hother.
  pose proof (λ p, enter_rule_callers arguments (arglists st) n tgt st p eq_refl) as Ca.
  pose proof (λ p, enter_rule_callers procedure (parses st) n tgt st p eq_refl) as Cp.
  pose proof (λ p, enter_rule_callers actions (actionss st) n tgt st p eq_refl) as Cx.
  assert (He : arglists (enter_rule n tgt st).2 = arglists st ∧
               parses (enter_rule n tgt st).2 = parses st ∧
               actionss (enter_rule n tgt st).2 = actionss st)
    by by rewrite enter_rule_eq.
  destruct He as (Ea & Ep & Ex).
  set (st1 := (enter_rule n tgt st).2) in *.
  set (v := entered n tgt st) in *.
  case_decide as Hm.
  - destruct (install_Some None (arguments v) (arglists st1)) as [ha Hha];
      [apply room_None| |].
    { intros b Hb. by apply (counted_held _ _ _ _ v b Ha Hr). }
    destruct (install_Some None (procedure v) (parses st1)) as [hp Hhp];
      [apply room_None| |].
    { intros b Hb. by apply (counted_held _ _ _ _ v b Hp Hr). }
    destruct (install_Some None (actions v) (actionss st1)) as [hx Hhx];
      [apply room_None| |].
    { intros b Hb. by apply (counted_held _ _ _ _ v b Hx Hr). }
    rewrite Hha, Hhp, Hhx. cbn [mbind option_bind].
    eexists _, _. split; [done|].
    unfold rule_at. cbn [rule_tables arglists parses actionss].
    split; [|split; [apply lookup_insert_eq|split; [done|]]].
    { repeat split; cbn [rule_tables arglists parses actionss].
      - by eapply (install_counted arguments).
      - by eapply (install_counted procedure).
      - by eapply (install_counted actions). }
    split; [|split; [|split; [|split; [|split; [|split]]]]].
    + intros r Hne. rewrite lookup_insert_ne by done. by apply Hother.
    + intros p Hc. eapply (callers_clear arguments); [|done..].
      rewrite Ea. by apply Ca.
    + intros p Hc. eapply (callers_clear procedure); [|done..].
      rewrite Ep. by apply Cp.
    + intros p Hc. eapply (callers_clear actions); [|done..].
      rewrite Ex. by apply Cx.
    + rewrite <-Ea. by eapply install_None_no_more.
    + rewrite <-Ep. by eapply install_None_no_more.
    + rewrite <-Ex. by eapply install_None_no_more.
  - exists st1, v. split; [done|]. split; [done|]. split; [done|].
    split; [by destruct (decide (module v = src)) as [?|?]; [|exfalso; auto]|].
    split; [done|]. rewrite Ea, Ep, Ex.
    repeat split; auto using no_more_refl.
Qed.

Lemma install_None_released `{Counted T} old (h h' : gmap positive T) :
  install None old h = Some h' → released old h h'.
Proof.
  intros Hi b. rewrite (install_lookup _ _ _ _ b Hi).
  destruct (h !! b) as [o|]; [|done]. cbn [mbind option_bind].
  rewrite hit_None. unfold hit.
  destruct (decide (old = Some b)) as [Ho|Ho].
  - destruct (decide (count o - 1 ≤ 0)).
    + rewrite decide_True; [done|]. split; [done|lia].
    + rewrite decide_False by (intros [? ?]; lia).
      do 2 f_equal. lia.
  - rewrite decide_False by (by intros [? ?]).
    rewrite Z.add_0_r, Z.sub_0_r. by rewrite with_count_count.
Qed.

Lemma refs_ok_empty : refs_ok empty_rules.
Proof.
  repeat split; intros a; cbn; rewrite lookup_empty; apply holders_empty.
Qed.

(** What [define_rule] does to a slot another module owns. *)
Lemma define_rule_foreign src n tgt st :
  refs_ok st → module (entered n tgt st) ≠ src →
  ∃ st',
    define_rule src n tgt st = Some ((tgt, n), st') ∧
    rule_at (tgt, n) st'
      = Some (Build_RULE None None None src (exported (entered n tgt st))) ∧
    released (arguments (entered n tgt st)) (arglists st) (arglists st') ∧
    released (procedure (entered n tgt st)) (parses st) (parses st') ∧
    released (actions (entered n tgt st)) (actionss st) (actionss st') ∧
    ∀ r, r ≠ (tgt, n) → rule_at r st' = rule_at r st.
Proof.
  intros Hok Hm.
  destruct (define_rule_ok src n tgt st Hok)
    as (st' & v' & Hdef & _ & _ & _ & Hother & _).
  exists st'. split; [done|]. split; [|split; [|split; [|split; [|done]]]].
  all: rewrite define_rule_eq in Hdef; cbn zeta in Hdef.
  all: rewrite decide_True in Hdef by done.
  all: rewrite enter_rule_eq in Hdef; cbn [snd arglists parses actionss rule_tables] in Hdef.
  all: destruct (install None (arguments _) (arglists st)) as [ha|] eqn:Hha; [|done].
  all: destruct (install None (procedure _) (parses st)) as [hp|] eqn:Hhp; [|done].
  all: destruct (install None (actions _) (actionss st)) as [hx|] eqn:Hhx; [|done].
  all: cbn [mbind option_bind] in Hdef; injection Hdef as <-.
  - apply lookup_insert_eq.
  - by apply install_None_released.
  - by apply install_None_released.
  - by apply install_None_released.
Qed.

(** What [define_rule] does to a slot [src_module] owns: nothing more
    than [enter_rule]. *)
Lemma define_rule_own src n tgt st :
  module (entered n tgt st) = src →
  define_rule src n tgt st = Some (enter_rule n tgt st).
Proof.
  intros Hm. rewrite define_rule_eq. cbn zeta.
  rewrite decide_False by auto. by rewrite enter_rule_eq.
Qed.

Lemma enter_rule_present n tgt st v :
  rule_at (tgt, n) st = Some v → enter_rule n tgt st = ((tgt, n), st).
Proof. unfold enter_rule, rule_at. by intros ->. Qed.

Lemma entered_present n tgt st v :
  rule_at (tgt, n) st = Some v → entered n tgt st = v.
Proof. unfold entered, rule_at. by intros ->. Qed.

Lemma entered_absent n tgt st :
  rule_at (tgt, n) st = None → entered n tgt st = Build_RULE None None None tgt 0.
Proof. unfold entered, rule_at. by intros ->. Qed.

(** C5.  [define_rule(src_module, name, target_module)] fetches or creates
    the slot.  When the slot's owning module differs from [src_module], the
    call succeeds, the slot's arguments, procedure and actions are null and
    one reference to each object it held is given up, its owning module is
    [src_module], its [exported] flag is kept, and no other slot changes.
    When the owning module is [src_module], the result is the slot as
    [enter_rule] returned it, and the memory is untouched when the slot
    existed. *)
Theorem define_rule_clears_foreign_slot src n tgt st :
  refs_ok st →
  let v := entered n tgt st in
  (module v ≠ src →
   ∃ st',
     define_rule src n tgt st = Some ((tgt, n), st') ∧
     rule_at (tgt, n) st' = Some (Build_RULE None None None src (exported v)) ∧
     released (arguments v) (arglists st) (arglists st') ∧
     released (procedure v) (parses st) (parses st') ∧
     released (actions v) (actionss st) (actionss st') ∧
     ∀ r, r ≠ (tgt, n) → rule_at r st' = rule_at r st) ∧
  (module v = src →
   define_rule src n tgt st = Some (enter_rule n tgt st) ∧
   rule_at (tgt, n) (enter_rule n tgt st).2 = Some v ∧
   (is_Some (rule_at (tgt, n) st) → enter_rule n tgt st = ((tgt, n), st))).
Proof.
  intros Hok v. split.
  - intros Hm. by apply define_rule_foreign.
  - intros Hm. split; [by apply define_rule_own|]. split.
    + apply entered_lookup.
    + intros [v0 Hv0]. by eapply enter_rule_present.
Qed.

(** [global_rule] on a rule of another module than the root is
    [define_rule] on the qualified name. *)
Lemma global_rule_eq r v st :
  rule_at r st = Some v → module v ≠ root_module →
  strlen (module_name (module v)) + strlen r.2 < NAME_SIZE →
  global_rule r st =
    define_rule (module v) (module_name (module v) +:+ r.2) root_module st.
Proof.
  intros Hr Hm Hfit. unfold global_rule. rewrite Hr. cbn [mbind option_bind].
  rewrite decide_False by done.
  by rewrite (global_rule_name_fits r v st Hr Hm Hfit).
Qed.

(** C10.  The mirror [global_rule] gives for a rule of a module other than
    the root has that module, the exporting one, as its owning module.
    So when the mirror exists and has this owner already (a repeated
    export), the memory is unchanged and the mirror's body and actions are
    in place; when the mirror exists with another owner (a module whose
    qualified name falls on the same slot), the mirror comes back with
    null arguments, procedure and actions, one reference to each object
    it held given up. *)
Theorem global_rule_mirror_owner r v st :
  refs_ok st → rule_at r st = Some v → module v ≠ root_module →
  strlen (module_name (module v)) + strlen r.2 < NAME_SIZE →
  let g := (root_module, module_name (module v) +:+ r.2) in
  ∃ st' gv,
    global_rule r st = Some (g, st') ∧
    rule_at g st' = Some gv ∧ module gv = module v ∧
    (∀ old, rule_at g st = Some old → module old = module v →
       st' = st ∧ gv = old) ∧
    (∀ old, rule_at g st = Some old → module old ≠ module v →
       gv = Build_RULE None None None (module v) (exported old) ∧
       released (arguments old) (arglists st) (arglists st') ∧
       released (procedure old) (parses st) (parses st') ∧
       released (actions old) (actionss st) (actionss st')).
Proof.
  intros Hok Hr Hm Hfit. cbn zeta.
  rewrite (global_rule_eq r v st Hr Hm Hfit).
  set (gname := (module_name (module v) +:+ r.2)%string).
  destruct (decide (module (entered gname root_module st) = module v)) as [He|He].
  - rewrite define_rule_own by done.
    exists (enter_rule gname root_module st).2, (entered gname root_module st).
    split; [by rewrite enter_rule_eq|].
    split; [apply entered_lookup|]. split; [done|]. split.
    + intros old Hold _. rewrite (enter_rule_present _ _ _ _ Hold).
      by rewrite (entered_present _ _ _ _ Hold).
    + intros old Hold Hne. by rewrite (entered_present _ _ _ _ Hold) in He.
  - destruct (define_rule_foreign (module v) gname root_module st Hok He)
      as (st' & Hdef & Hg & Ra & Rp & Rx & _).
    exists st', (Build_RULE None None None (module v)
                   (exported (entered gname root_module st))).
    split; [done|]. split; [done|]. split; [done|]. split.
    + intros old Hold Heq. by rewrite (entered_present _ _ _ _ Hold) in He.
    + intros old Hold _. by rewrite (entered_present _ _ _ _ Hold) in *.
Qed.


(** C9.  A name that is not in the module's table but is in the root
    module's: [bindrule] returns the root module's record as it is, its
    procedure included, and changes nothing. *)
Theorem bindrule_falls_back_to_existing rname m st v :
  rule_at (m, rname) st = None →
  rule_at (root_module, rname) st = Some v →
  bindrule rname m st = ((root_module, rname), st) ∧
  rule_at (bindrule rname m st).1 (bindrule rname m st).2 = Some v ∧
  procedure <$> rule_at (bindrule rname m st).1 (bindrule rname m st).2
    = Some (procedure v).
Proof.
  intros Hm Hroot.
  assert (Hb : bindrule rname m st = ((root_module, rname), st)).
  { unfold bindrule, rule_at in *. rewrite Hm.
    by apply (enter_rule_present _ _ _ v). }
  rewrite Hb. cbn [fst snd]. by rewrite Hroot.
Qed.

Lemma write_rule_ok r v v' st :
  refs_ok st → rule_at r st = Some v →
  arguments v' = arguments v → procedure v' = procedure v →
  actions v' = actions v →
  refs_ok (write_rule r v' st).
Proof.
  intros (Ha & Hp & Hx) Hr Ea Ep Ex. repeat split; cbn.
  - by eapply (counted_same arguments).
  - by eapply (counted_same procedure).
  - by eapply (counted_same actions).
Qed.

Lemma stamp_ok p pv s st :
  refs_ok st → parses st !! p = Some pv →
  refs_ok (set_parses (<[p := Build_PARSE (refs pv) s]> (parses st)) st).
Proof.
  intros (Ha & Hp & Hx) Hpv. repeat split; cbn; [done| |done].
  by eapply counted_update.
Qed.

(** An exported definition in a module other than the root succeeds, and
    leaves both the local slot and its mirror holding the body. *)
Lemma new_rule_body_exported m rname args p exp st :
  refs_ok st → m ≠ root_module → exp ≠ 0 →
  strlen (module_name m) + strlen rname < NAME_SIZE →
  callers arguments (rule_tables st) (arglists st) args →
  callers procedure (rule_tables st) (parses st) (Some p) →
  room 2 (arglists st) args → room 2 (parses st) (Some p) →
  ∃ st' l g,
    new_rule_body m rname args (Some p) exp st = Some ((m, rname), st') ∧
    refs_ok st' ∧
    rule_at (m, rname) st' = Some l ∧
    rule_at (root_module, module_name m +:+ rname) st' = Some g ∧
    arguments l = args ∧ procedure l = Some p ∧
    arguments g = args ∧ procedure g = Some p ∧
    module l = m ∧ module g = m ∧ exported l = exp.
Proof.
  intros Hok Hm Hexp Hfit Ca Cp Ra Rp. unfold new_rule_body.
  destruct (define_rule_ok m rname m st Hok)
    as (st1 & v1 & Hdef & Hok1 & Hr1 & Hm1 & _ & Ca1 & Cp1 & _ & Na1 & Np1 & _).
  rewrite Hdef. cbn [mbind option_bind]. rewrite Hr1. cbn [mbind option_bind].
  specialize (Ca1 _ Ca). specialize (Cp1 _ Cp).
  assert (Ra1 : room 2 (arglists st1) args).
  { eapply room_no_more; [done..|]. intros a Ha. by eapply (callers_live arguments). }
  assert (Rp1 : room 2 (parses st1) (Some p)).
  { eapply room_no_more; [done..|]. intros a Ha. by eapply (callers_live procedure). }
  set (v2 := with_exported exp v1).
  assert (Hok2 : refs_ok (write_rule (m, rname) v2 st1))
    by by apply (write_rule_ok _ v1).
  assert (Hr2 : rule_at (m, rname) (write_rule (m, rname) v2 st1) = Some v2)
    by apply lookup_insert_eq.
  destruct (set_rule_body_ok (m, rname) v2 args (Some p) _ Hok2 Hr2)
    as (st3 & Hset & Hok3 & Ht3 & Hia3 & Hip3 & _).
  { by apply (room_weaken 2). }
  { by apply (room_weaken 2). }
  rewrite Hset. cbn [mbind option_bind].
  set (v3 := with_procedure (Some p) (with_arguments args v2)) in *.
  assert (Hr3 : rule_at (m, rname) st3 = Some v3).
  { unfold rule_at. rewrite Ht3. apply lookup_insert_eq. }
  destruct Hok3 as (Ha3 & Hp3 & Hx3).
  assert (Ra3 : room 1 (arglists st3) args).
  { eapply (room_install _ _ _ _ 1); [exact Hia3|done|].
    intros a Ha. destruct (counted_held arguments _ _ _ v3 a Ha3 Hr3 Ha) as (o & -> & _).
    eauto. }
  assert (Rp3 : room 1 (parses st3) (Some p)).
  { eapply (room_install _ _ _ _ 1); [exact Hip3|done|].
    intros a [= <-].
    destruct (counted_held procedure _ _ _ v3 p Hp3 Hr3 eq_refl) as (o & -> & _).
    eauto. }
  destruct (counted_held procedure _ _ _ v3 p Hp3 Hr3 eq_refl) as (pv & Hpv & _).
  rewrite Hpv. cbn [mbind option_bind].
  assert (Hname : global_rule_name (m, rname) st3 = Some (module_name m +:+ rname)).
  { rewrite (global_rule_name_fits _ v3 st3 Hr3); subst v3 v2; cbn; congruence. }
  (* the stamp *)
  assert (Hstamp : ∃ st4,
    match rulename pv with
    | Some _ => Some st3
    | None =>
        gname ← global_rule_name (m, rname) st3;
        Some (set_parses (<[p := Build_PARSE (refs pv) (Some gname)]> (parses st3)) st3)
    end = Some st4 ∧ refs_ok st4 ∧ rule_tables st4 = rule_tables st3 ∧
    arglists st4 = arglists st3 ∧ no_more (parses st3) (parses st4)).
  { destruct (rulename pv).
    - exists st3. repeat split; auto using no_more_refl.
    - rewrite Hname. cbn [mbind option_bind]. eexists. split; [done|].
      split; [by apply stamp_ok|]. split; [done|]. split; [done|].
      cbn [parses set_parses]. intros a o'.
      destruct (decide (p = a)) as [<-|Hne].
      + rewrite lookup_insert_eq. intros [= <-]. exists pv. by split.
      + rewrite lookup_insert_ne by done. intros Ho'. exists o'. split; [done|lia]. }
  destruct Hstamp as (st4 & -> & Hok4 & Ht4 & Ea4 & Np4). cbn [mbind option_bind].
  rewrite decide_True by done.
  assert (Hr4 : rule_at (m, rname) st4 = Some v3) by (unfold rule_at; by rewrite Ht4).
  assert (Hm3 : module v3 = m) by (subst v3 v2; cbn; congruence).
  rewrite (global_rule_eq _ v3 st4 Hr4) by (cbn [snd]; congruence).
  rewrite Hm3. cbn [snd].
  destruct (define_rule_ok m (module_name m +:+ rname) root_module st4 Hok4)
    as (st5 & v5 & Hdef5 & Hok5 & Hr5 & Hm5 & Hother5 & _ & _ & _ & Na5 & Np5 & _).
  rewrite Hdef5. cbn [mbind option_bind].
  assert (Hne : (m, rname) ≠ (root_module, (module_name m +:+ rname)%string))
    by congruence.
  assert (HL5 : rule_at (m, rname) st5 = Some v3) by (by rewrite Hother5).
  destruct Hok5 as (Ha5 & Hp5 & Hx5).
  destruct (set_rule_body_ok _ v5 args (Some p) st5 (conj Ha5 (conj Hp5 Hx5)) Hr5)
    as (st6 & Hset6 & Hok6 & Ht6 & _).
  { eapply room_no_more; [exact Na5|by rewrite Ea4|].
    intros a Ha.
    destruct (counted_held arguments _ _ _ v3 a Ha5 HL5 Ha) as (o & -> & _). eauto. }
  { eapply room_no_more; [exact Np5| |].
    - eapply room_no_more; [exact Np4|done|].
      intros a [= <-]. destruct Hok4 as (_ & Hp4 & _).
      destruct (counted_held procedure _ _ _ v3 p Hp4 Hr4 eq_refl) as (o & -> & _).
      eauto.
    - intros a [= <-].
      destruct (counted_held procedure _ _ _ v3 p Hp5 HL5 eq_refl) as (o & -> & _).
      eauto. }
  rewrite Hset6. cbn [mbind option_bind].
  exists st6, v3, (with_procedure (Some p) (with_arguments args v5)).
  split; [done|]. split; [done|]. unfold rule_at. rewrite Ht6.
  split; [by rewrite lookup_insert_ne|]. split; [apply lookup_insert_eq|].
  subst v3 v2. cbn. repeat split; congruence.
Qed.

(** Installing the object that is held already: the count goes up and
    back down, and the memory is as before. *)
Lemma install_self `{Counted T} (h : gmap positive T) a o :
  h !! a = Some o → 1 ≤ count o → count o < INT_MAX →
  install (Some a) (Some a) h = Some h.
Proof.
  intros Ha Hc Hmax.
  destruct (install_Some (Some a) (Some a) h) as [h' Hh'].
  { intros ? [= <-]. exists o. split; [done|lia]. }
  { intros ? [= <-]. by exists o. }
  rewrite Hh'. f_equal. apply map_eq. intros b.
  rewrite (install_lookup _ _ _ _ b Hh').
  destruct (h !! b) as [o'|] eqn:Hb; [|done]. cbn [mbind option_bind].
  rewrite !hit_Some. destruct (decide (a = b)) as [->|Hne].
  - assert (o' = o) as -> by congruence.
    rewrite decide_False by (intros [? ?]; lia).
    f_equal. replace (count o + 1 - 1) with (count o) by lia.
    apply with_count_count.
  - rewrite decide_False by (intros [? ?]; congruence).
    f_equal. rewrite Z.add_0_r, Z.sub_0_r. apply with_count_count.
Qed.

Lemma install_held `{Counted T} (f : RULE → option positive)
    (t : gmap (positive * string) RULE) (h : gmap positive T) r v :
  counted f t h → t !! r = Some v → room 1 h (f v) →
  install (f v) (f v) h = Some h.
Proof.
  intros Hc Hr Hroom. destruct (f v) as [a|] eqn:Hv; [|done].
  destruct (counted_held f t h r v a Hc Hr Hv) as (o & Ho & Hge).
  destruct (Hroom a eq_refl) as (o' & Ho' & Hmax).
  assert (o' = o) as -> by congruence.
  apply (install_self h a o); [done..|lia].
Qed.

Lemma count_at_install `{Counted T} new old (h h' : gmap positive T) a o :
  install new old h = Some h' → h !! a = Some o → old ≠ Some a →
  count_at h' a = Some (count o + hit new a).
Proof.
  intros Hi Ha Hold. unfold count_at.
  rewrite (install_lookup _ _ _ _ a Hi), Ha. cbn [mbind option_bind].
  rewrite decide_False by (by intros [? ?]). cbn.
  rewrite count_with_count. unfold hit at 2. rewrite decide_False by done.
  f_equal. lia.
Qed.

Lemma with_fields_same v :
  with_procedure (procedure v) (with_arguments (arguments v) v) = v.
Proof. by destruct v. Qed.

Lemma with_actions_same v : with_actions (actions v) v = v.
Proof. by destruct v. Qed.

Lemma args_new_ok st :
  refs_ok st →
  arglists st !! (args_new st).1 = None ∧
  refs_ok (args_new st).2 ∧
  rule_tables (args_new st).2 = rule_tables st ∧
  arglists (args_new st).2 !! (args_new st).1 = Some (Build_argument_list 0 []).
Proof.
  intros (Ha & Hp & Hx). unfold args_new. cbn.
  assert (Hf : arglists st !! fresh (dom (arglists st)) = None).
  { apply not_elem_of_dom. apply is_fresh. }
  split; [done|]. split; [|split; [done|apply lookup_insert_eq]].
  repeat split; cbn; [|done..]. by apply counted_alloc.
Qed.

Lemma actions_new_ok cmd bl fl st :
  refs_ok st →
  actionss st !! (actions_new cmd bl fl st).1 = None ∧
  refs_ok (actions_new cmd bl fl st).2 ∧
  rule_tables (actions_new cmd bl fl st).2 = rule_tables st ∧
  actionss (actions_new cmd bl fl st).2 !! (actions_new cmd bl fl st).1
    = Some (Build_rule_actions cmd bl fl 0).
Proof.
  intros (Ha & Hp & Hx). unfold actions_new. cbn.
  assert (Hf : actionss st !! fresh (dom (actionss st)) = None).
  { apply not_elem_of_dom. apply is_fresh. }
  split; [done|]. split; [|split; [done|apply lookup_insert_eq]].
  repeat split; cbn; [done..|]. by apply counted_alloc.
Qed.

(** C2.  On a state that keeps the discipline, for a slot [r] whose
    objects are not counted up to [INT_MAX]: installing the argument list
    the slot holds (with any procedure that can be referred to), or the
    procedure it holds (with any such argument list), through
    [set_rule_body] succeeds and leaves the objects of that kind exactly
    as they were, so the object is not freed and its count is what it was,
    and the slot holds it still; installing the actions the slot holds
    through [set_rule_actions] leaves the whole memory as it was.  An
    argument list from [args_new], and an action template from
    [actions_new], has count 0, and its installation into the slot leaves
    it with count 1. *)
Theorem install_same_object_keeps_it r v st :
  refs_ok st → rule_at r st = Some v →
  room 1 (arglists st) (arguments v) → room 1 (parses st) (procedure v) →
  room 1 (actionss st) (actions v) →
  (∀ proc, room 1 (parses st) proc →
     ∃ st', set_rule_body r (arguments v) proc st = Some st' ∧
            arglists st' = arglists st ∧
            arguments <$> rule_at r st' = Some (arguments v)) ∧
  (∀ args, room 1 (arglists st) args →
     ∃ st', set_rule_body r args (procedure v) st = Some st' ∧
            parses st' = parses st ∧
            procedure <$> rule_at r st' = Some (procedure v)) ∧
  set_rule_actions r (actions v) st = Some st ∧
  (∀ a, arguments v = Some a →
     ∃ c, count_at (arglists st) a = Some c ∧ 1 ≤ c) ∧
  (let '(a, st1) := args_new st in
   count_at (arglists st1) a = Some 0 ∧
   ∀ proc, room 1 (parses st) proc →
     ∃ st2, set_rule_body r (Some a) proc st1 = Some st2 ∧
            count_at (arglists st2) a = Some 1) ∧
  (∀ cmd bl fl,
   let '(x, st1) := actions_new cmd bl fl st in
   count_at (actionss st1) x = Some 0 ∧
   ∃ st2, set_rule_actions r (Some x) st1 = Some st2 ∧
          count_at (actionss st2) x = Some 1).
Proof.
  intros Hok Hr Ra Rp Rx. pose proof Hok as (Ha & Hp & Hx).
  split; [|split; [|split; [|split; [|split]]]].
  - intros proc Hproc.
    destruct (set_rule_body_ok r v (arguments v) proc st Hok Hr Ra Hproc)
      as (st' & Hset & _ & Ht & Hia & _).
    exists st'. split; [done|].
    rewrite (install_held arguments _ _ r v Ha Hr Ra) in Hia.
    split; [congruence|]. unfold rule_at. rewrite Ht, lookup_insert_eq. done.
  - intros args Hargs.
    destruct (set_rule_body_ok r v args (procedure v) st Hok Hr Hargs Rp)
      as (st' & Hset & _ & Ht & _ & Hip & _).
    exists st'. split; [done|].
    rewrite (install_held procedure _ _ r v Hp Hr Rp) in Hip.
    split; [congruence|]. unfold rule_at. rewrite Ht, lookup_insert_eq. done.
  - rewrite (set_rule_actions_eq r v) by done.
    rewrite (install_held actions _ _ r v Hx Hr Rx). cbn [mbind option_bind].
    rewrite with_actions_same, insert_id by done. by destruct st.
  - intros a Hv. destruct (counted_held _ _ _ r v a Ha Hr Hv) as (o & Ho & Hge).
    exists (count o). unfold count_at. by rewrite Ho.
  - destruct (args_new_ok st Hok) as (Hfresh & Hok1 & Ht1 & Hnew).
    destruct (args_new st) as [a st1] eqn:Hnew_eq. cbn [fst snd] in *.
    split; [unfold count_at; by rewrite Hnew|].
    intros proc Hproc.
    assert (Hr1 : rule_at r st1 = Some v) by (unfold rule_at; by rewrite Ht1).
    assert (Hp1 : parses st1 = parses st)
      by (unfold args_new in Hnew_eq; by injection Hnew_eq as _ <-).
    destruct (set_rule_body_ok r v (Some a) proc st1 Hok1 Hr1)
      as (st2 & Hset & _ & _ & Hia & _).
    { intros ? [= <-]. rewrite Hnew. eexists. split; [done|]. by cbn. }
    { by rewrite Hp1. }
    exists st2. split; [done|].
    rewrite (count_at_install _ _ _ _ a _ Hia Hnew).
    + by rewrite hit_Some, decide_True.
    + intros Hv. destruct (counted_held _ _ _ r v a Ha Hr Hv) as (o & Ho & _).
      congruence.
  - intros cmd bl fl.
    destruct (actions_new_ok cmd bl fl st Hok) as (Hfresh & Hok1 & Ht1 & Hnew).
    destruct (actions_new cmd bl fl st) as [x st1] eqn:Hnew_eq. cbn [fst snd] in *.
    split; [unfold count_at; by rewrite Hnew|].
    assert (Hr1 : rule_at r st1 = Some v) by (unfold rule_at; by rewrite Ht1).
    destruct (set_rule_actions_ok r v (Some x) st1 Hok1 Hr1)
      as (st2 & Hset & _ & _ & _ & _ & Hix).
    { intros ? [= <-]. rewrite Hnew. eexists. split; [done|]. by cbn. }
    exists st2. split; [done|].
    rewrite (count_at_install _ _ _ _ x _ Hix Hnew).
    + by rewrite hit_Some, decide_True.
    + intros Hv. destruct (counted_held _ _ _ r v x Hx Hr Hv) as (o & Ho & _).
      congruence.
Qed.

(** C1.  A rule defined by [new_rule_body] with [exported] set, in a
    module other than the root, on a state that keeps the discipline and
    with a body that is the caller's and can take two more references:
    the call succeeds; the local record and the mirror record, under the
    module's name followed by the rule's name in the root module, hold the
    same argument list and the same procedure; each of these objects has
    a count of at least 2; and whatever body is then installed in the
    local slot (a null one clears it), the mirror record is unchanged and
    the objects it holds exist with a count of at least 1. *)
Theorem new_rule_body_exported_shares_body m rname args p exp st :
  refs_ok st → m ≠ root_module → exp ≠ 0 →
  strlen (module_name m) + strlen rname < NAME_SIZE →
  callers arguments (rule_tables st) (arglists st) args →
  callers procedure (rule_tables st) (parses st) (Some p) →
  room 2 (arglists st) args → room 2 (parses st) (Some p) →
  ∃ st' l g,
    new_rule_body m rname args (Some p) exp st = Some ((m, rname), st') ∧
    rule_at (m, rname) st' = Some l ∧
    rule_at (root_module, module_name m +:+ rname) st' = Some g ∧
    arguments l = args ∧ arguments g = args ∧
    procedure l = Some p ∧ procedure g = Some p ∧
    (∀ a, args = Some a → ∃ c, count_at (arglists st') a = Some c ∧ 2 ≤ c) ∧
    (∃ c, count_at (parses st') p = Some c ∧ 2 ≤ c) ∧
    ∀ args' proc',
      room 1 (arglists st') args' → room 1 (parses st') proc' →
      ∃ st'',
        set_rule_body (m, rname) args' proc' st' = Some st'' ∧
        rule_at (root_module, module_name m +:+ rname) st'' = Some g ∧
        (∀ a, args = Some a → ∃ c, count_at (arglists st'') a = Some c ∧ 1 ≤ c) ∧
        (∃ c, count_at (parses st'') p = Some c ∧ 1 ≤ c).
Proof.
  intros Hok Hm Hexp Hfit Ca Cp Ra Rp.
  destruct (new_rule_body_exported m rname args p exp st
              Hok Hm Hexp Hfit Ca Cp Ra Rp)
    as (st' & l & g & Hnew & Hok' & Hl & Hg & Hla & Hlp & Hga & Hgp & _).
  exists st', l, g. split; [done|]. split; [done|]. split; [done|].
  split; [done|]. split; [done|]. split; [done|]. split; [done|].
  assert (Hne : (m, rname) ≠ (root_module, (module_name m +:+ rname)%string))
    by congruence.
  pose proof Hok' as (Ha' & Hp' & _).
  split; [|split].
  - intros a ->.
    pose proof (holders_held_twice arguments _ _ _ l g a Hne Hl Hg Hla Hga) as H2.
    specialize (Ha' a). unfold count_at.
    destruct (arglists st' !! a) as [o|]; [|lia]. exists (count o). split; [done|lia].
  - pose proof (holders_held_twice procedure _ _ _ l g p Hne Hl Hg Hlp Hgp) as H2.
    specialize (Hp' p). unfold count_at.
    destruct (parses st' !! p) as [o|]; [|lia]. exists (count o). split; [done|lia].
  - intros args' proc' Hargs' Hproc'.
    destruct (set_rule_body_ok (m, rname) l args' proc' st' Hok' Hl Hargs' Hproc')
      as (st'' & Hset & (Ha'' & Hp'' & _) & Ht'' & _).
    exists st''. split; [done|].
    assert (Hg'' : rule_at (root_module, (module_name m +:+ rname)%string) st'' = Some g).
    { unfold rule_at. rewrite Ht''. by rewrite lookup_insert_ne. }
    split; [done|]. split.
    + intros a ->.
      destruct (counted_held arguments _ _ _ g a Ha'' Hg'' Hga) as (o & Ho & Hge).
      exists (count o). unfold count_at. by rewrite Ho.
    + destruct (counted_held procedure _ _ _ g p Hp'' Hg'' Hgp) as (o & Ho & Hge).
      exists (count o). unfold count_at. by rewrite Ho.
Qed.

(** The order in [set_rule_body] matters: giving up the only reference
    first loses the object, and there is nothing left to refer to. *)
Lemma free_then_refer_loses `{Counted T} (h : gmap positive T) a o :
  h !! a = Some o → count o = 1 →
  ∃ h', obj_free a h = Some h' ∧ h' !! a = None ∧ obj_refer a h' = None.
Proof.
  intros Ha Hc. exists (delete a h). unfold obj_free, obj_refer.
  rewrite Ha. cbn [mbind option_bind].
  rewrite decide_True by (rewrite Hc; done). cbv zeta.
  rewrite decide_True by lia. rewrite lookup_delete_eq. done.
Qed.

(** [import_rule] succeeds on a state that keeps the discipline and keeps
    it: the destination holds the objects of the source, and is owned by
    the module that owns the source, so that a later definition in the
    destination's own module finds a slot of another module. *)
Lemma import_rule_ok source m nm st src :
  refs_ok st → rule_at source st = Some src →
  room 1 (arglists st) (arguments src) → room 1 (parses st) (procedure src) →
  room 1 (actionss st) (actions src) →
  ∃ st' d,
    import_rule source m nm st = Some ((m, nm), st') ∧ refs_ok st' ∧
    rule_at (m, nm) st' = Some d ∧
    arguments d = arguments src ∧ procedure d = procedure src ∧
    actions d = actions src ∧ module d = module src ∧
    ∀ r, r ≠ (m, nm) → rule_at r st' = rule_at r st.
Proof.
  intros Hok Hsrc Ra Rp Rx. unfold import_rule. rewrite Hsrc.
  cbn [mbind option_bind].
  destruct (define_rule_ok (module src) nm m st Hok)
    as (st1 & v1 & Hdef & Hok1 & Hr1 & Hm1 & Hother & _ & _ & _ & Na & Np & Nx).
  rewrite Hdef. cbn [mbind option_bind].
  assert (Hsrc1 : rule_at source st1 = Some src).
  { destruct (decide (source = (m, nm))) as [->|Hne]; [|by rewrite Hother].
    rewrite define_rule_own in Hdef by by rewrite (entered_present _ _ _ _ Hsrc).
    rewrite (enter_rule_present _ _ _ _ Hsrc) in Hdef. by injection Hdef as <-. }
  rewrite Hsrc1. cbn [mbind option_bind].
  pose proof Hok1 as (Ha1 & Hp1 & Hx1).
  assert (Ra1 : room 1 (arglists st1) (arguments src)).
  { eapply room_no_more; [done..|]. intros a Ha.
    destruct (counted_held arguments _ _ _ src a Ha1 Hsrc1 Ha) as (o & -> & _). eauto. }
  assert (Rp1 : room 1 (parses st1) (procedure src)).
  { eapply room_no_more; [done..|]. intros a Ha.
    destruct (counted_held procedure _ _ _ src a Hp1 Hsrc1 Ha) as (o & -> & _). eauto. }
  assert (Rx1 : room 1 (actionss st1) (actions src)).
  { eapply room_no_more; [done..|]. intros a Ha.
    destruct (counted_held actions _ _ _ src a Hx1 Hsrc1 Ha) as (o & -> & _). eauto. }
  destruct (set_rule_body_ok (m, nm) v1 (arguments src) (procedure src) st1
              Hok1 Hr1 Ra1 Rp1)
    as (st2 & Hset & Hok2 & Ht2 & _ & _ & Ex2).
  rewrite Hset. cbn [mbind option_bind].
  set (v2 := with_procedure (procedure src) (with_arguments (arguments src) v1)) in *.
  assert (Hr2 : rule_at (m, nm) st2 = Some v2).
  { unfold rule_at. rewrite Ht2. apply lookup_insert_eq. }
  assert (Hact : ∃ src2, rule_at source st2 = Some src2 ∧ actions src2 = actions src).
  { unfold rule_at. rewrite Ht2.
    destruct (decide (source = (m, nm))) as [->|Hne].
    - rewrite lookup_insert_eq. exists v2. split; [done|].
      unfold rule_at in Hsrc1, Hr1. by assert (v1 = src) as -> by congruence.
    - rewrite lookup_insert_ne by done. by exists src. }
  destruct Hact as (src2 & -> & Hacts). cbn [mbind option_bind]. rewrite Hacts.
  destruct (set_rule_actions_ok (m, nm) v2 (actions src) st2 Hok2 Hr2)
    as (st3 & Hset3 & Hok3 & Ht3 & _).
  { by rewrite Ex2. }
  rewrite Hset3. cbn [mbind option_bind].
  exists st3, (with_actions (actions src) v2). split; [done|]. split; [done|].
  unfold rule_at. rewrite Ht3, lookup_insert_eq.
  split; [done|]. subst v2. cbn. do 4 (split; [done|]).
  intros r Hne. rewrite lookup_insert_ne by done.
  rewrite Ht2, lookup_insert_ne by done. by apply Hother.
Qed.

(** ** Chains *)

Section Chains.
Context {T : Type}.
Implicit Types (h : gmap positive (CHAIN T)) (p : option positive).
Implicit Types (ps : list positive) (xs : list T).

Lemma chain_seg_length h p ps xs : chain_seg h p ps xs → length ps = length xs.
Proof.
  revert p xs. induction ps as [|q ps IH]; intros p [|x xs]; simpl; try done.
  intros (_ & v & _ & _ & Hrest). f_equal. by eapply IH.
Qed.

Lemma chain_seg_dom h p ps xs q : chain_seg h p ps xs → q ∈ ps → is_Some (h !! q).
Proof.
  revert p xs. induction ps as [|q' ps IH]; intros p [|x xs]; simpl; try done.
  - by intros _ ?%elem_of_nil.
  - intros (_ & v & Hv & _ & Hrest) [->|Hin]%elem_of_cons; [eauto|].
    by eapply IH.
Qed.

(** Reading a chain gives its items. *)
Lemma chain_items_seg h p ps xs :
  chain_seg h p ps xs → chain_items (length ps) h p = Some xs.
Proof.
  revert p xs. induction ps as [|q ps IH]; intros p [|x xs]; simpl; try done.
  - by intros ->.
  - intros (-> & v & Hv & <- & Hrest). rewrite Hv. cbn [mbind option_bind].
    by rewrite (IH _ _ Hrest).
Qed.

(** A chain whose last node [tl] is made to point at a new node [c]. *)
Lemma chain_seg_snoc h h' p ps xs tl c x :
  chain_seg h p ps xs → NoDup ps → last ps = Some tl → c ∉ ps →
  (∀ q v, q ∈ ps → h !! q = Some v →
     ∃ v', h' !! q = Some v' ∧ item v' = item v ∧
           chain_next v' = if decide (q = tl) then Some c else chain_next v) →
  (∃ cv, h' !! c = Some cv ∧ item cv = x ∧ chain_next cv = None) →
  chain_seg h' p (ps ++ [c]) (xs ++ [x]).
Proof.
  intros Hseg Hnd Hlast Hc Hnodes Hnew.
  revert p xs Hseg Hnd Hlast Hc Hnodes.
  induction ps as [|q ps IH]; intros p [|x0 xs]; simpl; try done.
  intros (-> & v & Hv & Hitem & Hrest) Hnd Hlast Hc Hnodes.
  split; [done|].
  destruct (Hnodes q v) as (v' & Hv' & Hi' & Hn'); [apply list_elem_of_here|done|].
  exists v'. split; [done|]. split; [congruence|].
  apply NoDup_cons in Hnd as [Hq Hnd].
  destruct ps as [|q2 ps].
  - (* [q] is the last node *)
    destruct xs; [|by destruct (chain_next v)].
    simpl in Hrest. simpl in Hlast. injection Hlast as <-.
    rewrite decide_True in Hn' by done. rewrite Hn'. simpl.
    split; [done|]. destruct Hnew as (cv & Hcv & Hcx & Hcn).
    exists cv. by rewrite Hcn.
  - assert (Hne : q ≠ tl).
    { intros ->. apply Hq. rewrite last_cons_cons in Hlast.
      apply last_Some in Hlast as [l' ->].
      apply elem_of_app. right. apply list_elem_of_here. }
    rewrite decide_False in Hn' by done. rewrite Hn'.
    apply IH; try done.
    + intros Hin. apply Hc. by apply list_elem_of_further.
    + intros q' v0 Hin Hv0. apply Hnodes; [by apply list_elem_of_further|done].
Qed.

(** [chain_append] on a well-formed chain gives the chain with the item
    at its end, on the same head when there was one. *)
Lemma chain_append_spec h p xs x :
  is_chain h p xs →
  ∃ (c : positive) h',
    chain_append p x h = Some (c, h') ∧
    is_chain h' (Some c) (xs ++ [x]) ∧
    (∀ hd, p = Some hd → c = hd).
Proof.
  intros (ps & Hnd & Hseg & Htail).
  set (c := fresh (dom h)).
  assert (Hc : h !! c = None) by (apply not_elem_of_dom, is_fresh).
  assert (Hcps : c ∉ ps).
  { intros Hin. destruct (chain_seg_dom h p ps xs c Hseg Hin) as [? ?]. congruence. }
  unfold chain_append. fold c. cbn zeta.
  destruct ps as [|hd ps], xs as [|x0 xs]; simpl in Hseg; try done.
  - (* no chain yet *)
    subst p. cbn [mbind option_bind].
    rewrite lookup_insert_eq. cbn [mbind option_bind].
    rewrite lookup_insert_eq. cbn [mbind option_bind].
    eexists _, _. split; [done|]. split; [|done].
    exists [c]. split; [apply NoDup_singleton|]. split.
    + simpl. split; [done|]. eexists. rewrite lookup_insert_eq.
      split; [done|]. by cbn.
    + intros hd v [= <-]. rewrite lookup_insert_eq. by intros [= <-].
  - destruct Hseg as (-> & hv & Hhv & Hitem & Hrest).
    assert (Hlast : ∃ tl, last (hd :: ps) = Some tl).
    { destruct (last (hd :: ps)) eqn:E; [eauto|]. by apply last_None in E. }
    destruct Hlast as [tl Hlast].
    specialize (Htail hd hv eq_refl Hhv). rewrite Hlast in Htail.
    assert (Hne : hd ≠ c) by (intros ->; congruence).
    rewrite lookup_insert_ne by done. rewrite Hhv. cbn [mbind option_bind].
    rewrite Htail. cbn [mbind option_bind].
    assert (Htlin : tl ∈ hd :: ps).
    { apply last_Some in Hlast as [l' ->].
      apply elem_of_app. right. apply list_elem_of_here. }
    assert (Htlc : tl ≠ c) by (intros ->; done).
    destruct (chain_seg_dom h (Some hd) (hd :: ps) (x0 :: xs) tl) as [tv Htv];
      [simpl; eauto|done|].
    rewrite lookup_insert_ne by done. rewrite Htv. cbn [mbind option_bind].
    set (h2 := <[tl := with_chain_next (Some c) tv]> (<[c := Build_CHAIN x None None]> h)).
    assert (Hhd2 : ∃ hv2, h2 !! hd = Some hv2 ∧ item hv2 = item hv ∧
              chain_next hv2 = if decide (hd = tl) then Some c else chain_next hv).
    { unfold h2. destruct (decide (hd = tl)) as [<-|Hd].
      - rewrite lookup_insert_eq. eexists. split; [done|]. cbn.
        split; [congruence|done].
      - rewrite lookup_insert_ne by done. rewrite lookup_insert_ne by done.
        eauto. }
    destruct Hhd2 as (hv2 & Hhv2 & Hi2 & Hn2).
    rewrite Hhv2. cbn [mbind option_bind].
    rewrite lookup_insert_ne by done.
    assert (Hc2 : h2 !! c = Some (Build_CHAIN x None None)).
    { unfold h2. rewrite lookup_insert_ne by done. apply lookup_insert_eq. }
    rewrite Hc2. cbn [mbind option_bind].
    eexists _, _. split; [done|]. split; [|by intros ? [= <-]].
    exists ((hd :: ps) ++ [c]). split; [|split].
    + apply NoDup_app. split; [done|]. split; [|apply NoDup_singleton].
      intros q Hq ->%list_elem_of_singleton. done.
    + change (x0 :: xs ++ [x]) with ((x0 :: xs) ++ [x]).
      eapply (chain_seg_snoc h _ (Some hd) (hd :: ps) (x0 :: xs) tl c x);
        [simpl; eauto|done..| |].
      * intros q v Hq Hv.
        assert (q ≠ c) by (intros ->; done).
        rewrite lookup_insert_ne by done.
        destruct (decide (q = hd)) as [->|Hqhd].
        -- rewrite lookup_insert_eq. eexists. split; [done|]. cbn.
           assert (v = hv) as -> by congruence. done.
        -- rewrite lookup_insert_ne by done. unfold h2.
           destruct (decide (q = tl)) as [->|Hqtl].
           ++ rewrite lookup_insert_eq. eexists. split; [done|]. cbn.
              split; [congruence|done].
           ++ rewrite lookup_insert_ne by done. rewrite lookup_insert_ne by done.
              eauto.
      * rewrite lookup_insert_eq. eexists. split; [done|]. by cbn.
    + intros hd' v' [= <-]. rewrite lookup_insert_ne by done.
      rewrite lookup_insert_eq. intros [= <-]. cbn [chain_tail with_chain_tail].
      symmetry. apply (last_snoc c (hd :: ps)).
Qed.

End Chains.

Lemma is_chain_empty {T} (h : gmap positive (CHAIN T)) : is_chain h None [].
Proof. exists []. split; [apply NoDup_nil_2|]. by split. Qed.

(** Binding a name that is bound gives the same record and changes
    nothing more than the table's having been set up. *)
Lemma bindtarget_bound s st tbl v :
  targethash st = Some tbl → tbl !! s = Some v → bindtarget s st = (s, st).
Proof.
  intros Ht Hv. unfold bindtarget. cbv zeta. rewrite Ht.
  change (default ∅ (Some tbl)) with tbl. rewrite Hv.
  destruct st. cbn in *. by subst.
Qed.

Lemma bindtarget_binds s st :
  (bindtarget s st).1 = s ∧
  targets_nodes (bindtarget s st).2 = targets_nodes st ∧
  ∃ tbl, targethash (bindtarget s st).2 = Some tbl ∧ is_Some (tbl !! s) ∧
         ∀ s' tbl0, targethash st = Some tbl0 → is_Some (tbl0 !! s') →
                    is_Some (tbl !! s').
Proof.
  unfold bindtarget. cbv zeta.
  destruct (default ∅ (targethash st) !! s) as [v|] eqn:Hv; cbn.
  - split; [done|]. split; [done|]. eexists. split; [done|]. split; [eauto|].
    intros s' tbl0 E. by rewrite E.
  - split; [done|]. split; [done|]. eexists. split; [done|].
    split; [rewrite lookup_insert_eq; eauto|].
    intros s' tbl0 E. rewrite E. cbn. intros Hs'.
    destruct (decide (s = s')) as [->|Hne].
    + rewrite lookup_insert_eq. eauto.
    + by rewrite lookup_insert_ne.
Qed.

(** What [bindtarget] returns and leaves in the table. *)
Lemma bindtarget_result s st :
  (bindtarget s st).1 = s ∧
  targethash (bindtarget s st).2
    = Some (<[s := default (Build_TARGET s s 0) (targets_of st !! s)]> (targets_of st)) ∧
  targets_nodes (bindtarget s st).2 = targets_nodes st.
Proof.
  assert (Hgen : ∀ tbl : gmap string TARGET, default ∅ (targethash st) = tbl →
    (bindtarget s st).1 = s ∧
    targethash (bindtarget s st).2
      = Some (<[s := default (Build_TARGET s s 0) (tbl !! s)]> tbl) ∧
    targets_nodes (bindtarget s st).2 = targets_nodes st).
  { intros tbl Htbl. unfold bindtarget. cbv zeta. rewrite Htbl.
    destruct (tbl !! s) as [v|] eqn:Hv.
    - cbn [fst snd targethash targets_nodes].
      change (default ?d (Some v)) with v.
      by rewrite insert_id by done.
    - cbn [fst snd targethash targets_nodes].
      by change (default ?d None) with d. }
  unfold targets_of. by apply Hgen.
Qed.

(** The table after [targetlist]: every name of the list has the record
    it had, or a new one bound to the name itself with no flag set, and
    the records of the other names are as they were. *)
Lemma targetlist_table names : ∀ st p p' st',
  targetlist p names st = Some (p', st') →
  (is_Some (targethash st) ∨ names ≠ [] → is_Some (targethash st')) ∧
  ∀ s, targets_of st' !! s
       = if decide (s ∈ names)
         then Some (default (Build_TARGET s s 0) (targets_of st !! s))
         else targets_of st !! s.
Proof.
  induction names as [|s0 names IH]; intros st p p' st' H.
  - cbn in H. injection H as <- <-. split; [by intros [?|?]|].
    intros s. by rewrite decide_False by apply not_elem_of_nil.
  - cbn [targetlist] in H.
    destruct (bindtarget_result s0 st) as (Hfst & Htbl & Hnodes).
    destruct (bindtarget s0 st) as [t st1]. cbn [fst snd] in *. subst t.
    destruct (targetentry p s0 (targets_nodes st1)) as [[c h]|]; [|done].
    cbn [mbind option_bind] in H.
    apply IH in H as (Hsome & Htab). cbn [targethash] in Hsome.
    split; [intros _; apply Hsome; left; rewrite Htbl; eauto|].
    intros s. rewrite Htab. unfold targets_of at 1 2. cbn [targethash].
    rewrite Htbl. change (default ∅ (Some ?x)) with x.
    destruct (decide (s = s0)) as [->|Hne0].
    + rewrite lookup_insert_eq. rewrite (decide_True (P := s0 ∈ s0 :: names))
        by apply list_elem_of_here.
      by destruct (decide (s0 ∈ names)).
    + rewrite lookup_insert_ne by done.
      destruct (decide (s ∈ names)) as [Hin|Hout].
      * by rewrite decide_True by by apply list_elem_of_further.
      * rewrite decide_False; [done|]. by intros [?|?]%elem_of_cons.
Qed.

(** [targetlist] appends the targets of the names, in order. *)
Lemma targetlist_spec names : ∀ st p xs,
  is_chain (targets_nodes st) p xs →
  ∃ p' st',
    targetlist p names st = Some (p', st') ∧
    is_chain (targets_nodes st') p' (xs ++ names) ∧
    (∀ hd, p = Some hd → p' = Some hd) ∧
    (∀ s tbl0, targethash st = Some tbl0 → is_Some (tbl0 !! s) →
               ∃ tbl, targethash st' = Some tbl ∧ is_Some (tbl !! s)) ∧
    (∀ s, s ∈ names → ∃ tbl, targethash st' = Some tbl ∧ is_Some (tbl !! s)).
Proof.
  induction names as [|s names IH]; intros st p xs Hch.
  - exists p, st. cbn. rewrite app_nil_r. split; [done|]. split; [done|].
    split; [done|]. split; [eauto|]. by intros s ?%elem_of_nil.
  - cbn [targetlist].
    destruct (bindtarget_binds s st) as (Hfst & Hnodes & tbl1 & Ht1 & Hs1 & Hkeep1).
    destruct (bindtarget s st) as [t st1]. cbn [fst snd] in *. subst t.
    rewrite Hnodes.
    destruct (chain_append_spec (targets_nodes st) p xs s Hch)
      as (c & h' & Happ & Hch' & Hhd).
    unfold targetentry. rewrite Happ. cbn [mbind option_bind].
    destruct (IH (Build_targets_state (targethash st1) h') (Some c) (xs ++ [s]) Hch')
      as (p' & st' & Htl & Hch'' & Hhd' & Hkeep & Hnames).
    exists p', st'. split; [done|]. rewrite <-app_assoc in Hch''.
    split; [done|]. split; [|split].
    + intros hd ->. rewrite (Hhd hd eq_refl) in Hhd'. by apply Hhd'.
    + intros s' tbl0 E Hs'. apply (Hkeep s' tbl1); [done|]. by eapply Hkeep1.
    + intros s' [->|Hin]%elem_of_cons; [|by apply Hnames].
      by apply (Hkeep s tbl1).
Qed.

Lemma actionlist_each_spec acts : ∀ (h : gmap positive (CHAIN positive)) p xs,
  is_chain h p xs →
  ∃ p' h',
    actionlist_each p acts h = Some (p', h') ∧ is_chain h' p' (xs ++ acts).
Proof.
  induction acts as [|a acts IH]; intros h p xs Hch.
  - exists p, h. cbn. by rewrite app_nil_r.
  - cbn [actionlist_each]. unfold actionlist.
    destruct (chain_append_spec h p xs a Hch) as (c & h' & Happ & Hch' & _).
    rewrite Happ. cbn [mbind option_bind].
    destruct (IH h' (Some c) (xs ++ [a]) Hch') as (p' & h'' & Hal & Hch'').
    exists p', h''. split; [done|]. by rewrite <-app_assoc in Hch''.
Qed.

(** C8.  On a well-formed chain with targets [xs], [targetlist] with the
    names [names] succeeds and gives the well-formed chain of [xs]
    followed by the targets of the names, on the same head when there was
    one, one node for each name in the order given, a repeated name
    included.  Each name of the list has afterwards one record in the
    target table, the one it had before or else a new one bound to the
    name itself, the records of the other names being as they were, and
    [bindtarget] returns for it that record and changes nothing.
    [actionlist], called for each action of a sequence, does the same on
    an ACTIONS chain.  From no chain and no table, the names a, b, a give
    the three nodes a, b, a and a table of the two records a and b, the
    first and the third node pointing to the one record of a. *)
Theorem chains_append_in_order st p xs names (ha : gmap positive (CHAIN positive))
    pa ys acts :
  is_chain (targets_nodes st) p xs →
  is_chain ha pa ys →
  (∃ p' st',
     targetlist p names st = Some (p', st') ∧
     is_chain (targets_nodes st') p' (xs ++ names) ∧
     chain_items (length (xs ++ names)) (targets_nodes st') p' = Some (xs ++ names) ∧
     (∀ hd, p = Some hd → p' = Some hd) ∧
     (∀ s, s ∈ names →
           ∃ tbl, targethash st' = Some tbl ∧
                  tbl !! s = Some (default (Build_TARGET s s 0) (targets_of st !! s))) ∧
     (∀ s, s ∉ names → targets_of st' !! s = targets_of st !! s) ∧
     ∀ s, s ∈ names → bindtarget s st' = (s, st')) ∧
  (∃ pa' ha',
     actionlist_each pa acts ha = Some (pa', ha') ∧
     is_chain ha' pa' (ys ++ acts) ∧
     chain_items (length (ys ++ acts)) ha' pa' = Some (ys ++ acts)) ∧
  (∃ p' st',
     targetlist None ["a"; "b"; "a"]%string empty_targets = Some (Some p', st') ∧
     chain_items 3 (targets_nodes st') (Some p') = Some ["a"; "b"; "a"]%string ∧
     size (targets_nodes st') = 3%nat ∧
     targethash st'
       = Some (<["a"%string := Build_TARGET "a" "a" 0]>
                 {["b"%string := Build_TARGET "b" "b" 0]})).
Proof.
  intros Hch Hcha. split; [|split].
  - destruct (targetlist_spec names st p xs Hch)
      as (p' & st' & Htl & Hch' & Hhd & _ & Hbound).
    destruct (targetlist_table names st p p' st' Htl) as (Hsome & Htab).
    exists p', st'. split; [done|]. split; [done|].
    split; [|split; [done|split; [|split]]].
    + destruct Hch' as (ps & _ & Hseg & _).
      rewrite <-(chain_seg_length _ _ _ _ Hseg). by apply chain_items_seg.
    + intros s Hs. destruct Hsome as [tbl Ht].
      { right. intros ->. by apply elem_of_nil in Hs. }
      exists tbl. split; [done|]. specialize (Htab s).
      rewrite decide_True in Htab by done.
      unfold targets_of at 1 in Htab. by rewrite Ht in Htab.
    + intros s Hs. rewrite Htab. by rewrite decide_False.
    + intros s Hs. destruct (Hbound s Hs) as (tbl & Ht & [v Hv]).
      by eapply bindtarget_bound.
  - destruct (actionlist_each_spec acts ha pa ys Hcha) as (pa' & ha' & Hal & Hch').
    exists pa', ha'. split; [done|]. split; [done|].
    destruct Hch' as (ps & _ & Hseg & _).
    rewrite <-(chain_seg_length _ _ _ _ Hseg). by apply chain_items_seg.
  - eexists _, _. split; [by vm_compute|]. split; [by vm_compute|].
    split; [by vm_compute|]. by vm_compute.
Qed.

(** ** Settings lists *)

Implicit Types (h : gmap positive SETTINGS) (ps : list positive).
Implicit Types (l : list (string * list string)).

Lemma settings_seg_dom h p ps l q :
  settings_seg h p ps l → q ∈ ps → is_Some (h !! q).
Proof.
  revert p l. induction ps as [|q' ps IH]; intros p [|[s v] l]; simpl; try done.
  - by intros _ ?%elem_of_nil.
  - intros (_ & n & Hn & _ & _ & Hrest) [->|Hin]%elem_of_cons; [eauto|].
    by eapply IH.
Qed.

Lemma settings_seg_length h p ps l : settings_seg h p ps l → length ps = length l.
Proof.
  revert p l. induction ps as [|q ps IH]; intros p [|[s v] l]; simpl; try done.
  intros (_ & n & _ & _ & _ & Hrest). f_equal. by eapply IH.
Qed.

(** Distinct nodes are no more than the nodes there are. *)
Lemma settings_seg_size h p ps l :
  NoDup ps → settings_seg h p ps l → (length ps ≤ size h)%nat.
Proof.
  intros Hnd Hseg.
  rewrite <-(size_list_to_set (C := gset positive) ps) by done.
  rewrite <-size_dom. apply subseteq_size.
  intros q Hq%elem_of_list_to_set. apply elem_of_dom.
  by eapply settings_seg_dom.
Qed.

(** Nodes outside the list do not matter. *)
Lemma settings_seg_frame h h' p ps l :
  settings_seg h p ps l → (∀ q, q ∈ ps → h' !! q = h !! q) →
  settings_seg h' p ps l.
Proof.
  revert p l. induction ps as [|q ps IH]; intros p [|[s v] l]; simpl; try done.
  intros (-> & n & Hn & Hs & Hv & Hrest) Hsame. split; [done|].
  exists n. rewrite Hsame by apply list_elem_of_here.
  do 3 (split; [done|]). apply IH; [done|].
  intros q' Hq'. apply Hsame. by apply list_elem_of_further.
Qed.

(** Two memories that hold the same list in the same nodes agree on
    these nodes. *)
Lemma settings_seg_agree h h' p ps l q :
  settings_seg h p ps l → settings_seg h' p ps l → q ∈ ps → h' !! q = h !! q.
Proof.
  revert p l. induction ps as [|q' ps IH]; intros p [|[s v] l]; simpl; try done.
  - by intros _ _ ?%elem_of_nil.
  - intros (-> & n & Hn & Hs & Hv & Hrest) (_ & n' & Hn' & Hs' & Hv' & Hrest').
    assert (Hnext : next n' = next n).
    { destruct ps as [|q2 ps], l as [|[s2 v2] l]; simpl in *; try done.
      - congruence.
      - destruct Hrest as [-> _]. by destruct Hrest' as [-> _]. }
    intros [->|Hin]%elem_of_cons.
    + rewrite Hn, Hn'. f_equal. destruct n, n'. cbn in *. congruence.
    + rewrite Hnext in Hrest'. by eapply IH.
Qed.

(** The scan does not find a symbol that is not there. *)
Lemma find_setting_absent fuel h p ps l sym :
  settings_seg h p ps l → (length ps ≤ fuel)%nat → sym ∉ l.*1 →
  find_setting fuel h p sym = Some None.
Proof.
  revert fuel p l. induction ps as [|q ps IH]; intros fuel p [|[s v] l]; simpl; try done.
  - intros -> _ _. by destruct fuel.
  - intros (-> & n & Hn & Hs & Hv & Hrest) Hfuel Hsym.
    destruct fuel as [|fuel]; [lia|]. cbn [find_setting].
    rewrite Hn. cbn [mbind option_bind].
    apply not_elem_of_cons in Hsym as [Hne Hsym].
    rewrite decide_False by congruence.
    eapply IH; [done|lia|done].
Qed.

(** The scan stops at the first node with the symbol. *)
Lemma find_setting_present fuel h p ps l1 sym old l2 :
  settings_seg h p ps (l1 ++ (sym, old) :: l2) →
  (length ps ≤ fuel)%nat → sym ∉ l1.*1 →
  ∃ q n, find_setting fuel h p sym = Some (Some q) ∧
         ps !! length l1 = Some q ∧ h !! q = Some n ∧
         symbol n = sym ∧ value n = old.
Proof.
  revert fuel p l1. induction ps as [|q ps IH]; intros fuel p [|[s v] l1]; simpl; try done.
  - intros (-> & n & Hn & Hs & Hv & Hrest) Hfuel _.
    destruct fuel as [|fuel]; [lia|]. cbn [find_setting].
    rewrite Hn. cbn [mbind option_bind]. rewrite decide_True by done.
    by exists q, n.
  - intros (-> & n & Hn & Hs & Hv & Hrest) Hfuel Hsym.
    destruct fuel as [|fuel]; [lia|]. cbn [find_setting].
    rewrite Hn. cbn [mbind option_bind].
    apply not_elem_of_cons in Hsym as [Hne Hsym].
    rewrite decide_False by congruence.
    eapply IH; [done|lia|done].
Qed.

(** Writing the value of one node of the list. *)
Lemma settings_seg_update h p ps l1 s old l2 q n new :
  settings_seg h p ps (l1 ++ (s, old) :: l2) → NoDup ps →
  ps !! length l1 = Some q → h !! q = Some n →
  settings_seg (<[q := with_value new n]> h) p ps (l1 ++ (s, new) :: l2).
Proof.
  revert p l1. induction ps as [|q0 ps IH]; intros p [|[s1 v1] l1]; simpl; try done.
  - intros (-> & n0 & Hn0 & Hs & Hv & Hrest) Hnd [= <-] Hn.
    assert (n0 = n) as -> by congruence.
    split; [done|]. exists (with_value new n). rewrite lookup_insert_eq.
    do 3 (split; [done|]). cbn [next with_value].
    apply NoDup_cons in Hnd as [Hq0 _].
    eapply settings_seg_frame; [done|].
    intros q' Hq'. apply lookup_insert_ne. by intros ->.
  - intros (-> & n0 & Hn0 & Hs & Hv & Hrest) Hnd Hq Hn.
    apply NoDup_cons in Hnd as [Hq0 Hnd].
    assert (q0 ≠ q).
    { intros ->. apply Hq0. by eapply list_elem_of_lookup_2. }
    split; [done|]. exists n0. rewrite lookup_insert_ne by done.
    do 3 (split; [done|]). by apply IH.
Qed.

(** C6.  On a well-formed list [l] whose nodes the pool does not share:
    for a symbol that is in the list, [addsettings] without [append]
    hands the old value to [list_free] and leaves the list with the new
    value in the place of the old, and with [append] leaves it with the old
    value followed by the new one, the head unchanged in both cases; for a
    symbol that is not in the list, the node is the first of the pool when
    there is one (and the pool goes on with the next), a new node
    otherwise, and the list is the new setting followed by [l].  The
    symbols of the list stay distinct. *)
Theorem addsettings_replaces_appends_or_links head ps l append sym val st :
  is_settings (settings_nodes st) head ps l →
  (∀ f, settings_freelist st = Some f →
        (f ∉ ps) ∧ is_Some (settings_nodes st !! f)) →
  (∀ l1 old l2, l = l1 ++ (sym, old) :: l2 → sym ∉ l1.*1 →
     ∃ st',
       addsettings head append sym val st = Some (head, st') ∧
       settings_freelist st' = settings_freelist st ∧
       (append = 0 →
          is_settings (settings_nodes st') head ps (l1 ++ (sym, val) :: l2) ∧
          freed_lists st' = freed_lists st ++ [old]) ∧
       (append ≠ 0 →
          is_settings (settings_nodes st') head ps (l1 ++ (sym, old ++ val) :: l2) ∧
          freed_lists st' = freed_lists st)) ∧
  (sym ∉ l.*1 →
     ∃ v st',
       addsettings head append sym val st = Some (Some v, st') ∧
       is_settings (settings_nodes st') (Some v) (v :: ps) ((sym, val) :: l) ∧
       freed_lists st' = freed_lists st ∧
       match settings_freelist st with
       | Some f =>
           v = f ∧
           settings_freelist st' = (next <$> settings_nodes st !! f) ≫= id
       | None =>
           settings_nodes st !! v = None ∧ settings_freelist st' = None
       end) ∧
  (NoDup l.*1 →
     ∀ head' st', addsettings head append sym val st = Some (head', st') →
       ∃ ps' l', is_settings (settings_nodes st') head' ps' l' ∧ NoDup l'.*1).
Proof.
  intros [Hnd Hseg] Hpool.
  pose proof (settings_seg_size _ _ _ _ Hnd Hseg) as Hfuel.
  assert (Hfound : ∀ l1 old l2, l = l1 ++ (sym, old) :: l2 → sym ∉ l1.*1 →
    ∃ st',
      addsettings head append sym val st = Some (head, st') ∧
      settings_freelist st' = settings_freelist st ∧
      (append = 0 →
         is_settings (settings_nodes st') head ps (l1 ++ (sym, val) :: l2) ∧
         freed_lists st' = freed_lists st ++ [old]) ∧
      (append ≠ 0 →
         is_settings (settings_nodes st') head ps (l1 ++ (sym, old ++ val) :: l2) ∧
         freed_lists st' = freed_lists st)).
  { intros l1 old l2 -> Hsym.
    destruct (find_setting_present _ _ _ _ _ _ _ _ Hseg Hfuel Hsym)
      as (q & n & Hfind & Hq & Hn & Hs & Hv).
    unfold addsettings. cbv zeta. rewrite Hfind. cbn [mbind option_bind].
    rewrite Hn. cbn [mbind option_bind].
    destruct (decide (append ≠ 0)) as [Ha|Ha].
    - eexists. split; [done|]. split; [done|]. split; [done|].
      intros _. split; [|done]. split; [done|].
      cbn [settings_nodes set_settings_nodes]. unfold list_append. rewrite Hv.
      by eapply settings_seg_update.
    - eexists. split; [done|]. split; [done|]. split; [|done].
      intros _. split; [|by rewrite Hv]. split; [done|].
      cbn [settings_nodes set_settings_nodes list_free].
      by eapply settings_seg_update. }
  assert (Hnew : sym ∉ l.*1 →
    ∃ v st',
      addsettings head append sym val st = Some (Some v, st') ∧
      is_settings (settings_nodes st') (Some v) (v :: ps) ((sym, val) :: l) ∧
      freed_lists st' = freed_lists st ∧
      match settings_freelist st with
      | Some f =>
          v = f ∧
          settings_freelist st' = (next <$> settings_nodes st !! f) ≫= id
      | None =>
          settings_nodes st !! v = None ∧ settings_freelist st' = None
      end).
  { intros Hsym.
    pose proof (find_setting_absent _ _ _ _ _ _ Hseg Hfuel Hsym) as Hfind.
    unfold addsettings. cbv zeta. rewrite Hfind. cbn [mbind option_bind].
    assert (Hlink : ∀ v, v ∉ ps →
      settings_seg (<[v := Build_SETTINGS sym val head]> (settings_nodes st))
        (Some v) (v :: ps) ((sym, val) :: l)).
    { intros v Hv. simpl. split; [done|]. eexists. rewrite lookup_insert_eq.
      do 3 (split; [done|]). cbn [next].
      eapply settings_seg_frame; [done|].
      intros q' Hq'. apply lookup_insert_ne. by intros ->. }
    destruct (settings_freelist st) as [f|] eqn:Hfl.
    - destruct (Hpool f eq_refl) as [Hf [nf Hnf]].
      rewrite Hnf. cbn [mbind option_bind].
      eexists _, _. split; [done|].
      cbn [settings_nodes set_settings_nodes set_settings_freelist
           settings_freelist freed_lists fmap option_fmap option_map id].
      split; [|done]. split; [|by apply Hlink].
      apply NoDup_cons. by split.
    - cbn [mbind option_bind].
      assert (Hfresh : settings_nodes st !! fresh (dom (settings_nodes st)) = None)
        by (apply not_elem_of_dom, is_fresh).
      assert (Hv : fresh (dom (settings_nodes st)) ∉ ps).
      { intros Hin. destruct (settings_seg_dom _ _ _ _ _ Hseg Hin) as [? ?]. congruence. }
      eexists _, _. split; [done|].
      cbn [settings_nodes set_settings_nodes settings_freelist freed_lists].
      split; [|by rewrite Hfl]. split; [|by apply Hlink].
      apply NoDup_cons. by split. }
  split; [done|]. split; [done|].
  intros Hsyms head' st' Hadd.
  destruct (decide (sym ∈ l.*1)) as [Hin|Hout].
  - apply list_elem_of_split in Hin as (k1 & k2 & Hl).
    assert (Hk1 : sym ∉ k1).
    { rewrite Hl in Hsyms. apply NoDup_app in Hsyms as (_ & Hdisj & _).
      intros Hin. apply (Hdisj sym Hin). apply list_elem_of_here. }
    apply fmap_app_inv in Hl as (l1 & l2' & -> & Hl2 & ->).
    destruct l2' as [|[s old] l2]; [done|]. cbn in Hl2. injection Hl2 as -> ->.
    destruct (Hfound l1 old l2 eq_refl Hk1) as (st1 & Hadd1 & _ & H0 & H1).
    rewrite Hadd1 in Hadd. injection Hadd as <- <-.
    destruct (decide (append = 0)) as [Ha|Ha].
    + exists ps, (l1 ++ (s, val) :: l2). split; [by apply H0|].
      by rewrite fmap_app, fmap_cons in *.
    + exists ps, (l1 ++ (s, old ++ val) :: l2). split; [by apply H1|].
      by rewrite fmap_app, fmap_cons in *.
  - destruct (Hnew Hout) as (v & st1 & Hadd1 & Hset & _).
    rewrite Hadd1 in Hadd. injection Hadd as <- <-.
    exists (v :: ps), ((sym, val) :: l). split; [done|].
    cbn. apply NoDup_cons. by split.
Qed.

Implicit Types (e : gmap string (list string)).

(** ** Pushing and popping settings *)

Lemma current_symbols e l : (current e l).*1 = l.*1.
Proof. unfold current. rewrite <-list_fmap_compose. done. Qed.

Lemma var_get_union_in l e s v :
  NoDup l.*1 → (s, v) ∈ l → var_get s (list_to_map l ∪ e) = v.
Proof.
  intros Hnd Hin. unfold var_get.
  erewrite lookup_union_Some_l; [done|]. by apply elem_of_list_to_map_1.
Qed.

Lemma var_get_union_out l e s :
  s ∉ l.*1 → var_get s (list_to_map l ∪ e) = var_get s e.
Proof.
  intros Hout. unfold var_get.
  rewrite lookup_union_r; [done|]. by apply not_elem_of_list_to_map_1.
Qed.

(** The loop of [pushsettings] on a well-formed list with distinct
    symbols: the nodes take the values of the variables, the variables
    those of the nodes, and nothing else changes. *)
Lemma pushsettings_from_spec ps : ∀ fuel p l st,
  settings_seg (settings_nodes st) p ps l → NoDup ps → NoDup l.*1 →
  (length ps ≤ fuel)%nat →
  ∃ st',
    pushsettings_from fuel p st = Some st' ∧
    settings_seg (settings_nodes st') p ps (current (variables st) l) ∧
    (∀ q, q ∉ ps → settings_nodes st' !! q = settings_nodes st !! q) ∧
    variables st' = list_to_map l ∪ variables st ∧
    settings_freelist st' = settings_freelist st ∧
    freed_lists st' = freed_lists st.
Proof.
  induction ps as [|q ps IH]; intros fuel p [|[s v] l] st; simpl; try done.
  - intros -> _ _ _. exists st. destruct fuel; cbn.
    all: by rewrite (left_id_L ∅ (∪)).
  - intros (-> & n & Hn & Hs & Hv & Hrest) Hnd Hsyms Hfuel.
    destruct fuel as [|fuel]; [lia|]. cbn [pushsettings_from].
    rewrite Hn. cbn [mbind option_bind]. unfold var_swap.
    apply NoDup_cons in Hnd as [Hq Hnd].
    apply NoDup_cons in Hsyms as [Hsym Hsyms].
    set (st1 := set_variables _ _).
    assert (Hrest1 : settings_seg (settings_nodes st1) (next n) ps l).
    { eapply settings_seg_frame; [done|].
      intros q' Hq'. apply lookup_insert_ne. by intros ->. }
    destruct (IH fuel (next n) l st1 Hrest1 Hnd Hsyms ltac:(lia))
      as (st' & Hpush & Hseg' & Hframe & Hvars & Hfl & Hfr).
    exists st'. split; [done|]. split; [|split; [|split; [|done]]].
    + split; [done|].
      exists (with_value (var_get (symbol n) (variables st)) n).
      rewrite Hframe by done. cbn [settings_nodes st1 set_variables set_settings_nodes].
      rewrite lookup_insert_eq. split; [done|]. cbn [symbol value next with_value fst].
      split; [done|]. split; [by rewrite Hs|].
      assert (Hcur : current (variables st1) l = current (variables st) l).
      { unfold current. apply list_fmap_ext. intros i [s' v'] Hi. cbn [fst].
        f_equal. unfold var_get. cbn [variables st1 set_variables].
        rewrite lookup_insert_ne; [done|].
        intros <-. apply Hsym. rewrite <-Hs.
        apply list_elem_of_fmap. exists (symbol n, v'). split; [done|].
        by eapply list_elem_of_lookup_2. }
      by rewrite <-Hcur.
    + intros q' Hq'. apply not_elem_of_cons in Hq' as [Hne Hq'].
      rewrite Hframe by done. cbn [settings_nodes st1 set_variables set_settings_nodes].
      by rewrite lookup_insert_ne.
    + rewrite Hvars. cbn [variables st1 set_variables].
      rewrite Hs, Hv. cbn [list_to_map foldr curry fst snd].
      rewrite <-insert_union_l, <-insert_union_r; [done|].
      by apply not_elem_of_list_to_map_1.
Qed.

(** A push and the pop after it. *)
Lemma push_pop_spec head ps l st :
  is_settings (settings_nodes st) head ps l → NoDup l.*1 →
  ∃ st1 st2,
    pushsettings head st = Some st1 ∧
    popsettings head st1 = Some st2 ∧
    is_settings (settings_nodes st1) head ps (current (variables st) l) ∧
    variables st1 = list_to_map l ∪ variables st ∧
    settings_nodes st2 = settings_nodes st ∧
    variables st2
      = list_to_map (current (variables st) l) ∪ (list_to_map l ∪ variables st) ∧
    settings_freelist st2 = settings_freelist st ∧
    freed_lists st2 = freed_lists st.
Proof.
  intros [Hnd Hseg] Hsyms.
  destruct (pushsettings_from_spec ps (size (settings_nodes st)) head l st
              Hseg Hnd Hsyms)
    as (st1 & Hpush & Hseg1 & Hframe1 & Hvars1 & Hfl1 & Hfr1);
    [by eapply settings_seg_size|].
  assert (Hsyms1 : NoDup (current (variables st) l).*1) by by rewrite current_symbols.
  destruct (pushsettings_from_spec ps (size (settings_nodes st1)) head _ st1
              Hseg1 Hnd Hsyms1)
    as (st2 & Hpop & Hseg2 & Hframe2 & Hvars2 & Hfl2 & Hfr2);
    [by eapply settings_seg_size|].
  exists st1, st2. split; [done|]. split; [done|]. split; [done|].
  split; [done|].
  assert (Hback : current (variables st1) (current (variables st) l) = l).
  { unfold current. rewrite <-list_fmap_compose.
    rewrite <-(list_fmap_id l) at 2. apply list_fmap_ext.
    intros i [s v] Hi. cbn. f_equal. rewrite Hvars1.
    apply var_get_union_in; [done|]. by eapply list_elem_of_lookup_2. }
  rewrite Hback in Hseg2.
  split; [|split; [by rewrite Hvars2, Hvars1|split; congruence]].
  apply map_eq. intros q. destruct (decide (q ∈ ps)) as [Hq|Hq].
  - by eapply settings_seg_agree.
  - by rewrite Hframe2, Hframe1.
Qed.

(** C3.  On a well-formed settings list with distinct symbols,
    [pushsettings] succeeds and gives every variable named in the list the
    value its node had; [popsettings] after it succeeds too, by the same
    loop, and then every variable has the value it had before the push and
    the nodes are as they were; and a second push and pop lead to the very
    state the first ones led to. *)
Theorem push_then_pop_restores head ps l st :
  is_settings (settings_nodes st) head ps l → NoDup l.*1 →
  ∃ st1 st2,
    pushsettings head st = Some st1 ∧
    popsettings head st1 = pushsettings head st1 ∧
    popsettings head st1 = Some st2 ∧
    (∀ s v, (s, v) ∈ l → var_get s (variables st1) = v) ∧
    (∀ s, var_get s (variables st2) = var_get s (variables st)) ∧
    settings_nodes st2 = settings_nodes st ∧
    ∃ st3, pushsettings head st2 = Some st3 ∧ popsettings head st3 = Some st2.
Proof.
  intros Hset Hsyms.
  destruct (push_pop_spec head ps l st Hset Hsyms)
    as (st1 & st2 & Hpush & Hpop & Hset1 & Hvars1 & Hnodes2 & Hvars2 & Hfl2 & Hfr2).
  exists st1, st2. split; [done|]. split; [done|]. split; [done|].
  assert (Hget : ∀ s, var_get s (variables st2) = var_get s (variables st)).
  { intros s. rewrite Hvars2. destruct (decide (s ∈ l.*1)) as [Hin|Hout].
    - apply var_get_union_in; [by rewrite current_symbols|].
      unfold current. apply list_elem_of_fmap in Hin as ([s' v'] & -> & Hin).
      apply list_elem_of_fmap. by exists (s', v').
    - rewrite var_get_union_out by by rewrite current_symbols.
      by apply var_get_union_out. }
  split; [|split; [done|split; [done|]]].
  { intros s v Hin. rewrite Hvars1. by apply var_get_union_in. }
  rewrite <-Hnodes2 in Hset.
  destruct (push_pop_spec head ps l st2 Hset Hsyms)
    as (st3 & st4 & Hpush3 & Hpop3 & _ & _ & Hnodes4 & Hvars4 & Hfl4 & Hfr4).
  exists st3. split; [done|]. rewrite Hpop3. f_equal.
  assert (Hcur : current (variables st2) l = current (variables st) l).
  { unfold current. apply list_fmap_ext. intros i [s v] _. cbn. by rewrite Hget. }
  assert (Hvars : variables st4 = variables st2).
  { rewrite Hvars4, Hcur. apply map_eq. intros s.
    destruct ((list_to_map (current (variables st) l)
                 : gmap string (list string)) !! s) as [v|] eqn:Hs.
    - rewrite (lookup_union_Some_l _ _ _ _ Hs).
      rewrite Hvars2. by rewrite (lookup_union_Some_l _ _ _ _ Hs).
    - rewrite lookup_union_r by done.
      assert (Hl : (list_to_map l : gmap string (list string)) !! s = None).
      { apply not_elem_of_list_to_map_1.
        apply not_elem_of_list_to_map_2 in Hs. by rewrite current_symbols in Hs. }
      by rewrite lookup_union_r. }
  destruct st2, st4. cbn in *. congruence.
Qed.

End Modules.

(** ** The check of the discipline is sound *)

Lemma counted_check_sound `{Counted T} (f : RULE → option positive)
    (t : gmap (positive * string) RULE) (h : gmap positive T) :
  counted_check f t h = true → counted f t h.
Proof.
  unfold counted_check. intros [Hh Ht]%andb_prop a.
  apply bool_decide_eq_true_1 in Hh. apply bool_decide_eq_true_1 in Ht.
  destruct (h !! a) as [o|] eqn:Ha.
  - by apply (Hh a o).
  - unfold holders.
    assert (Hempty : filter (λ kr : (positive * string) * RULE, f kr.2 = Some a) t = ∅);
      [|by rewrite Hempty, map_size_empty].
    apply map_empty_filter_2. intros r v Hr Hv. cbn in Hv.
    destruct (Ht r v Hr) as [Hn|[x Hx]]; [congruence|].
    rewrite Hv in Hx. cbn in Hx. congruence.
Qed.

Lemma refs_check_sound st : refs_check st = true → refs_ok st.
Proof.
  unfold refs_check. intros [[Ha Hp]%andb_prop Hx]%andb_prop.
  repeat split; by apply counted_check_sound.
Qed.

(** Reading a settings list gives its settings. *)
Lemma settings_items_seg h p ps l :
  settings_seg h p ps l → settings_items (length ps) h p = Some l.
Proof.
  revert p l. induction ps as [|q ps IH]; intros p [|[s v] l]; simpl; try done.
  - by intros ->.
  - intros (-> & n & Hn & <- & <- & Hrest). rewrite Hn. cbn [mbind option_bind].
    by rewrite (IH _ _ Hrest).
Qed.

(** ** The qualified name *)

(** The names of two modules may run into the same qualified name. *)
Lemma qualified_names_collide :
  global_rule_name ex_root ex_names (3%positive, "c")
    (Build_rules_state {[(3%positive, "c") := Build_RULE None None None 3 0]} ∅ ∅ ∅)
  = Some "abc" ∧
  global_rule_name ex_root ex_names (4%positive, "bc")
    (Build_rules_state {[(4%positive, "bc") := Build_RULE None None None 4 0]} ∅ ∅ ∅)
  = Some "abc".
Proof. by vm_compute. Qed.

(** C7.  The qualified name of a rule of the root module is the rule's
    name, and otherwise the module's name followed by the rule's name
    ([global_rule_name_root], [global_rule_name_fits],
    [qualified_names_collide]).  But a name too long for the buffer is not
    cut: for the module whose name has 4095 characters and its rule [r],
    the second [strncat] is allowed 4095 more characters and writes past
    the 4096 bytes of the buffer, so that the call has no defined
    result. *)
Theorem global_rule_name_overruns_its_buffer :
  rule_at (5%positive, "r") ex_long = Some (Build_RULE None None None 5 0) ∧
  strlen (ex_names 5) = 4095 ∧ strlen "r" = 1 ∧
  strncat NAME_SIZE "" (ex_names 5) (NAME_SIZE - 1) = Some (ex_names 5) ∧
  strncat NAME_SIZE (ex_names 5) "r" (NAME_SIZE - 1) = None ∧
  global_rule_name ex_root ex_names (5%positive, "r") ex_long = None.
Proof. by vm_compute. Qed.

(** ** The theorems at work *)

Lemma new_rule_body_exported_shares_body_witness :
  refs_ok ex_fresh ∧
  ∃ st' l g,
    new_rule_body ex_root ex_names 2 "R" (Some 1%positive) (Some 1%positive) 1 ex_fresh
      = Some ((2%positive, "R"), st') ∧
    rule_at (2%positive, "R") st' = Some l ∧
    rule_at (1%positive, "MR") st' = Some g ∧
    arguments l = Some 1%positive ∧ arguments g = Some 1%positive ∧
    procedure l = Some 1%positive ∧ procedure g = Some 1%positive ∧
    (∃ c, count_at (arglists st') 1 = Some c ∧ 2 ≤ c) ∧
    (∃ c, count_at (parses st') 1 = Some c ∧ 2 ≤ c).
Proof.
  assert (Hok : refs_ok ex_fresh) by (apply refs_check_sound; reflexivity).
  split; [exact Hok|].
  destruct (new_rule_body_exported_shares_body ex_root ex_names 2 "R"
              (Some 1%positive) 1 1 ex_fresh Hok)
    as (st' & l & g & Hnew & Hl & Hg & Hla & Hga & Hlp & Hgp & Hca & Hcp & _).
  - discriminate.
  - discriminate.
  - reflexivity.
  - intros a Ha. injection Ha as <-. eexists. split; [reflexivity|]. left. reflexivity.
  - intros a Ha. injection Ha as <-. eexists. split; [reflexivity|]. left. reflexivity.
  - intros a Ha. injection Ha as <-. eexists. split; [reflexivity|]. discriminate.
  - intros a Ha. injection Ha as <-. eexists. split; [reflexivity|]. discriminate.
  - exists st', l, g. repeat (split; [assumption|]). split; [|exact Hcp].
    exact (Hca 1%positive eq_refl).
Defined.

Lemma install_same_object_keeps_it_witness :
  refs_ok ex_held ∧
  rule_at (2%positive, "R") ex_held
    = Some (Build_RULE (Some 1%positive) (Some 1%positive) (Some 1%positive) 2 0) ∧
  set_rule_actions (2%positive, "R") (Some 1%positive) ex_held = Some ex_held ∧
  ∃ st', set_rule_body (2%positive, "R") (Some 1%positive) (Some 1%positive) ex_held
           = Some st' ∧
         arglists st' = arglists ex_held.
Proof.
  assert (Hok : refs_ok ex_held) by (apply refs_check_sound; reflexivity).
  assert (Hr : rule_at (2%positive, "R") ex_held
    = Some (Build_RULE (Some 1%positive) (Some 1%positive) (Some 1%positive) 2 0))
    by reflexivity.
  split; [exact Hok|]. split; [exact Hr|].
  assert (Ra : room 1 (arglists ex_held) (Some 1%positive)).
  { intros a Ha. injection Ha as <-. eexists. split; [reflexivity|]. discriminate. }
  assert (Rp : room 1 (parses ex_held) (Some 1%positive)).
  { intros a Ha. injection Ha as <-. eexists. split; [reflexivity|]. discriminate. }
  assert (Rx : room 1 (actionss ex_held) (Some 1%positive)).
  { intros a Ha. injection Ha as <-. eexists. split; [reflexivity|]. discriminate. }
  destruct (install_same_object_keeps_it _ _ _ Hok Hr Ra Rp Rx)
    as (Hargs & _ & Hacts & _).
  split; [exact Hacts|].
  destruct (Hargs (Some 1%positive) Rp) as (st' & Hset & Hsame & _).
  exists st'. split; assumption.
Defined.

Lemma ex_settings_is_settings :
  is_settings (settings_nodes ex_settings) (Some 1%positive) [1%positive; 2%positive]
    [("X", ["1"]); ("Y", ["2"])].
Proof.
  split.
  - apply NoDup_cons_2; [|apply NoDup_singleton].
    intros Hin. apply list_elem_of_singleton in Hin. discriminate.
  - simpl. split; [reflexivity|]. eexists. split; [reflexivity|].
    split; [reflexivity|]. split; [reflexivity|].
    split; [reflexivity|]. eexists. split; [reflexivity|].
    split; [reflexivity|]. split; reflexivity.
Defined.

Lemma ex_settings_symbols : NoDup [("X", ["1"]); ("Y", ["2"])].*1.
Proof.
  apply NoDup_cons_2; [|apply NoDup_singleton].
  intros Hin. apply list_elem_of_singleton in Hin. discriminate.
Defined.

Lemma push_then_pop_restores_witness :
  is_settings (settings_nodes ex_settings) (Some 1%positive) [1%positive; 2%positive]
    [("X", ["1"]); ("Y", ["2"])] ∧
  NoDup [("X", ["1"]); ("Y", ["2"])].*1 ∧
  ∃ st1 st2,
    pushsettings (Some 1%positive) ex_settings = Some st1 ∧
    popsettings (Some 1%positive) st1 = Some st2 ∧
    var_get "X" (variables st1) = ["1"] ∧
    var_get "X" (variables st2) = ["old"] ∧
    var_get "Y" (variables st2) = [].
Proof.
  split; [exact ex_settings_is_settings|]. split; [exact ex_settings_symbols|].
  destruct (push_then_pop_restores _ _ _ _ ex_settings_is_settings ex_settings_symbols)
    as (st1 & st2 & Hpush & _ & Hpop & Hin & Hback & _).
  exists st1, st2. split; [exact Hpush|]. split; [exact Hpop|]. split; [|split].
  - apply Hin. apply list_elem_of_here.
  - exact (Hback "X").
  - exact (Hback "Y").
Defined.

Lemma define_rule_clears_foreign_slot_witness :
  refs_ok ex_held ∧
  ∃ st',
    define_rule 3 "R" 2 ex_held = Some ((2%positive, "R"), st') ∧
    rule_at (2%positive, "R") st' = Some (Build_RULE None None None 3 0) ∧
    arglists st' !! 1%positive = None.
Proof.
  assert (Hok : refs_ok ex_held) by (apply refs_check_sound; reflexivity).
  split; [exact Hok|].
  destruct (define_rule_clears_foreign_slot 3 "R" 2 ex_held Hok) as [Hforeign _].
  destruct Hforeign as (st' & Hdef & Hr & Ha & _); [discriminate|].
  exists st'. split; [exact Hdef|]. split; [exact Hr|].
  rewrite (Ha 1%positive). reflexivity.
Defined.

Lemma addsettings_replaces_appends_or_links_witness :
  is_settings (settings_nodes ex_settings) (Some 1%positive) [1%positive; 2%positive]
    [("X", ["1"]); ("Y", ["2"])] ∧
  ∃ st',
    addsettings (Some 1%positive) 0 "X" ["9"] ex_settings = Some (Some 1%positive, st') ∧
    freed_lists st' = [["1"]] ∧
    is_settings (settings_nodes st') (Some 1%positive) [1%positive; 2%positive]
      [("X", ["9"]); ("Y", ["2"])].
Proof.
  split; [exact ex_settings_is_settings|].
  destruct (addsettings_replaces_appends_or_links (Some 1%positive) _ _ 0 "X" ["9"]
              ex_settings ex_settings_is_settings) as (Hfound & _).
  - intros f Hf. discriminate.
  - destruct (Hfound [] ["1"] [("Y", ["2"])] eq_refl) as (st' & Hadd & _ & Hrep & _).
    + apply not_elem_of_nil.
    + destruct (Hrep eq_refl) as [Hset Hfreed].
      exists st'. split; [exact Hadd|]. split; [exact Hfreed|exact Hset].
Defined.

Lemma chains_append_in_order_witness :
  is_chain (targets_nodes empty_targets) None [] ∧
  ∃ p' st' tbl,
    targetlist None ["a"; "b"; "a"] empty_targets = Some (p', st') ∧
    is_chain (targets_nodes st') p' ["a"; "b"; "a"] ∧
    targethash st' = Some tbl ∧
    tbl !! "a" = Some (Build_TARGET "a" "a" 0) ∧
    bindtarget "a" st' = ("a", st').
Proof.
  split; [apply is_chain_empty|].
  destruct (chains_append_in_order empty_targets None [] ["a"; "b"; "a"] ∅ None []
              [7%positive; 8%positive; 7%positive]
              (is_chain_empty _) (is_chain_empty _))
    as ((p' & st' & Htl & Hch & _ & _ & Hrec & _ & Hbound) & _).
  destruct (Hrec "a" (list_elem_of_here _ _)) as (tbl & Htbl & Ha).
  exists p', st', tbl. split; [exact Htl|]. split; [exact Hch|].
  split; [exact Htbl|]. split; [exact Ha|].
  apply Hbound. apply list_elem_of_here.
Defined.

Lemma bindrule_falls_back_to_existing_witness :
  rule_at (2%positive, "R") ex_root_rule = None ∧
  rule_at (1%positive, "R") ex_root_rule
    = Some (Build_RULE (Some 1%positive) None None 1 0) ∧
  bindrule ex_root "R" 2 ex_root_rule = ((1%positive, "R"), ex_root_rule) ∧
  procedure <$> rule_at (bindrule ex_root "R" 2 ex_root_rule).1
                  (bindrule ex_root "R" 2 ex_root_rule).2
    = Some (Some 1%positive).
Proof.
  split; [reflexivity|]. split; [reflexivity|].
  destruct (bindrule_falls_back_to_existing ex_root "R" 2 ex_root_rule
              (Build_RULE (Some 1%positive) None None 1 0) eq_refl eq_refl)
    as (Hb & _ & Hp).
  split; [exact Hb|exact Hp].
Defined.

Lemma global_rule_mirror_owner_witness :
  refs_ok ex_exported ∧
  ∃ st' gv,
    global_rule ex_root ex_names (2%positive, "R") ex_exported
      = Some ((1%positive, "MR"), st') ∧
    rule_at (1%positive, "MR") st' = Some gv ∧ module gv = 2%positive ∧
    st' = ex_exported.
Proof.
  assert (Hok : refs_ok ex_exported) by (apply refs_check_sound; reflexivity).
  split; [exact Hok|].
  destruct (global_rule_mirror_owner ex_root ex_names (2%positive, "R")
              (Build_RULE (Some 1%positive) (Some 1%positive) None 2 1)
              ex_exported Hok eq_refl)
    as (st' & gv & Hg & Hr & Hm & Hsame & _).
  - discriminate.
  - reflexivity.
  - exists st', gv. split; [exact Hg|]. split; [exact Hr|]. split; [exact Hm|].
    destruct (Hsame (Build_RULE (Some 1%positive) (Some 1%positive) None 2 0)
                eq_refl eq_refl) as [Hst _].
    exact Hst.
Defined.


(** * More of rules.c *)

(** ** Rules: stable slots, names, actions, imports *)

(** An object that does not exist is in no slot. *)
Lemma counted_absent `{Counted T} (f : RULE → option positive)
    (t : gmap (positive * string) RULE) (h : gmap positive T) r v a :
  counted f t h → h !! a = None → t !! r = Some v → f v ≠ Some a.
Proof.
  intros Hc Ha Hr Hv.
  destruct (counted_held f t h r v a Hc Hr Hv) as (o & Ho & _). congruence.
Qed.

(** X1.  A slot [define_rule] has returned is returned again, by
    [enter_rule] and by [define_rule] for the same source module, and
    nothing is changed by asking again. *)
Theorem define_rule_again src n tgt st r st' :
  define_rule src n tgt st = Some (r, st') →
  r = (tgt, n) ∧
  enter_rule n tgt st' = (r, st') ∧
  define_rule src n tgt st' = Some (r, st').
Proof.
  intros Hdef. rewrite define_rule_eq in Hdef. cbv zeta in Hdef.
  assert (Hslot : r = (tgt, n) ∧ ∃ v, rule_at (tgt, n) st' = Some v ∧ module v = src).
  { case_decide as Hm.
    - destruct (install None (arguments _) _) as [ha|]; [|done].
      destruct (install None (procedure _) _) as [hp|]; [|done].
      destruct (install None (actions _) _) as [hx|]; [|done].
      cbn [mbind option_bind] in Hdef. injection Hdef as <- <-.
      split; [done|]. eexists. split; [apply lookup_insert_eq|done].
    - injection Hdef as <- <-. split; [done|].
      exists (entered n tgt st). split; [apply entered_lookup|].
      by destruct (decide (module (entered n tgt st) = src)); [|exfalso; auto]. }
  destruct Hslot as (-> & v & Hv & Hmv).
  split; [done|]. rewrite define_rule_own by by rewrite (entered_present _ _ _ _ Hv).
  by rewrite (enter_rule_present _ _ _ _ Hv).
Qed.

Section MoreRules.
Variable root_module : positive.
Variable module_name : positive → string.

Set Default Proof Using "Type".

(** X2.  The qualified name of a rule of another module than the root,
    exactly: each of the two names is cut to the 4095 characters
    [strncat] may take, and the call is defined when, and only when, what
    is left of both fits the buffer of 4096 bytes with its NUL; then it is
    the one followed by the other. *)
Theorem global_rule_name_exact r v st :
  rule_at r st = Some v → module v ≠ root_module →
  global_rule_name root_module module_name r st =
    if decide (Z.min (NAME_SIZE - 1) (strlen (module_name (module v)))
               + Z.min (NAME_SIZE - 1) (strlen r.2) < NAME_SIZE)
    then Some (take_chars (Z.to_nat (NAME_SIZE - 1)) (module_name (module v))
               +:+ take_chars (Z.to_nat (NAME_SIZE - 1)) r.2)
    else None.
Proof.
  intros Hr Hm. unfold global_rule_name. rewrite Hr.
  cbn [mbind option_bind]. rewrite decide_False by done.
  assert (HN : NAME_SIZE = 4096) by done.
  pose proof (strlen_nonneg (module_name (module v))).
  pose proof (strlen_nonneg r.2).
  rewrite strncat_Some by (change (strlen "") with 0; lia).
  cbn [mbind option_bind]. change ("" +:+ ?x)%string with x.
  case_decide as Hfit.
  - rewrite strncat_Some; [done|lia|].
    rewrite strlen_take_chars by lia. lia.
  - rewrite strncat_None; [done|lia|].
    rewrite strlen_take_chars by lia. lia.
Qed.

(** X3.  [bindrule] gives the same record when asked again, and all it
    ever changes is to add the empty slot of the name to the root module:
    no record that exists is changed, and no shared object is touched. *)
Theorem bindrule_only_adds_an_empty_root_slot rname m st :
  bindrule root_module rname m (bindrule root_module rname m st).2
    = bindrule root_module rname m st ∧
  arglists (bindrule root_module rname m st).2 = arglists st ∧
  parses (bindrule root_module rname m st).2 = parses st ∧
  actionss (bindrule root_module rname m st).2 = actionss st ∧
  (∀ k v, rule_at k st = Some v →
          rule_at k (bindrule root_module rname m st).2 = Some v) ∧
  (∀ k v, rule_at k (bindrule root_module rname m st).2 = Some v →
          rule_at k st = Some v ∨
          k = (root_module, rname) ∧ v = Build_RULE None None None root_module 0).
Proof.
  unfold bindrule, rule_at.
  destruct (rule_tables st !! (m, rname)) as [v0|] eqn:Hm.
  - cbn [snd]. rewrite Hm. repeat split; auto.
  - unfold enter_rule.
    destruct (rule_tables st !! (root_module, rname)) as [v1|] eqn:Hroot.
    + cbn [snd]. rewrite Hm. unfold enter_rule. rewrite Hroot.
      repeat split; auto.
    + cbn [snd write_rule set_rule_tables rule_tables arglists parses actionss].
      assert (Hagain :
        match <[(root_module, rname) := Build_RULE None None None root_module 0]>
                (rule_tables st) !! (m, rname) with
        | Some _ => ((m, rname),
                     Build_rules_state
                       (<[(root_module, rname) := Build_RULE None None None root_module 0]>
                          (rule_tables st))
                       (arglists st) (parses st) (actionss st))
        | None =>
            enter_rule rname root_module
              (Build_rules_state
                 (<[(root_module, rname) := Build_RULE None None None root_module 0]>
                    (rule_tables st))
                 (arglists st) (parses st) (actionss st))
        end
        = ((root_module, rname),
           Build_rules_state
             (<[(root_module, rname) := Build_RULE None None None root_module 0]>
                (rule_tables st))
             (arglists st) (parses st) (actionss st))).
      { destruct (decide (root_module = m)) as [<-|Hne].
        - by rewrite lookup_insert_eq.
        - rewrite lookup_insert_ne by congruence. rewrite Hm.
          unfold enter_rule. cbn [rule_tables]. by rewrite lookup_insert_eq. }
      split; [exact Hagain|]. do 3 (split; [done|]). split.
      * intros k v Hk. rewrite lookup_insert_ne; [done|]. congruence.
      * intros k v. destruct (decide ((root_module, rname) = k)) as [<-|Hk].
        -- rewrite lookup_insert_eq. intros [= <-]. by right.
        -- rewrite lookup_insert_ne by done. by left.
Qed.

End MoreRules.

Lemma hit_new a : hit (Some a) a = 1.
Proof. unfold hit. by rewrite decide_True. Qed.

Lemma hit_other p a : p ≠ Some a → hit p a = 0.
Proof. intros Hne. unfold hit. by rewrite decide_False. Qed.

Section MoreActions.
Variable root_module : positive.
Variable module_name : positive → string.

Set Default Proof Using "Type".

(** [global_rule] succeeds on a state that keeps the discipline, keeps it,
    and changes no slot but the mirror. *)
Lemma global_rule_ok r v st :
  refs_ok st → rule_at r st = Some v →
  (module v = root_module ∨
   strlen (module_name (module v)) + strlen r.2 < NAME_SIZE) →
  ∃ st' vg,
    global_rule root_module module_name r st = Some (mirror_of root_module module_name r v, st') ∧
    refs_ok st' ∧ rule_at (mirror_of root_module module_name r v) st' = Some vg ∧
    (∀ k, k ≠ mirror_of root_module module_name r v → rule_at k st' = rule_at k st) ∧
    (module v = root_module → st' = st ∧ vg = v).
Proof.
  intros Hok Hr Hfit. unfold mirror_of.
  destruct (decide (module v = root_module)) as [Hm|Hm].
  - exists st, v. unfold global_rule. rewrite Hr. cbn [mbind option_bind].
    rewrite decide_True by done. do 4 (split; [done|]). done.
  - destruct Hfit as [?|Hfit]; [done|].
    rewrite (global_rule_eq _ _ r v st Hr Hm Hfit).
    destruct (define_rule_ok (module v) (module_name (module v) +:+ r.2)
                root_module st Hok)
      as (st' & vg & Hdef & Hok' & Hg & _ & Hother & _).
    exists st', vg. do 4 (split; [done|]). done.
Qed.

(** [new_rule_actions] on a state that keeps the discipline. *)
Lemma new_rule_actions_spec m rname cmd bl fl st :
  refs_ok st →
  (m = root_module ∨ strlen (module_name m) + strlen rname < NAME_SIZE) →
  ∃ st' x l g,
    new_rule_actions root_module module_name m rname cmd bl fl st
      = Some ((m, rname), st') ∧
    refs_ok st' ∧
    rule_at (m, rname) st' = Some l ∧ module l = m ∧
    rule_at (mirror_of root_module module_name (m, rname) l) st' = Some g ∧
    actions l = Some x ∧ actions g = Some x ∧
    actionss st' !! x
      = Some (Build_rule_actions cmd bl fl (if decide (m = root_module) then 1 else 2)).
Proof.
  intros Hok Hfit. unfold new_rule_actions.
  destruct (define_rule_ok m rname m st Hok)
    as (st1 & v1 & Hdef & Hok1 & Hr1 & Hm1 & _).
  rewrite Hdef. cbn [mbind option_bind].
  destruct (global_rule_ok (m, rname) v1 st1 Hok1 Hr1)
    as (st2 & vg & Hglob & Hok2 & Hg2 & Hother2 & Hroot2).
  { rewrite Hm1. exact Hfit. }
  rewrite Hglob. cbn [mbind option_bind].
  set (G := mirror_of root_module module_name (m, rname) v1) in *.
  assert (HL2 : ∃ v2, rule_at (m, rname) st2 = Some v2 ∧ module v2 = m ∧
                      (G = (m, rname) → vg = v2)).
  { destruct (decide (G = (m, rname))) as [HG|HG].
    - exists vg. rewrite <-HG. split; [done|]. split; [|done].
      unfold G, mirror_of in HG. case_decide as Hd; [|congruence].
      destruct (Hroot2 Hd) as [_ ->]. done.
    - exists v1. split; [by rewrite Hother2|]. split; [done|]. done. }
  destruct HL2 as (v2 & HL2 & Hm2 & HGL).
  destruct (actions_new_ok cmd bl fl st2 Hok2) as (Hfresh & Hok3 & Ht3 & Hnew).
  destruct (actions_new cmd bl fl st2) as [x st3]. cbn [fst snd] in *.
  assert (HL3 : rule_at (m, rname) st3 = Some v2) by (unfold rule_at; by rewrite Ht3).
  destruct Hok2 as (_ & _ & Hx2).
  destruct (set_rule_actions_ok (m, rname) v2 (Some x) st3 Hok3 HL3)
    as (st4 & Hset4 & Hok4 & Ht4 & _ & _ & Hi4).
  { intros ? [= <-]. rewrite Hnew. eexists. split; [done|]. by cbn. }
  rewrite Hset4. cbn [mbind option_bind].
  assert (HL4 : rule_at (m, rname) st4 = Some (with_actions (Some x) v2)).
  { unfold rule_at. rewrite Ht4. apply lookup_insert_eq. }
  rewrite HL4. cbn [mbind option_bind actions with_actions].
  assert (Hx4 : actionss st4 !! x = Some (Build_rule_actions cmd bl fl 1)).
  { rewrite (install_lookup _ _ _ _ x Hi4), Hnew. cbn [mbind option_bind].
    cbv zeta.
    assert (Hold : actions v2 ≠ Some x)
      by exact (counted_absent actions _ _ _ v2 x Hx2 Hfresh HL2).
    rewrite (hit_new x), (hit_other _ x Hold).
    rewrite decide_False by by intros [? ?]. done. }
  assert (Hmirror : mirror_of root_module module_name (m, rname) (with_actions (Some x) v2) = G).
  { unfold G, mirror_of. cbn [module with_actions]. by rewrite Hm1, Hm2. }
  destruct (decide (G = (m, rname))) as [HG|HG].
  - (* the root module: the mirror is the rule itself *)
    assert (Hroot : m = root_module).
    { unfold G, mirror_of in HG. case_decide as Hd; congruence. }
    rewrite HG.
    destruct (set_rule_actions_ok (m, rname) _ (Some x) st4 Hok4 HL4)
      as (st5 & Hset5 & Hok5 & Ht5 & _ & _ & Hi5).
    { intros ? [= <-]. rewrite Hx4. eexists. split; [done|]. by cbn. }
    rewrite Hset5. cbn [mbind option_bind].
    cbn [actions with_actions] in Hi5.
    rewrite (install_self _ x _ Hx4) in Hi5 by by cbn.
    injection Hi5 as Hi5.
    exists st5, x, (with_actions (Some x) (with_actions (Some x) v2)),
      (with_actions (Some x) (with_actions (Some x) v2)).
    split; [done|]. split; [done|].
    assert (Hl5 : rule_at (m, rname) st5
      = Some (with_actions (Some x) (with_actions (Some x) v2))).
    { unfold rule_at. rewrite Ht5. apply lookup_insert_eq. }
    split; [done|]. split; [done|].
    split. { unfold mirror_of. cbn [module with_actions]. rewrite Hm2.
             by rewrite decide_True. }
    split; [done|]. split; [done|].
    rewrite <-Hi5, Hx4. by rewrite decide_True.
  - assert (Hroot : m ≠ root_module).
    { intros ->. apply HG. unfold G, mirror_of. rewrite Hm1. by rewrite decide_True. }
    assert (HG4 : rule_at G st4 = Some vg).
    { unfold rule_at. rewrite Ht4, lookup_insert_ne by done. by rewrite Ht3. }
    destruct (set_rule_actions_ok G vg (Some x) st4 Hok4 HG4)
      as (st5 & Hset5 & Hok5 & Ht5 & _ & _ & Hi5).
    { intros ? [= <-]. rewrite Hx4. eexists. split; [done|]. by cbn. }
    rewrite Hset5. cbn [mbind option_bind].
    exists st5, x, (with_actions (Some x) v2), (with_actions (Some x) vg).
    split; [done|]. split; [done|].
    unfold rule_at. rewrite Ht5.
    split; [rewrite lookup_insert_ne by done; exact HL4|]. split; [done|].
    rewrite Hmirror. split; [apply lookup_insert_eq|].
    split; [done|]. split; [done|].
    rewrite (install_lookup _ _ _ _ x Hi5), Hx4. cbn [mbind option_bind].
    cbv zeta.
    assert (Hold : actions vg ≠ Some x)
      by exact (counted_absent actions _ _ _ vg x Hx2 Hfresh Hg2).
    rewrite (hit_new x), (hit_other _ x Hold).
    rewrite decide_False by by intros [? ?].
    by rewrite decide_False.
Qed.

End MoreActions.

Section MoreSharing.
Variable root_module : positive.
Variable module_name : positive → string.

Set Default Proof Using "Type".

(** X4.  [new_rule_actions] on a state that keeps the discipline (and with
    a qualified name that fits, outside the root module) succeeds and
    keeps the discipline; the rule and its mirror hold one new template
    with the command, the bind list and the flags given, counted once for
    each slot: twice for a rule outside the root module, once for a rule
    of the root module, which is its own mirror. *)
Theorem new_rule_actions_counts_each_slot m rname cmd bl fl st :
  refs_ok st →
  (m = root_module ∨ strlen (module_name m) + strlen rname < NAME_SIZE) →
  ∃ st' x l g,
    new_rule_actions root_module module_name m rname cmd bl fl st
      = Some ((m, rname), st') ∧
    refs_ok st' ∧
    rule_at (m, rname) st' = Some l ∧
    rule_at (if decide (m = root_module) then (m, rname)
             else (root_module, (module_name m +:+ rname)%string)) st' = Some g ∧
    actions l = Some x ∧ actions g = Some x ∧
    actionss st' !! x
      = Some (Build_rule_actions cmd bl fl (if decide (m = root_module) then 1 else 2)).
Proof.
  intros Hok Hfit.
  destruct (new_rule_actions_spec root_module module_name m rname cmd bl fl st Hok Hfit)
    as (st' & x & l & g & Hnew & Hok' & Hl & Hm & Hg & Hal & Hag & Hx).
  exists st', x, l, g. unfold mirror_of in Hg. rewrite Hm in Hg. cbn [snd] in Hg.
  by repeat (split; [done|]).
Qed.

(** X5.  The template of a rule outside the root module lives until both
    slots have given it up: when the rule's actions are cleared it is
    still there, counted once, for the mirror; when the mirror's actions
    are cleared too it is freed. *)
Theorem shared_template_freed_after_both_release m rname cmd bl fl st :
  refs_ok st → m ≠ root_module →
  strlen (module_name m) + strlen rname < NAME_SIZE →
  ∃ st' x st1 st2,
    new_rule_actions root_module module_name m rname cmd bl fl st
      = Some ((m, rname), st') ∧
    set_rule_actions (m, rname) None st' = Some st1 ∧
    actionss st1 !! x = Some (Build_rule_actions cmd bl fl 1) ∧
    (actions <$> rule_at (root_module, (module_name m +:+ rname)%string) st1)
      = Some (Some x) ∧
    set_rule_actions (root_module, (module_name m +:+ rname)%string) None st1
      = Some st2 ∧
    actionss st2 !! x = None.
Proof.
  intros Hok Hm Hfit.
  destruct (new_rule_actions_spec root_module module_name m rname cmd bl fl st Hok
              (or_intror Hfit))
    as (st' & x & l & g & Hnew & Hok' & Hl & Hml & Hg & Hal & Hag & Hx).
  unfold mirror_of in Hg. rewrite Hml in Hg. cbn [snd] in Hg.
  rewrite decide_False in Hg by done. rewrite decide_False in Hx by done.
  set (G := (root_module, (module_name m +:+ rname)%string)) in *.
  assert (Hne : (m, rname) ≠ G) by (unfold G; congruence).
  destruct (set_rule_actions_ok (m, rname) l None st' Hok' Hl (room_None _ _))
    as (st1 & Hset1 & Hok1 & Ht1 & _ & _ & Hi1).
  assert (Hx1 : actionss st1 !! x = Some (Build_rule_actions cmd bl fl 1)).
  { rewrite (install_lookup _ _ _ _ x Hi1), Hx. cbn [mbind option_bind]. cbv zeta.
    rewrite Hal, hit_None, (hit_new x).
    rewrite decide_False by (intros [? ?]; cbn in *; lia). done. }
  assert (Hg1 : rule_at G st1 = Some g).
  { unfold rule_at. rewrite Ht1, lookup_insert_ne by done. exact Hg. }
  destruct (set_rule_actions_ok G g None st1 Hok1 Hg1 (room_None _ _))
    as (st2 & Hset2 & _ & _ & _ & _ & Hi2).
  exists st', x, st1, st2. split; [done|]. split; [done|]. split; [done|].
  split; [by rewrite Hg1; cbn; rewrite Hag|]. split; [done|].
  rewrite (install_lookup _ _ _ _ x Hi2), Hx1. cbn [mbind option_bind]. cbv zeta.
  rewrite Hag, hit_None, (hit_new x).
  by rewrite decide_True by (split; [done|cbn; lia]).
Qed.

End MoreSharing.

(** X6.  [import_rule] on a state that keeps the discipline, for a source
    whose objects can take one more reference, succeeds and keeps the
    discipline: the destination slot in the module and under the name
    given holds the source's argument list, procedure and actions (the
    same objects, not copies), is owned by the module that owns the source,
    and no other slot is changed. *)
Theorem import_rule_shares_the_source source m nm st src :
  refs_ok st → rule_at source st = Some src →
  room 1 (arglists st) (arguments src) → room 1 (parses st) (procedure src) →
  room 1 (actionss st) (actions src) →
  ∃ st' d,
    import_rule source m nm st = Some ((m, nm), st') ∧ refs_ok st' ∧
    rule_at (m, nm) st' = Some d ∧
    arguments d = arguments src ∧ procedure d = procedure src ∧
    actions d = actions src ∧ module d = module src ∧
    (∀ a, arguments src = Some a → ∃ o, arglists st' !! a = Some o ∧ 1 ≤ count o) ∧
    (∀ a, procedure src = Some a → ∃ o, parses st' !! a = Some o ∧ 1 ≤ count o) ∧
    (∀ a, actions src = Some a → ∃ o, actionss st' !! a = Some o ∧ 1 ≤ count o) ∧
    ∀ r, r ≠ (m, nm) → rule_at r st' = rule_at r st.
Proof.
  intros Hok Hsrc Ra Rp Rx.
  destruct (import_rule_ok source m nm st src Hok Hsrc Ra Rp Rx)
    as (st' & d & Himp & Hok' & Hd & Ha & Hp & Hx & Hm & Hother).
  exists st', d. do 7 (split; [done|]).
  destruct Hok' as (Ca & Cp & Cx).
  split; [|split; [|split; [|done]]].
  - intros a Hsa. apply (counted_held arguments _ _ (m, nm) d a Ca Hd). congruence.
  - intros a Hsa. apply (counted_held procedure _ _ (m, nm) d a Cp Hd). congruence.
  - intros a Hsa. apply (counted_held actions _ _ (m, nm) d a Cx Hd). congruence.
Qed.

(** X7.  A rule imported into the module [m] under a name, on a state
    that keeps the discipline and for a source whose objects can take one
    more reference, and then defined there by [define_rule] with [m] as
    the source module.  The import leaves the slot owned by the module
    that owns the source.  When that module is [m] itself, the definition
    finds a slot of its own and changes nothing.  When it is another
    module, the definition clears the slot, so that nothing of the import
    is left in it, and the slot is now owned by [m], with the [exported]
    flag it had; no other slot is changed by the two calls together; and
    when moreover the source is not that very slot (a rule imported onto
    itself is the one that is cleared), the source rule is as it was and
    the objects it holds are still there. *)
Theorem definition_after_import_clears_it source m nm st src :
  refs_ok st → rule_at source st = Some src →
  room 1 (arglists st) (arguments src) → room 1 (parses st) (procedure src) →
  room 1 (actionss st) (actions src) →
  ∃ st1 d,
    import_rule source m nm st = Some ((m, nm), st1) ∧
    rule_at (m, nm) st1 = Some d ∧ module d = module src ∧
    (module src = m → define_rule m nm m st1 = Some ((m, nm), st1)) ∧
    (module src ≠ m →
       ∃ st2,
         define_rule m nm m st1 = Some ((m, nm), st2) ∧
         rule_at (m, nm) st2 = Some (Build_RULE None None None m (exported d)) ∧
         (∀ r, r ≠ (m, nm) → rule_at r st2 = rule_at r st) ∧
         (source ≠ (m, nm) →
            rule_at source st2 = Some src ∧
            (∀ a, arguments src = Some a →
                  ∃ o, arglists st2 !! a = Some o ∧ 1 ≤ count o) ∧
            (∀ a, procedure src = Some a →
                  ∃ o, parses st2 !! a = Some o ∧ 1 ≤ count o) ∧
            (∀ a, actions src = Some a →
                  ∃ o, actionss st2 !! a = Some o ∧ 1 ≤ count o))).
Proof.
  intros Hok Hsrc Ra Rp Rx.
  destruct (import_rule_ok source m nm st src Hok Hsrc Ra Rp Rx)
    as (st1 & d & Himp & Hok1 & Hd & _ & _ & _ & Hmd & Hother1).
  assert (Hent : entered nm m st1 = d) by by apply entered_present.
  exists st1, d. do 3 (split; [done|]). split.
  - intros Hm. rewrite define_rule_own by (rewrite Hent; congruence).
    by rewrite (enter_rule_present _ _ _ _ Hd).
  - intros Hm.
    destruct (define_rule_foreign m nm m st1 Hok1)
      as (st2 & Hdef & Hd2 & _ & _ & _ & Hother2).
    { rewrite Hent. congruence. }
    destruct (define_rule_ok m nm m st1 Hok1) as (st2' & v' & Hdef' & Hok2 & _).
    assert (st2' = st2) as -> by congruence.
    exists st2. rewrite Hent in Hd2. do 2 (split; [done|]). split.
    { intros r Hr. rewrite Hother2 by done. by apply Hother1. }
    intros Hne.
    assert (Hsrc2 : rule_at source st2 = Some src).
    { rewrite Hother2 by done. by rewrite Hother1. }
    split; [done|]. destruct Hok2 as (Ca & Cp & Cx).
    split; [|split].
    + intros a Hsa. by apply (counted_held arguments _ _ source src a Ca Hsrc2).
    + intros a Hsa. by apply (counted_held procedure _ _ source src a Cp Hsrc2).
    + intros a Hsa. by apply (counted_held actions _ _ source src a Cx Hsrc2).
Qed.

(** ** Definitions that stay in their module *)

(** An installation changes nothing of an object but its count. *)
Lemma install_same_but_count `{Counted T} new old (h h' : gmap positive T) a o' :
  install new old h = Some h' → h' !! a = Some o' →
  ∃ o, h !! a = Some o ∧ o' = with_count (count o') o.
Proof.
  intros Hi Ha. rewrite (install_lookup _ _ _ _ a Hi) in Ha.
  destruct (h !! a) as [o|]; [|done]. cbn [mbind option_bind] in Ha.
  cbv zeta in Ha. case_decide; [done|]. injection Ha as <-.
  exists o. split; [done|]. by rewrite count_with_count.
Qed.

(** The count of an object that is neither installed nor given up. *)
Lemma install_elsewhere `{Counted T} new old (h h' : gmap positive T) a :
  install new old h = Some h' → new ≠ Some a → old ≠ Some a →
  h' !! a = h !! a.
Proof.
  intros Hi Hnew Hold. rewrite (install_lookup _ _ _ _ a Hi).
  destruct (h !! a) as [o|]; [|done]. cbn [mbind option_bind]. cbv zeta.
  rewrite (hit_other _ _ Hnew), (hit_other _ _ Hold).
  rewrite decide_False by by intros [? ?].
  by rewrite Z.add_0_r, Z.sub_0_r, with_count_count.
Qed.

(** The object installed over another one: one reference more. *)
Lemma install_new `{Counted T} old (h h' : gmap positive T) a o :
  install (Some a) old h = Some h' → h !! a = Some o → old ≠ Some a →
  h' !! a = Some (with_count (count o + 1) o).
Proof.
  intros Hi Ha Hold. rewrite (install_lookup _ _ _ _ a Hi), Ha.
  cbn [mbind option_bind]. cbv zeta.
  rewrite (hit_new a), (hit_other _ _ Hold).
  rewrite decide_False by by intros [? ?].
  by rewrite Z.sub_0_r.
Qed.

(** [define_rule] on a state that keeps the discipline, in full. *)
Lemma define_rule_result src n tgt st :
  refs_ok st →
  ∃ st',
    define_rule src n tgt st = Some ((tgt, n), st') ∧ refs_ok st' ∧
    rule_at (tgt, n) st' = Some (prepared src (entered n tgt st)) ∧
    (∀ r, r ≠ (tgt, n) → rule_at r st' = rule_at r st) ∧
    install None (given_up src arguments (entered n tgt st)) (arglists st)
      = Some (arglists st') ∧
    install None (given_up src procedure (entered n tgt st)) (parses st)
      = Some (parses st') ∧
    install None (given_up src actions (entered n tgt st)) (actionss st)
      = Some (actionss st').
Proof.
  intros Hok.
  destruct (define_rule_ok src n tgt st Hok)
    as (st' & v' & Hdef & Hok' & _ & _ & Hother & _).
  exists st'. do 2 (split; [done|]).
  rewrite define_rule_eq in Hdef. cbv zeta in Hdef.
  unfold prepared, given_up.
  destruct (decide (module (entered n tgt st) ≠ src)) as [Hm|Hm].
  - rewrite enter_rule_eq in Hdef. cbn [snd arglists parses actionss rule_tables] in Hdef.
    destruct (install None (arguments _) (arglists st)) as [ha|]; [|done].
    destruct (install None (procedure _) (parses st)) as [hp|]; [|done].
    destruct (install None (actions _) (actionss st)) as [hx|]; [|done].
    cbn [mbind option_bind] in Hdef. injection Hdef as <-.
    split; [apply lookup_insert_eq|]. by split.
  - injection Hdef as <-. split; [apply entered_lookup|]. split; [done|].
    by rewrite enter_rule_eq.
Qed.

Section MoreBodies.
Variable root_module : positive.
Variable module_name : positive → string.

Set Default Proof Using "Type".

(** X8.  A definition by [new_rule_body] that is not exported, or is in
    the root module (where the rule is its own mirror), under these
    conditions: the state keeps the discipline; the procedure is not
    null; the argument list, when there is one, and the procedure are the
    caller's (new, or counted beyond the slots that hold them) and their
    counts can take two more references; and the procedure bears a name
    already, or the module is the root module, or the two names together
    fit the buffer of [global_rule_name] (which is called whether or not
    the rule is exported, and overruns the buffer otherwise).  Then the
    call succeeds and keeps the discipline; the slot holds the body, is
    owned by the module and has the [exported] flag given; no other slot
    is changed, so that no mirror comes to be; an object the slot did not
    hold before is counted exactly once more, also when [exported] is
    set; and the procedure bears the name it was stamped with before, or
    else the qualified name of the rule. *)
Theorem new_rule_body_local_takes_one_reference m rname args p exp st pv :
  refs_ok st → (exp = 0 ∨ m = root_module) →
  callers arguments (rule_tables st) (arglists st) args →
  callers procedure (rule_tables st) (parses st) (Some p) →
  room 2 (arglists st) args → room 2 (parses st) (Some p) →
  parses st !! p = Some pv →
  (is_Some (rulename pv) ∨ m = root_module ∨
   strlen (module_name m) + strlen rname < NAME_SIZE) →
  ∃ st' l pv',
    new_rule_body root_module module_name m rname args (Some p) exp st
      = Some ((m, rname), st') ∧
    refs_ok st' ∧
    rule_at (m, rname) st' = Some l ∧
    arguments l = args ∧ procedure l = Some p ∧ module l = m ∧ exported l = exp ∧
    (∀ k, k ≠ (m, rname) → rule_at k st' = rule_at k st) ∧
    parses st' !! p = Some pv' ∧
    rulename pv' = Some (default (qualified root_module module_name m rname) (rulename pv)) ∧
    (procedure (entered rname m st) ≠ Some p → count pv' = count pv + 1) ∧
    (∀ a o, args = Some a → arglists st !! a = Some o →
            arguments (entered rname m st) ≠ Some a →
            arglists st' !! a = Some (with_count (count o + 1) o)).
Proof.
  intros Hok Hlocal Ca Cp Ra Rp Hpv Hname. unfold new_rule_body.
  destruct (define_rule_result m rname m st Hok)
    as (st1 & Hdef & Hok1 & Hr1 & Hother1 & Hia1 & Hip1 & _).
  destruct (define_rule_ok m rname m st Hok)
    as (st1' & v1' & Hdef' & _ & Hr1' & Hm1 & _ & Ca1 & Cp1 & _ & Na1 & Np1 & _).
  assert (st1' = st1) as -> by congruence.
  rewrite Hdef. cbn [mbind option_bind]. rewrite Hr1. cbn [mbind option_bind].
  set (v0 := entered rname m st) in *.
  set (v1 := prepared m v0) in *.
  assert (v1' = v1) as -> by (unfold rule_at in *; congruence).
  specialize (Ca1 _ Ca). specialize (Cp1 _ Cp).
  assert (Ra1 : room 2 (arglists st1) args).
  { eapply room_no_more; [done..|]. intros a Ha. by eapply (callers_live arguments). }
  assert (Rp1 : room 2 (parses st1) (Some p)).
  { eapply room_no_more; [done..|]. intros a Ha. by eapply (callers_live procedure). }
  set (v2 := with_exported exp v1).
  assert (Hok2 : refs_ok (write_rule (m, rname) v2 st1))
    by by apply (write_rule_ok _ v1).
  assert (Hr2 : rule_at (m, rname) (write_rule (m, rname) v2 st1) = Some v2)
    by apply lookup_insert_eq.
  destruct (set_rule_body_ok (m, rname) v2 args (Some p) _ Hok2 Hr2)
    as (st3 & Hset & Hok3 & Ht3 & Hia3 & Hip3 & _).
  { by apply (room_weaken 2). }
  { by apply (room_weaken 2). }
  rewrite Hset. cbn [mbind option_bind].
  cbn [arglists parses write_rule set_rule_tables] in Hia3, Hip3.
  set (v3 := with_procedure (Some p) (with_arguments args v2)) in *.
  assert (Hr3 : rule_at (m, rname) st3 = Some v3).
  { unfold rule_at. rewrite Ht3. apply lookup_insert_eq. }
  pose proof Hok3 as (Ha3 & Hp3 & Hx3).
  destruct (counted_held procedure _ _ _ v3 p Hp3 Hr3 eq_refl) as (pv3 & Hpv3 & _).
  (* the procedure in [st3] is [pv] but for its count *)
  assert (Hsame3 : pv3 = with_count (count pv3) pv).
  { destruct (install_same_but_count _ _ _ _ _ _ Hip3 Hpv3) as (pv1 & Hpv1 & ->).
    destruct (install_same_but_count _ _ _ _ _ _ Hip1 Hpv1) as (pv0 & Hpv0 & ->).
    assert (pv0 = pv) as -> by congruence.
    by rewrite count_with_count, !with_count_twice. }
  assert (Hcount3 : procedure v0 ≠ Some p → count pv3 = count pv + 1).
  { intros Hnot.
    assert (Hp1 : parses st1 !! p = Some pv).
    { rewrite (install_elsewhere _ _ _ _ p Hip1); [done..|].
      unfold given_up. by case_decide. }
    assert (Hold : procedure v2 ≠ Some p).
    { unfold v2, v1, prepared. cbn. by case_decide. }
    rewrite (install_new _ _ _ p pv Hip3 Hp1 Hold) in Hpv3.
    injection Hpv3 as <-. done. }
  assert (Hargs3 : ∀ a o, args = Some a → arglists st !! a = Some o →
            arguments v0 ≠ Some a →
            arglists st3 !! a = Some (with_count (count o + 1) o)).
  { intros a o -> Ho Hnot.
    assert (Ho1 : arglists st1 !! a = Some o).
    { rewrite (install_elsewhere _ _ _ _ a Hia1); [done..|].
      unfold given_up. by case_decide. }
    assert (Hold : arguments v2 ≠ Some a).
    { unfold v2, v1, prepared. cbn. by case_decide. }
    exact (install_new _ _ _ a o Hia3 Ho1 Hold). }
  rewrite Hpv3. cbn [mbind option_bind].
  assert (Hm3 : module v3 = m) by (subst v3 v2; cbn; congruence).
  (* the stamp *)
  assert (Hstamp : ∃ st4 pv4,
    match rulename pv3 with
    | Some _ => Some st3
    | None =>
        gname ← global_rule_name root_module module_name (m, rname) st3;
        Some (set_parses (<[p := Build_PARSE (refs pv3) (Some gname)]> (parses st3)) st3)
    end = Some st4 ∧ refs_ok st4 ∧ rule_tables st4 = rule_tables st3 ∧
    arglists st4 = arglists st3 ∧ parses st4 !! p = Some pv4 ∧
    count pv4 = count pv3 ∧
    rulename pv4 = Some (default (qualified root_module module_name m rname) (rulename pv))).
  { assert (Hrn : rulename pv3 = rulename pv) by (by rewrite Hsame3).
    rewrite Hrn. destruct (rulename pv) as [s|] eqn:Hs.
    - exists st3, pv3. rewrite Hrn. by repeat (split; [done|]).
    - assert (Hg : global_rule_name root_module module_name (m, rname) st3
                   = Some (qualified root_module module_name m rname)).
      { unfold qualified. destruct (decide (m = root_module)) as [Hroot|Hroot].
        - rewrite (global_rule_name_root _ _ _ v3 st3 Hr3); [done|congruence].
        - destruct Hname as [[? ?]|[?|Hfit]]; [done..|].
          rewrite (global_rule_name_fits _ _ _ v3 st3 Hr3); rewrite ?Hm3; done. }
      rewrite Hg. cbn [mbind option_bind]. eexists _, _. split; [done|].
      split; [by apply stamp_ok|]. split; [done|]. split; [done|].
      cbn [parses set_parses]. rewrite lookup_insert_eq. by repeat split. }
  destruct Hstamp as (st4 & pv4 & -> & Hok4 & Ht4 & Ea4 & Hpv4 & Hc4 & Hn4).
  cbn [mbind option_bind].
  assert (Hr4 : rule_at (m, rname) st4 = Some v3) by (unfold rule_at; by rewrite Ht4).
  assert (Hfinal : ∀ k, k ≠ (m, rname) → rule_at k st4 = rule_at k st).
  { intros k Hk. unfold rule_at. rewrite Ht4, Ht3, lookup_insert_ne by done.
    cbn [rule_tables write_rule set_rule_tables]. rewrite lookup_insert_ne by done.
    by apply Hother1. }
  assert (Hdone : ∃ l, rule_at (m, rname) st4 = Some l ∧ arguments l = args ∧
            procedure l = Some p ∧ module l = m ∧ exported l = exp).
  { exists v3. by subst v3 v2. }
  destruct (decide (exp ≠ 0)) as [Hexp|Hexp].
  - (* exported, in the root module: the mirror is the rule itself *)
    destruct Hlocal as [?|Hroot]; [done|].
    unfold global_rule. rewrite Hr4. cbn [mbind option_bind].
    rewrite decide_True by congruence. cbn [mbind option_bind].
    assert (Hself : set_rule_body (m, rname) args (Some p) st4 = Some st4).
    { rewrite (set_rule_body_eq _ v3) by done.
      destruct Hok4 as (Ha4 & Hp4 & Hx4).
      assert (Hia : install args (arguments v3) (arglists st4) = Some (arglists st4)).
      { change args with (arguments v3) at 1.
        apply (install_held arguments _ _ (m, rname) v3 Ha4 Hr4).
        change (arguments v3) with args. rewrite Ea4.
        eapply (room_install _ _ _ _ 1); [exact Hia3|done|].
        intros a Ha.
        destruct (counted_held arguments _ _ _ v3 a Ha3 Hr3 Ha) as (o & -> & _).
        eauto. }
      assert (Hip : install (Some p) (procedure v3) (parses st4) = Some (parses st4)).
      { change (Some p) with (procedure v3) at 1.
        apply (install_held procedure _ _ (m, rname) v3 Hp4 Hr4).
        intros ? [= <-]. exists pv4. split; [done|]. rewrite Hc4.
        destruct (install_at_most _ _ _ _ _ _ Hip3 Hpv3) as (pv1 & Hpv1 & Hle).
        destruct (Rp1 p eq_refl) as (pv1' & Hpv1' & Hroom).
        assert (pv1' = pv1) as -> by congruence.
        pose proof (hit_range (Some p) p). lia. }
      rewrite Hia, Hip. cbn [mbind option_bind].
      change (with_procedure (Some p) (with_arguments args v3)) with v3.
      rewrite insert_id by done. by destruct st4. }
    rewrite Hself. cbn [mbind option_bind].
    destruct Hdone as (l & Hl & Hla & Hlp & Hlm & Hle).
    exists st4, l, pv4. do 8 (split; [done|]). split; [done|]. split; [done|].
    split; [by rewrite Hc4|]. intros a o Ha Ho Hnot. rewrite Ea4. by eapply Hargs3.
  - destruct Hdone as (l & Hl & Hla & Hlp & Hlm & Hle).
    exists st4, l, pv4. do 8 (split; [done|]). split; [done|]. split; [done|].
    split; [by rewrite Hc4|]. intros a o Ha Ho Hnot. rewrite Ea4. by eapply Hargs3.
Qed.

End MoreBodies.

(** ** Settings: the pool *)

Lemma pool_seg_dom (h : gmap positive SETTINGS) p fs f :
  pool_seg h p fs → f ∈ fs → is_Some (h !! f).
Proof.
  revert p. induction fs as [|f' fs IH]; intros p; simpl.
  - by intros _ ?%elem_of_nil.
  - intros (_ & n & Hn & Hrest) [->|Hin]%elem_of_cons; [eauto|]. by eapply IH.
Qed.

Lemma pool_seg_size (h : gmap positive SETTINGS) p fs :
  NoDup fs → pool_seg h p fs → (length fs ≤ size h)%nat.
Proof.
  intros Hnd Hseg.
  rewrite <-(size_list_to_set (C := gset positive) fs) by done.
  rewrite <-size_dom. apply subseteq_size.
  intros q Hq%elem_of_list_to_set. apply elem_of_dom.
  by eapply pool_seg_dom.
Qed.

Lemma pool_seg_frame (h h' : gmap positive SETTINGS) p fs :
  pool_seg h p fs → (∀ f, f ∈ fs → h' !! f = h !! f) → pool_seg h' p fs.
Proof.
  revert p. induction fs as [|f fs IH]; intros p; simpl; [done|].
  intros (-> & n & Hn & Hrest) Hsame. split; [done|].
  exists n. rewrite Hsame by apply list_elem_of_here. split; [done|].
  apply IH; [done|]. intros f' Hf'. apply Hsame. by apply list_elem_of_further.
Qed.

(** The loop of [freesettings]. *)
Lemma freesettings_from_spec ps : ∀ fuel p l fs st,
  settings_seg (settings_nodes st) p ps l →
  pool_seg (settings_nodes st) (settings_freelist st) fs →
  NoDup (ps ++ fs) → (length ps ≤ fuel)%nat →
  ∃ st',
    freesettings_from fuel p st = Some st' ∧
    pool_seg (settings_nodes st') (settings_freelist st') (reverse ps ++ fs) ∧
    freed_lists st' = freed_lists st ++ l.*2 ∧
    variables st' = variables st ∧
    dom (settings_nodes st') = dom (settings_nodes st) ∧
    (∀ q, q ∉ ps → settings_nodes st' !! q = settings_nodes st !! q).
Proof.
  induction ps as [|q ps IH]; intros fuel p [|[s v] l] fs st; simpl; try done.
  - intros -> Hpool _ _. exists st. destruct fuel; cbn.
    all: by rewrite app_nil_r.
  - intros (-> & n & Hn & Hs & Hv & Hrest) Hpool Hnd Hfuel.
    destruct fuel as [|fuel]; [lia|]. cbn [freesettings_from].
    rewrite Hn. cbn [mbind option_bind]. cbv zeta.
    apply NoDup_cons in Hnd as [Hq Hnd].
    apply not_elem_of_app in Hq as [Hqps Hqfs].
    set (st1 := set_settings_freelist _ _).
    assert (Hrest1 : settings_seg (settings_nodes st1) (next n) ps l).
    { eapply settings_seg_frame; [done|].
      intros q' Hq'. apply lookup_insert_ne. by intros ->. }
    assert (Hpool1 : pool_seg (settings_nodes st1) (settings_freelist st1) (q :: fs)).
    { simpl. split; [done|]. eexists. rewrite lookup_insert_eq. split; [done|].
      cbn [next with_next]. eapply pool_seg_frame; [done|].
      intros f Hf. apply lookup_insert_ne. by intros ->. }
    destruct (IH fuel (next n) l (q :: fs) st1 Hrest1 Hpool1)
      as (st' & Hfree & Hpool' & Hfreed & Hvars & Hdom & Hframe).
    { apply NoDup_app. apply NoDup_app in Hnd as (Hps & Hdisj & Hfs).
      split; [done|]. split; [|by apply NoDup_cons].
      intros x Hx [->|Hin]%elem_of_cons; [done|]. by eapply Hdisj. }
    { lia. }
    exists st'. split; [done|].
    split; [by rewrite reverse_cons, <-app_assoc|].
    split; [|split; [done|split]].
    + rewrite Hfreed. cbn. by rewrite Hv, <-app_assoc.
    + rewrite Hdom. cbn. apply dom_insert_lookup_L. eauto.
    + intros q' Hq'. apply not_elem_of_cons in Hq' as [Hne Hq'].
      rewrite Hframe by done. cbn. by rewrite lookup_insert_ne.
Qed.

(** The loop of [donerules]. *)
Lemma drain_freelist_spec fs : ∀ fuel st,
  pool_seg (settings_nodes st) (settings_freelist st) fs → NoDup fs →
  (length fs ≤ fuel)%nat →
  ∃ st',
    drain_freelist fuel st = Some st' ∧
    settings_freelist st' = None ∧
    variables st' = variables st ∧ freed_lists st' = freed_lists st ∧
    ∀ q, settings_nodes st' !! q
         = if decide (q ∈ fs) then None else settings_nodes st !! q.
Proof.
  induction fs as [|f fs IH]; intros fuel st; simpl.
  - intros Hnone _ _. exists st. destruct fuel; cbn; rewrite Hnone.
    all: repeat split; intros q; by rewrite decide_False by apply not_elem_of_nil.
  - intros (Hf & n & Hn & Hrest) Hnd Hfuel.
    destruct fuel as [|fuel]; [lia|]. cbn [drain_freelist].
    rewrite Hf, Hn. cbn [mbind option_bind].
    apply NoDup_cons in Hnd as [Hffs Hnd].
    set (st1 := set_settings_freelist _ _).
    assert (Hrest1 : pool_seg (settings_nodes st1) (settings_freelist st1) fs).
    { eapply pool_seg_frame; [done|].
      intros f' Hf'. apply lookup_delete_ne. by intros ->. }
    destruct (IH fuel st1 Hrest1 Hnd) as (st' & Hdrain & Hfl & Hvars & Hfreed & Hnodes);
      [lia|].
    exists st'. do 4 (split; [done|]). intros q. rewrite Hnodes. cbn.
    destruct (decide (q = f)) as [->|Hne].
    + rewrite (decide_True (P := f ∈ f :: fs)) by apply list_elem_of_here.
      case_decide; [done|]. apply lookup_delete_eq.
    + rewrite lookup_delete_ne by done.
      destruct (decide (q ∈ fs)) as [Hin|Hout].
      * by rewrite decide_True by by apply list_elem_of_further.
      * rewrite decide_False; [done|]. by intros [?|?]%elem_of_cons.
Qed.

(** X9.  [freesettings] on a well-formed list that shares no node with
    the pool: it succeeds, hands the values of the settings to [list_free]
    in the order of the list, and puts the nodes on the pool, the last
    node of the list first, before the nodes the pool had; no node is
    allocated or given back, no node outside the list is written, and no
    variable changes. *)
Theorem freesettings_pools_the_nodes head ps l fs st :
  is_settings (settings_nodes st) head ps l →
  pool_seg (settings_nodes st) (settings_freelist st) fs →
  NoDup (ps ++ fs) →
  ∃ st',
    freesettings head st = Some st' ∧
    pool_seg (settings_nodes st') (settings_freelist st') (reverse ps ++ fs) ∧
    freed_lists st' = freed_lists st ++ l.*2 ∧
    variables st' = variables st ∧
    dom (settings_nodes st') = dom (settings_nodes st) ∧
    (∀ q, q ∉ ps → settings_nodes st' !! q = settings_nodes st !! q).
Proof.
  intros [Hnd Hseg] Hpool Hdisj. unfold freesettings.
  apply freesettings_from_spec with (l := l); try done.
  by eapply settings_seg_size.
Qed.

(** X10.  Freeing a list that has a node and then adding a setting to no
    list: [addsettings] takes the node [freesettings] pooled last, which is
    the last node of the freed list, and allocates nothing; the new list is
    that one node with the setting, and the pool goes on with the rest. *)
Theorem addsettings_reuses_a_freed_node head ps q l fs append sym val st :
  is_settings (settings_nodes st) head (ps ++ [q]) l →
  pool_seg (settings_nodes st) (settings_freelist st) fs →
  NoDup ((ps ++ [q]) ++ fs) →
  ∃ st1 st2,
    freesettings head st = Some st1 ∧
    addsettings None append sym val st1 = Some (Some q, st2) ∧
    is_settings (settings_nodes st2) (Some q) [q] [(sym, val)] ∧
    pool_seg (settings_nodes st2) (settings_freelist st2) (reverse ps ++ fs) ∧
    dom (settings_nodes st2) = dom (settings_nodes st).
Proof.
  intros [Hnd Hseg] Hpool Hdisj.
  destruct (freesettings_from_spec (ps ++ [q]) (size (settings_nodes st)) head l fs st
              Hseg Hpool Hdisj)
    as (st1 & Hfree & Hpool1 & _ & _ & Hdom1 & _);
    [by eapply settings_seg_size|].
  rewrite reverse_app in Hpool1. simpl in Hpool1.
  destruct Hpool1 as (Hfl1 & n & Hn & Hrest1).
  exists st1. unfold addsettings. cbv zeta.
  assert (Hfind : find_setting (size (settings_nodes st1)) (settings_nodes st1) None sym
                  = Some None) by by destruct (size (settings_nodes st1)).
  rewrite Hfind. cbn [mbind option_bind]. rewrite Hfl1, Hn.
  cbn [mbind option_bind]. eexists. split; [done|]. split; [done|].
  cbn [settings_nodes set_settings_nodes set_settings_freelist settings_freelist].
  assert (Hq : q ∉ reverse ps ++ fs).
  { apply NoDup_app in Hdisj as (Hpsq & Hdisj & _).
    apply NoDup_app in Hpsq as (_ & Hdisj' & _).
    intros [Hin|Hin]%elem_of_app.
    - rewrite elem_of_reverse in Hin. apply (Hdisj' q Hin). apply list_elem_of_here.
    - apply (Hdisj q); [|done]. apply elem_of_app. right. apply list_elem_of_here. }
  split; [|split].
  - split; [apply NoDup_singleton|]. simpl. split; [done|]. eexists.
    rewrite lookup_insert_eq. by repeat split.
  - eapply pool_seg_frame; [done|]. intros f Hf. apply lookup_insert_ne. by intros ->.
  - rewrite <-Hdom1. apply dom_insert_lookup_L. eauto.
Qed.

(** X11.  [donerules] on a well-formed pool: it succeeds and gives every
    node of the pool back to the allocator, so that the pool is empty
    afterwards; the nodes of the settings in use, the variables and what
    was freed before are as they were. *)
Theorem donerules_drains_the_pool ts fs st :
  pool_seg (settings_nodes st) (settings_freelist st) fs → NoDup fs →
  ∃ st',
    donerules ts st = Some st' ∧
    settings_freelist st' = None ∧
    variables st' = variables st ∧ freed_lists st' = freed_lists st ∧
    (∀ q, q ∈ fs → settings_nodes st' !! q = None) ∧
    (∀ q, q ∉ fs → settings_nodes st' !! q = settings_nodes st !! q) ∧
    (∀ head ps l, is_settings (settings_nodes st) head ps l →
                  (∀ q, q ∈ ps → q ∉ fs) →
                  is_settings (settings_nodes st') head ps l).
Proof.
  intros Hpool Hnd. unfold donerules.
  destruct (drain_freelist_spec fs (size (settings_nodes st)) st Hpool Hnd)
    as (st' & Hdrain & Hfl & Hvars & Hfreed & Hnodes);
    [by eapply pool_seg_size|].
  exists st'. do 4 (split; [done|]). split; [|split].
  - intros q Hq. rewrite Hnodes. by rewrite decide_True.
  - intros q Hq. rewrite Hnodes. by rewrite decide_False.
  - intros head ps l [Hps Hseg] Hdisj. split; [done|].
    eapply settings_seg_frame; [done|].
    intros q Hq. rewrite Hnodes. rewrite decide_False; [done|]. by apply Hdisj.
Qed.

(** ** Targets *)

Lemma land_lor_same a b : Z.land (Z.lor a b) b = b.
Proof.
  apply Z.bits_inj'. intros i _. rewrite Z.land_spec, Z.lor_spec.
  by destruct (Z.testbit a i), (Z.testbit b i).
Qed.

Lemma lor_lor_same a b : Z.lor (Z.lor a b) b = Z.lor a b.
Proof. by rewrite <-Z.lor_assoc, Z.lor_diag. Qed.

(** X12.  [bindtarget] returns the record of the name and never fails:
    the table, set up when there was none, has the record the name had,
    or for a new name one bound to the name itself with no flag set; no
    other record and no chain is changed; and binding the name again
    changes nothing. *)
Theorem bindtarget_gets_or_creates s st :
  (bindtarget s st).1 = s ∧
  targethash (bindtarget s st).2
    = Some (<[s := default (Build_TARGET s s 0) (targets_of st !! s)]> (targets_of st)) ∧
  targets_nodes (bindtarget s st).2 = targets_nodes st ∧
  (∀ s', s' ≠ s → targets_of (bindtarget s st).2 !! s' = targets_of st !! s') ∧
  bindtarget s (bindtarget s st).2 = bindtarget s st.
Proof.
  assert (Hgen : ∀ tbl : gmap string TARGET, default ∅ (targethash st) = tbl →
    (bindtarget s st).1 = s ∧
    targethash (bindtarget s st).2
      = Some (<[s := default (Build_TARGET s s 0) (tbl !! s)]> tbl) ∧
    targets_nodes (bindtarget s st).2 = targets_nodes st ∧
    (∀ s', s' ≠ s → default ∅ (targethash (bindtarget s st).2) !! s' = tbl !! s') ∧
    bindtarget s (bindtarget s st).2 = bindtarget s st).
  { intros tbl Htbl. unfold bindtarget. cbv zeta. rewrite Htbl.
    destruct (tbl !! s) as [v|] eqn:Hv.
    - cbn [fst snd targethash targets_nodes].
      change (default ∅ (Some tbl)) with tbl. rewrite Hv.
      change (default ?d (Some v)) with v.
      rewrite insert_id by done. by repeat split.
    - cbn [fst snd targethash targets_nodes].
      change (default ∅ (Some ?x)) with x.
      change (default ?d None) with d.
      rewrite lookup_insert_eq. split; [done|]. split; [done|]. split; [done|].
      split; [|done]. intros s' Hne. by rewrite lookup_insert_ne. }
  unfold targets_of. by apply Hgen.
Qed.

(** X13.  [touchtarget] never fails: it binds the name, a new one
    included, and sets the bits of the flag in its record, all of which
    are set afterwards; the other flags, the names of the record, the
    other records and the chains are as [bindtarget] leaves them; and
    touching the target again changes nothing. *)
Theorem touchtarget_marks_the_target touched t st :
  ∃ st' v v',
    touchtarget touched t st = Some st' ∧
    targets_of (bindtarget t st).2 !! t = Some v ∧
    targets_of st' !! t = Some v' ∧
    target_flags v' = Z.lor (target_flags v) touched ∧
    Z.land (target_flags v') touched = touched ∧
    target_name v' = target_name v ∧ boundname v' = boundname v ∧
    (∀ s, s ≠ t → targets_of st' !! s = targets_of st !! s) ∧
    targets_nodes st' = targets_nodes st ∧
    touchtarget touched t st' = Some st'.
Proof.
  destruct (bindtarget_result t st) as (Hfst & Htbl & Hnodes).
  unfold touchtarget.
  destruct (bindtarget t st) as [p st1] eqn:Hbind. cbn [fst snd] in *. subst p.
  rewrite Htbl. cbn [mbind option_bind]. rewrite lookup_insert_eq.
  cbn [mbind option_bind].
  set (v := default (Build_TARGET t t 0) (targets_of st !! t)).
  set (tbl := <[t := v]> (targets_of st)).
  set (v' := Build_TARGET (target_name v) (boundname v) (Z.lor (target_flags v) touched)).
  eexists _, v, v'. split; [done|].
  assert (Hv1 : targets_of st1 !! t = Some v).
  { unfold targets_of. rewrite Htbl. apply lookup_insert_eq. }
  split; [done|]. unfold targets_of at 1. cbn [targethash default].
  change (default ∅ (Some ?x)) with x.
  split; [apply lookup_insert_eq|]. split; [done|].
  split; [apply land_lor_same|]. split; [done|]. split; [done|].
  split; [|split; [done|]].
  - intros s Hs. unfold targets_of at 1. cbn [targethash].
    change (default ∅ (Some ?x)) with x.
    rewrite lookup_insert_ne by done. unfold tbl. by rewrite lookup_insert_ne.
  - rewrite (bindtarget_bound t (Build_targets_state (Some (<[t:=v']> tbl)) (targets_nodes st1))
               (<[t:=v']> tbl) v' eq_refl (lookup_insert_eq _ _ _)).
    cbn [targethash mbind option_bind]. rewrite lookup_insert_eq.
    cbn [mbind option_bind target_name boundname target_flags v'].
    rewrite lor_lor_same. by rewrite insert_insert_eq.
Qed.

(** ** Chains: what an append does not touch *)

Lemma chain_seg_same {T} (h h' : gmap positive (CHAIN T)) p ps xs :
  chain_seg h p ps xs → (∀ q, q ∈ ps → h' !! q = h !! q) → chain_seg h' p ps xs.
Proof.
  revert p xs. induction ps as [|q ps IH]; intros p [|x xs]; simpl; try done.
  intros (-> & v & Hv & Hx & Hrest) Hsame. split; [done|]. exists v.
  split; [by rewrite Hsame by apply list_elem_of_here|]. split; [done|].
  apply IH; [done|]. intros q' Hq'. by apply Hsame, list_elem_of_further.
Qed.

(** What [chain_append] writes: the new node, the head, and the node the
    head's [tail] points to. *)
Lemma chain_append_frame {T} (p : option positive) (x : T)
    (h h' : gmap positive (CHAIN T)) (c : positive) :
  chain_append p x h = Some (c, h') →
  h !! fresh (dom h) = None ∧ is_Some (h' !! fresh (dom h)) ∧
  (∀ hd, p = Some hd → c = hd) ∧ (p = None → c = fresh (dom h)) ∧
  ∀ q, q ≠ fresh (dom h) → q ≠ c →
       (∀ hv, h !! c = Some hv → chain_tail hv ≠ Some q) →
       h' !! q = h !! q.
Proof.
  set (n := fresh (dom h)).
  assert (Hn : h !! n = None) by (apply not_elem_of_dom, is_fresh).
  unfold chain_append. fold n. cbn zeta. intros H.
  split; [done|].
  destruct p as [hd|]; cbn [mbind option_bind] in H.
  - destruct (decide (hd = n)) as [->|Hhd].
    { rewrite lookup_insert_eq in H. by cbn in H. }
    rewrite lookup_insert_ne in H by done.
    destruct (h !! hd) as [hv|] eqn:Hhv; [|done]. cbn [mbind option_bind] in H.
    destruct (chain_tail hv) as [tl|] eqn:Htl; [|done]. cbn [mbind option_bind] in H.
    destruct (<[n:=Build_CHAIN x None None]> h !! tl) as [tv|] eqn:Htv; [|done].
    cbn [mbind option_bind] in H.
    destruct (<[tl:=with_chain_next (Some n) tv]> (<[n:=Build_CHAIN x None None]> h) !! hd)
      as [hv2|] eqn:Hhv2; [|done].
    cbn [mbind option_bind] in H.
    destruct (<[hd:=with_chain_tail (Some n) hv2]>
       (<[tl:=with_chain_next (Some n) tv]> (<[n:=Build_CHAIN x None None]> h)) !! n)
      as [cv|] eqn:Hcv; [|done].
    cbn [mbind option_bind] in H. injection H as <- <-.
    split; [rewrite lookup_insert_eq; eauto|].
    split; [by intros ? [= ->]|]. split; [done|].
    intros q Hqn Hqhd Hqtl.
    rewrite lookup_insert_ne by done. rewrite lookup_insert_ne by done.
    rewrite lookup_insert_ne by (intros ->; by eapply Hqtl).
    by rewrite lookup_insert_ne.
  - rewrite lookup_insert_eq in H. cbn [mbind option_bind] in H.
    rewrite lookup_insert_eq in H. cbn [mbind option_bind] in H.
    injection H as <- <-.
    split; [rewrite lookup_insert_eq; eauto|].
    split; [done|]. split; [done|].
    intros q Hqn _ _. by rewrite !lookup_insert_ne.
Qed.

(** X14.  [targetentry] and [actionlist] write three nodes at most: the
    new node, which was not allocated before, the head of the chain, and
    the node the head's [tail] points to.  Every other node is as it
    was, so a chain made of other nodes still carries its items. *)
Theorem chain_append_keeps_other_chains {T} (p : option positive) (x : T)
    (h h' : gmap positive (CHAIN T)) (c : positive) q0 qs ys :
  chain_append p x h = Some (c, h') →
  chain_seg h q0 qs ys →
  (∀ hd hv, p = Some hd → h !! hd = Some hv →
     (hd ∉ qs) ∧ (∀ tl, chain_tail hv = Some tl → tl ∉ qs)) →
  h !! fresh (dom h) = None ∧
  (∀ q, q ≠ fresh (dom h) → q ≠ c →
        (∀ hv, h !! c = Some hv → chain_tail hv ≠ Some q) → h' !! q = h !! q) ∧
  chain_seg h' q0 qs ys.
Proof.
  intros Happ Hseg Hsep.
  destruct (chain_append_frame p x h h' c Happ) as (Hn & _ & Hhd & Hnone & Hframe).
  split; [done|]. split; [done|].
  eapply chain_seg_same; [done|]. intros q Hq.
  assert (Hqn : q ≠ fresh (dom h)).
  { intros ->. destruct (chain_seg_dom h q0 qs ys _ Hseg Hq) as [? ?]. congruence. }
  apply Hframe; [done| |].
  - intros ->. destruct p as [hd|].
    + specialize (Hhd hd eq_refl) as ->.
      destruct (chain_seg_dom h q0 qs ys _ Hseg Hq) as [hv Hhv].
      by destruct (Hsep hd hv eq_refl Hhv).
    + by specialize (Hnone eq_refl).
  - intros hv Hhv Htl. destruct p as [hd|].
    + specialize (Hhd hd eq_refl) as ->.
      destruct (Hsep hd hv eq_refl Hhv) as [_ Hno]. by eapply Hno.
    + specialize (Hnone eq_refl). congruence.
Qed.

(** ** References taken and given back *)

(** X15.  On an object that is referenced already, a reference taken and
    then released leaves the store as it was: [args_refer] then
    [args_free], and [actions_refer] then [actions_free], cancel. *)
Theorem refer_then_free_restores `{Counted T} (h : gmap positive T) a o :
  h !! a = Some o → 0 < count o → count o < INT_MAX →
  ∃ h1, obj_refer a h = Some h1 ∧
        count_at h1 a = Some (count o + 1) ∧
        obj_free a h1 = Some h.
Proof.
  intros Ha Hpos Hmax. exists (<[a := with_count (count o + 1) o]> h).
  unfold obj_refer, obj_free, count_at. rewrite Ha. cbn [mbind option_bind].
  rewrite decide_True by done. split; [done|].
  rewrite lookup_insert_eq. cbn [fmap option_fmap option_map mbind option_bind].
  rewrite count_with_count. split; [done|].
  rewrite decide_True by (unfold INT_MIN; lia). cbv zeta.
  rewrite decide_False by lia.
  rewrite insert_insert_eq, with_count_twice, Z.add_simpl_r, with_count_count.
  by rewrite insert_id.
Qed.

(** X16.  A list made by [args_new] has no reference; one [args_refer]
    gives it one, and the [args_free] that gives it up destroys the list:
    the state is the one before [args_new]. *)
Theorem args_new_refer_free_round_trip st :
  ∃ st1, args_refer (args_new st).1 (args_new st).2 = Some st1 ∧
         count_at (arglists (args_new st).2) (args_new st).1 = Some 0 ∧
         count_at (arglists st1) (args_new st).1 = Some 1 ∧
         args_free (args_new st).1 st1 = Some st.
Proof.
  unfold args_new. cbv zeta. cbn [fst snd].
  set (r := fresh (dom (arglists st))).
  assert (Hr : arglists st !! r = None) by (apply not_elem_of_dom, is_fresh).
  unfold args_refer, args_free, obj_refer, obj_free, count_at.
  cbn [arglists set_arglists]. rewrite lookup_insert_eq. cbn [mbind option_bind].
  rewrite decide_True by done. cbn [mbind option_bind].
  eexists. split; [done|]. split; [done|].
  cbn [arglists set_arglists]. rewrite lookup_insert_eq.
  split; [done|]. cbn [mbind option_bind].
  rewrite decide_True by done. cbv zeta. rewrite decide_True by done.
  cbn [mbind option_bind]. rewrite insert_insert_eq, delete_insert_eq.
  rewrite delete_id by done. by destruct st.
Qed.

(** ** What a push leaves alone *)

(** X17.  On a well-formed settings list with distinct symbols,
    [pushsettings] leaves in every node the value its variable had, the
    nodes and their order being the same; it changes no other node and no
    variable the list does not name, and it neither frees a value nor
    touches the pool. *)
Theorem pushsettings_trades_values head ps l st :
  is_settings (settings_nodes st) head ps l → NoDup l.*1 →
  ∃ st1,
    pushsettings head st = Some st1 ∧
    is_settings (settings_nodes st1) head ps (current (variables st) l) ∧
    (∀ q, q ∉ ps → settings_nodes st1 !! q = settings_nodes st !! q) ∧
    (∀ s, s ∉ l.*1 → var_get s (variables st1) = var_get s (variables st)) ∧
    settings_freelist st1 = settings_freelist st ∧
    freed_lists st1 = freed_lists st.
Proof.
  intros [Hnd Hseg] Hsyms.
  destruct (pushsettings_from_spec ps (size (settings_nodes st)) head l st
              Hseg Hnd Hsyms)
    as (st1 & Hpush & Hseg1 & Hframe1 & Hvars1 & Hfl1 & Hfr1);
    [by eapply settings_seg_size|].
  exists st1. split; [done|]. split; [done|]. split; [done|].
  split; [|done]. intros s Hs. rewrite Hvars1. by apply var_get_union_out.
Qed.

(** ** The further theorems at work *)

Lemma define_rule_again_witness :
  ∃ st',
    define_rule 3 "R" 2 ex_held = Some ((2%positive, "R"), st') ∧
    rule_at (2%positive, "R") st' = Some (Build_RULE None None None 3 0) ∧
    enter_rule "R" 2 st' = ((2%positive, "R"), st') ∧
    define_rule 3 "R" 2 st' = Some ((2%positive, "R"), st').
Proof.
  exists (Build_rules_state
            {[(2%positive, "R") := Build_RULE None None None 3 0]}
            ∅ {[1%positive := Build_PARSE 1 (Some "MR")]} ∅).
  assert (Hdef : define_rule 3 "R" 2 ex_held
    = Some ((2%positive, "R"),
            Build_rules_state
              {[(2%positive, "R") := Build_RULE None None None 3 0]}
              ∅ {[1%positive := Build_PARSE 1 (Some "MR")]} ∅)) by reflexivity.
  split; [exact Hdef|]. split; [reflexivity|].
  destruct (define_rule_again 3 "R" 2 ex_held _ _ Hdef) as (_ & Henter & Hagain).
  split; [exact Henter|exact Hagain].
Defined.

Lemma global_rule_name_exact_witness :
  rule_at (2%positive, "R") ex_held
    = Some (Build_RULE (Some 1%positive) (Some 1%positive) (Some 1%positive) 2 0) ∧
  global_rule_name ex_root ex_names (2%positive, "R") ex_held = Some "MR" ∧
  global_rule_name ex_root ex_names (5%positive, "r") ex_long = None.
Proof.
  split; [reflexivity|]. split.
  - rewrite (global_rule_name_exact ex_root ex_names (2%positive, "R")
               (Build_RULE (Some 1%positive) (Some 1%positive) (Some 1%positive) 2 0)
               ex_held eq_refl); [reflexivity|discriminate].
  - rewrite (global_rule_name_exact ex_root ex_names (5%positive, "r")
               (Build_RULE None None None 5 0) ex_long eq_refl);
      [reflexivity|discriminate].
Defined.

Lemma new_rule_actions_counts_each_slot_witness :
  refs_ok empty_rules ∧
  ∃ st' x l g,
    new_rule_actions ex_root ex_names 2 "R" "cc" [] 0 empty_rules
      = Some ((2%positive, "R"), st') ∧
    rule_at (2%positive, "R") st' = Some l ∧
    rule_at (1%positive, "MR") st' = Some g ∧
    actions l = Some x ∧ actions g = Some x ∧
    actionss st' !! x = Some (Build_rule_actions "cc" [] 0 2).
Proof.
  assert (Hok : refs_ok empty_rules) by (apply refs_check_sound; reflexivity).
  split; [exact Hok|].
  destruct (new_rule_actions_counts_each_slot ex_root ex_names 2 "R" "cc" [] 0
              empty_rules Hok)
    as (st' & x & l & g & Hnew & _ & Hl & Hg & Hal & Hag & Hx).
  - right. reflexivity.
  - exists st', x, l, g. split; [exact Hnew|]. split; [exact Hl|].
    split; [exact Hg|]. split; [exact Hal|]. split; [exact Hag|exact Hx].
Defined.

Lemma shared_template_freed_after_both_release_witness :
  refs_ok empty_rules ∧
  ∃ st' x st1 st2,
    new_rule_actions ex_root ex_names 2 "R" "cc" [] 0 empty_rules
      = Some ((2%positive, "R"), st') ∧
    set_rule_actions (2%positive, "R") None st' = Some st1 ∧
    actionss st1 !! x = Some (Build_rule_actions "cc" [] 0 1) ∧
    set_rule_actions (1%positive, "MR") None st1 = Some st2 ∧
    actionss st2 !! x = None.
Proof.
  assert (Hok : refs_ok empty_rules) by (apply refs_check_sound; reflexivity).
  split; [exact Hok|].
  destruct (shared_template_freed_after_both_release ex_root ex_names 2 "R" "cc" [] 0
              empty_rules Hok)
    as (st' & x & st1 & st2 & Hnew & H1 & Hx1 & _ & H2 & Hx2).
  - discriminate.
  - reflexivity.
  - exists st', x, st1, st2. split; [exact Hnew|]. split; [exact H1|].
    split; [exact Hx1|]. split; [exact H2|exact Hx2].
Defined.

Lemma import_rule_shares_the_source_witness :
  refs_ok ex_held ∧
  ∃ st' d,
    import_rule (2%positive, "R") 3 "S" ex_held = Some ((3%positive, "S"), st') ∧
    refs_ok st' ∧
    rule_at (3%positive, "S") st' = Some d ∧
    arguments d = Some 1%positive ∧ module d = 2%positive ∧
    rule_at (2%positive, "R") st' = rule_at (2%positive, "R") ex_held.
Proof.
  assert (Hok : refs_ok ex_held) by (apply refs_check_sound; reflexivity).
  split; [exact Hok|].
  destruct (import_rule_shares_the_source (2%positive, "R") 3 "S" ex_held
              (Build_RULE (Some 1%positive) (Some 1%positive) (Some 1%positive) 2 0)
              Hok eq_refl)
    as (st' & d & Himp & Hok' & Hd & Ha & _ & _ & Hm & _ & _ & _ & Hother).
  - intros a Ha. injection Ha as <-. eexists. split; [reflexivity|]. discriminate.
  - intros a Ha. injection Ha as <-. eexists. split; [reflexivity|]. discriminate.
  - intros a Ha. injection Ha as <-. eexists. split; [reflexivity|]. discriminate.
  - exists st', d. split; [exact Himp|]. split; [exact Hok'|]. split; [exact Hd|].
    split; [exact Ha|]. split; [exact Hm|]. apply Hother. discriminate.
Defined.

Lemma definition_after_import_clears_it_witness :
  refs_ok ex_held ∧
  (∃ st1 st2,
     import_rule (2%positive, "R") 3 "S" ex_held = Some ((3%positive, "S"), st1) ∧
     define_rule 3 "S" 3 st1 = Some ((3%positive, "S"), st2) ∧
     (module <$> rule_at (3%positive, "S") st2) = Some 3%positive ∧
     (arguments <$> rule_at (3%positive, "S") st2) = Some None ∧
     rule_at (2%positive, "R") st2 = rule_at (2%positive, "R") ex_held) ∧
  (∃ st1 d,
     import_rule (2%positive, "R") 2 "S" ex_held = Some ((2%positive, "S"), st1) ∧
     rule_at (2%positive, "S") st1 = Some d ∧
     define_rule 2 "S" 2 st1 = Some ((2%positive, "S"), st1)).
Proof.
  assert (Hok : refs_ok ex_held) by (apply refs_check_sound; reflexivity).
  assert (Ra : room 1 (arglists ex_held) (Some 1%positive)).
  { intros a Ha. injection Ha as <-. eexists. split; [reflexivity|]. discriminate. }
  assert (Rp : room 1 (parses ex_held) (Some 1%positive)).
  { intros a Ha. injection Ha as <-. eexists. split; [reflexivity|]. discriminate. }
  assert (Rx : room 1 (actionss ex_held) (Some 1%positive)).
  { intros a Ha. injection Ha as <-. eexists. split; [reflexivity|]. discriminate. }
  split; [exact Hok|]. split.
  - destruct (definition_after_import_clears_it (2%positive, "R") 3 "S" ex_held
                (Build_RULE (Some 1%positive) (Some 1%positive) (Some 1%positive) 2 0)
                Hok eq_refl Ra Rp Rx)
      as (st1 & d & Himp & _ & _ & _ & Hforeign).
    destruct Hforeign as (st2 & Hdef & Hd2 & _ & Hkept); [discriminate|].
    destruct Hkept as (Hsrc & _); [discriminate|].
    exists st1, st2. split; [exact Himp|]. split; [exact Hdef|].
    rewrite Hd2. split; [reflexivity|]. split; [reflexivity|exact Hsrc].
  - destruct (definition_after_import_clears_it (2%positive, "R") 2 "S" ex_held
                (Build_RULE (Some 1%positive) (Some 1%positive) (Some 1%positive) 2 0)
                Hok eq_refl Ra Rp Rx)
      as (st1 & d & Himp & Hd & _ & Hown & _).
    exists st1, d. split; [exact Himp|]. split; [exact Hd|].
    apply Hown. reflexivity.
Defined.

Lemma new_rule_body_local_takes_one_reference_witness :
  refs_ok ex_fresh ∧
  ∃ st' l pv',
    new_rule_body ex_root ex_names 2 "R" (Some 1%positive) (Some 1%positive) 0 ex_fresh
      = Some ((2%positive, "R"), st') ∧
    rule_at (2%positive, "R") st' = Some l ∧
    arguments l = Some 1%positive ∧ procedure l = Some 1%positive ∧
    rule_at (1%positive, "MR") st' = None ∧
    parses st' !! 1%positive = Some pv' ∧
    rulename pv' = Some "MR" ∧ count pv' = 2 ∧
    arglists st' !! 1%positive = Some (Build_argument_list 1 [["x"]]).
Proof.
  assert (Hok : refs_ok ex_fresh) by (apply refs_check_sound; reflexivity).
  split; [exact Hok|].
  destruct (new_rule_body_local_takes_one_reference ex_root ex_names 2 "R"
              (Some 1%positive) 1 0 ex_fresh (Build_PARSE 1 None) Hok)
    as (st' & l & pv' & Hnew & _ & Hl & Hla & Hlp & _ & _ & Hother & Hpv' & Hname
        & Hcount & Hargs).
  - left. reflexivity.
  - intros a Ha. injection Ha as <-. eexists. split; [reflexivity|]. left. reflexivity.
  - intros a Ha. injection Ha as <-. eexists. split; [reflexivity|]. left. reflexivity.
  - intros a Ha. injection Ha as <-. eexists. split; [reflexivity|]. discriminate.
  - intros a Ha. injection Ha as <-. eexists. split; [reflexivity|]. discriminate.
  - reflexivity.
  - right. right. reflexivity.
  - exists st', l, pv'. split; [exact Hnew|]. split; [exact Hl|]. split; [exact Hla|].
    split; [exact Hlp|]. split; [|split; [exact Hpv'|split; [exact Hname|split]]].
    + rewrite Hother by discriminate. reflexivity.
    + apply Hcount. discriminate.
    + apply (Hargs 1%positive (Build_argument_list 0 [["x"]]) eq_refl eq_refl).
      discriminate.
Defined.

Lemma ex_pooled_is_settings :
  is_settings (settings_nodes ex_pooled) (Some 1%positive) ([1%positive] ++ [2%positive])
    [("X", ["1"]); ("Y", ["2"])].
Proof.
  split.
  - apply NoDup_cons_2; [|apply NoDup_singleton].
    intros Hin. apply list_elem_of_singleton in Hin. discriminate.
  - simpl. split; [reflexivity|]. eexists. split; [reflexivity|].
    split; [reflexivity|]. split; [reflexivity|].
    split; [reflexivity|]. eexists. split; [reflexivity|].
    split; [reflexivity|]. split; reflexivity.
Defined.

Lemma ex_pooled_pool :
  pool_seg (settings_nodes ex_pooled) (settings_freelist ex_pooled)
    [3%positive; 4%positive].
Proof.
  simpl. split; [reflexivity|]. eexists. split; [reflexivity|].
  split; [reflexivity|]. eexists. split; reflexivity.
Defined.

Lemma ex_pooled_distinct :
  NoDup (([1%positive] ++ [2%positive]) ++ [3%positive; 4%positive]).
Proof.
  simpl. repeat (apply NoDup_cons_2; [
    rewrite ?elem_of_cons, elem_of_nil; intros H;
    repeat (destruct H as [H|H]; [discriminate|]); exact H |]).
  apply NoDup_nil_2.
Defined.

Lemma freesettings_pools_the_nodes_witness :
  ∃ st',
    freesettings (Some 1%positive) ex_pooled = Some st' ∧
    pool_seg (settings_nodes st') (settings_freelist st')
      [2%positive; 1%positive; 3%positive; 4%positive] ∧
    freed_lists st' = [["1"]; ["2"]].
Proof.
  destruct (freesettings_pools_the_nodes (Some 1%positive) _ _ _ ex_pooled
              ex_pooled_is_settings ex_pooled_pool ex_pooled_distinct)
    as (st' & Hfree & Hpool & Hfreed & _).
  exists st'. split; [exact Hfree|]. split; [exact Hpool|exact Hfreed].
Defined.

Lemma addsettings_reuses_a_freed_node_witness :
  ∃ st1 st2,
    freesettings (Some 1%positive) ex_pooled = Some st1 ∧
    addsettings None 0 "V" ["v"] st1 = Some (Some 2%positive, st2) ∧
    is_settings (settings_nodes st2) (Some 2%positive) [2%positive] [("V", ["v"])] ∧
    pool_seg (settings_nodes st2) (settings_freelist st2)
      [1%positive; 3%positive; 4%positive].
Proof.
  destruct (addsettings_reuses_a_freed_node (Some 1%positive) [1%positive] 2%positive
              _ _ 0 "V" ["v"] ex_pooled
              ex_pooled_is_settings ex_pooled_pool ex_pooled_distinct)
    as (st1 & st2 & Hfree & Hadd & Hset & Hpool & _).
  exists st1, st2. split; [exact Hfree|]. split; [exact Hadd|].
  split; [exact Hset|exact Hpool].
Defined.

Lemma donerules_drains_the_pool_witness :
  ∃ st',
    donerules empty_targets ex_pooled = Some st' ∧
    settings_freelist st' = None ∧
    settings_nodes st' !! 3%positive = None ∧
    settings_nodes st' !! 4%positive = None ∧
    is_settings (settings_nodes st') (Some 1%positive) ([1%positive] ++ [2%positive])
      [("X", ["1"]); ("Y", ["2"])].
Proof.
  destruct (donerules_drains_the_pool empty_targets [3%positive; 4%positive] ex_pooled
              ex_pooled_pool)
    as (st' & Hdone & Hfl & _ & _ & Hgone & _ & Hkeep).
  - apply NoDup_cons_2; [|apply NoDup_singleton].
    intros Hin. apply list_elem_of_singleton in Hin. discriminate.
  - exists st'. split; [exact Hdone|]. split; [exact Hfl|].
    split; [apply Hgone, list_elem_of_here|].
    split; [apply Hgone, list_elem_of_further, list_elem_of_here|].
    apply Hkeep; [exact ex_pooled_is_settings|].
    intros q Hq Hfs. simpl in Hq.
    rewrite !elem_of_cons, elem_of_nil in Hq.
    rewrite !elem_of_cons, elem_of_nil in Hfs.
    destruct Hq as [->|[->|[]]]; destruct Hfs as [?|[?|[]]]; discriminate.
Defined.

Lemma chain_append_keeps_other_chains_witness :
  ∃ h',
    chain_append (Some 1%positive) "c" ex_chains = Some (1%positive, h') ∧
    chain_seg ex_chains (Some 2%positive) [2%positive] ["b"] ∧
    chain_seg h' (Some 2%positive) [2%positive] ["b"] ∧
    h' !! 2%positive = ex_chains !! 2%positive.
Proof.
  set (h' := <[3%positive := Build_CHAIN "c" None None]>
               (<[1%positive := Build_CHAIN "a" (Some 3%positive) (Some 3%positive)]>
                  ex_chains)).
  assert (Happ : chain_append (Some 1%positive) "c" ex_chains = Some (1%positive, h'))
    by reflexivity.
  assert (Hseg : chain_seg ex_chains (Some 2%positive) [2%positive] ["b"]).
  { simpl. split; [reflexivity|]. eexists. split; [reflexivity|].
    split; reflexivity. }
  exists h'. split; [exact Happ|]. split; [exact Hseg|].
  destruct (chain_append_keeps_other_chains (Some 1%positive) "c" ex_chains h' 1
              (Some 2%positive) [2%positive] ["b"] Happ Hseg)
    as (_ & Hframe & Hseg').
  - intros hd hv Hhd Hhv. injection Hhd as <-.
    assert (Ehv : hv = Build_CHAIN "a" None (Some 1%positive)).
    { assert (E : ex_chains !! 1%positive
                  = Some (Build_CHAIN "a" None (Some 1%positive))) by reflexivity.
      rewrite E in Hhv. injection Hhv as <-. reflexivity. }
    subst hv. split.
    + intros Hin. apply list_elem_of_singleton in Hin. discriminate.
    + intros tl Htl Hin. apply list_elem_of_singleton in Hin. subst tl. discriminate.
  - split; [exact Hseg'|]. reflexivity.
Defined.

Lemma refer_then_free_restores_witness :
  arglists ex_held !! 1%positive = Some (Build_argument_list 1 [["x"]]) ∧
  ∃ h1,
    obj_refer 1 (arglists ex_held) = Some h1 ∧
    count_at h1 1 = Some 2 ∧
    obj_free 1 h1 = Some (arglists ex_held).
Proof.
  split; [reflexivity|].
  destruct (refer_then_free_restores (arglists ex_held) 1
              (Build_argument_list 1 [["x"]]) eq_refl)
    as (h1 & Hrefer & Hcount & Hfree).
  - reflexivity.
  - reflexivity.
  - exists h1. split; [exact Hrefer|]. split; [exact Hcount|exact Hfree].
Defined.

Lemma pushsettings_trades_values_witness :
  ∃ st1,
    pushsettings (Some 1%positive) ex_settings = Some st1 ∧
    is_settings (settings_nodes st1) (Some 1%positive) [1%positive; 2%positive]
      [("X", ["old"]); ("Y", [])] ∧
    var_get "Z" (variables st1) = [].
Proof.
  destruct (pushsettings_trades_values _ _ _ _ ex_settings_is_settings ex_settings_symbols)
    as (st1 & Hpush & Hset & _ & Hvars & _).
  exists st1. split; [exact Hpush|]. split; [exact Hset|].
  rewrite Hvars; [reflexivity|].
  intros Hin. simpl in Hin. rewrite !elem_of_cons, elem_of_nil in Hin.
  destruct Hin as [?|[?|[]]]; discriminate.
Defined.
